(** * EloWard rank lookup: cache, in-flight registry, fetch coordinator
      and badge projection

    A shallow embedding of
    [src/site/twitch.tv/modules/eloward/composables/useEloWardRanks.ts].

    Conventions of the model.
    - A JavaScript string is a [string]: a sequence of 8-bit characters, read
      as the UTF-8 bytes of the text.  [toLowerCase] and [toUpperCase] are the
      ASCII case mappings, which is what JavaScript computes on ASCII text
      and only there: the theorems take the texts whose letter case matters
      (usernames, tiers, regions) to be ASCII.  [encodeURIComponent] works on
      the bytes and is exact.
    - A JavaScript number is an integer [Z] ([Date.now()], [lp], HTTP status);
      where a number is printed it is taken to be a safe integer.
    - A value that the program receives untyped (a parsed JSON body and the
      record fields copied out of it) is a [jsval].
    - A call that can raise [TypeError] returns a [completion].
    - [perfLog] and [performance.now()] only write to the console in
      development builds and are left out.
    - Asynchronous code is a state machine: a call to [fetchRankData] or
      [getOrFetchBadge], the settling of [await fetch(...)] and the settling
      of [await response.json()] are one step each, run to completion as the
      event loop does.  The [then] callbacks of a request run in the step
      that settles it.  The request closure is taken to reach its first
      [await]: [fetch] and [AbortSignal.timeout] report failure by
      rejecting, not by throwing.
    - The state is that of the module ([rankCache], [pendingRequests],
      [globalData.userBadges]) with one [useEloWardRanks] instance
      ([enabled], [isLoading]).  [userBadges] is an object used as a map
      from usernames to badges; the key [__proto__], which an assignment
      treats specially, is outside the model.  The handle that
      [useEloWardBadge] returns is modelled by the key it is bound to.

    The last part embeds four of the format converters of the extension,
    [convertTwitchBadge], [convertCheerEmote], [convertFfzBadges] and
    [semanticVersionToNumber].  There a record field holds what its
    TypeScript interface says it holds, and a number is an integer, [NaN],
    or the decimal value that [parseFloat] reads; JavaScript computes with
    the nearest double, which is the value itself for an integer of
    magnitude below 2^53. *)

From Stdlib Require Import ZArith List String Ascii Bool Lia Arith Sorted.
From Stdlib Require Import Numbers.DecimalString.
From Stdlib Require DecimalPos DecimalZ DecimalFacts.
Import ListNotations.

Set Warnings "-register-all".

Open Scope list_scope.
Open Scope string_scope.

(* ================================================================== *)
(** ** The JavaScript runtime pieces that the module uses *)
(* ================================================================== *)

Module JS.

(** *** Completions: a normal value or a thrown error *)

Inductive error := TypeError.

Inductive completion (A : Type) : Type :=
| Normal (a : A)
| Throw (e : error).

Arguments Normal {A} a.
Arguments Throw {A} e.

Definition bind {A B} (c : completion A) (k : A -> completion B) : completion B :=
  match c with
  | Normal a => k a
  | Throw e => Throw e
  end.

(** *** Strings *)

Definition is_upper (c : ascii) : bool :=
  let n := nat_of_ascii c in (65 <=? n)%nat && (n <=? 90)%nat.

Definition is_lower (c : ascii) : bool :=
  let n := nat_of_ascii c in (97 <=? n)%nat && (n <=? 122)%nat.

Definition is_digit (c : ascii) : bool :=
  let n := nat_of_ascii c in (48 <=? n)%nat && (n <=? 57)%nat.

Definition lowerChar (c : ascii) : ascii :=
  if is_upper c then ascii_of_nat (nat_of_ascii c + 32) else c.

Definition upperChar (c : ascii) : ascii :=
  if is_lower c then ascii_of_nat (nat_of_ascii c - 32) else c.

Fixpoint mapString (f : ascii -> ascii) (s : string) : string :=
  match s with
  | EmptyString => EmptyString
  | String c r => String (f c) (mapString f r)
  end.

(** Whether [s] is ASCII text. *)
Fixpoint all_ascii (s : string) : bool :=
  match s with
  | EmptyString => true
  | String c r => (nat_of_ascii c <? 128)%nat && all_ascii r
  end.

(** [String.prototype.toLowerCase] and [toUpperCase] on ASCII text.  On
    other text JavaScript also maps letters outside ASCII (it lower-cases
    the Kelvin sign to [k] and upper-cases the long s to [S]), which these
    definitions leave as they are.  A theorem that lower- or upper-cases a
    username, a tier or a region therefore takes it to be ASCII
    ([all_ascii]). *)
Definition toLowerCase (s : string) : string := mapString lowerChar s.
Definition toUpperCase (s : string) : string := mapString upperChar s.

(** [s.split(sep)] for a one-character separator: the pieces between the
    occurrences of [sep], always at least one piece. *)
Fixpoint split (sep : ascii) (s : string) : list string :=
  match s with
  | EmptyString => [EmptyString]
  | String c r =>
      if Ascii.eqb c sep then EmptyString :: split sep r
      else match split sep r with
           | p :: ps => String c p :: ps
           | [] => [String c EmptyString]
           end
  end.

Definition hexDigit (n : nat) : ascii :=
  if (n <? 10)%nat then ascii_of_nat (48 + n) else ascii_of_nat (55 + n).

(** The characters [encodeURIComponent] leaves alone:
    [A-Z a-z 0-9 - _ . ! ~ * ' ( )]. *)
Definition uriUnreserved (c : ascii) : bool :=
  is_upper c || is_lower c || is_digit c
  || existsb (Ascii.eqb c) ["-"; "_"; "."; "!"; "~"; "*"; "'"; "("; ")"]%char.

Definition percentEncode (c : ascii) : string :=
  let n := nat_of_ascii c in
  String "%" (String (hexDigit (n / 16)) (String (hexDigit (n mod 16)) EmptyString)).

Fixpoint encodeURIComponent (s : string) : string :=
  match s with
  | EmptyString => EmptyString
  | String c r =>
      (if uriUnreserved c then String c EmptyString else percentEncode c)
        ++ encodeURIComponent r
  end.


(** [Number.prototype.toString] on a safe integer: its decimal digits.
    JavaScript rounds larger integers to a double and prints them in
    exponent form from 10^21 on; a theorem that prints a number therefore
    bounds it ([safe_integer] or a tighter bound). *)
Definition NumberToString (z : Z) : string :=
  NilZero.string_of_int (Z.to_int z).

(** *** Untyped values *)

Inductive jsval :=
| JUndefined
| JNull
| JBool (b : bool)
| JNum (z : Z)
| JStr (s : string)
| JArr (l : list jsval)
| JObj (o : list (string * jsval)).

(** First binding of [k] in the property list of an object. *)
Fixpoint assoc {A} (k : string) (o : list (string * A)) : option A :=
  match o with
  | [] => None
  | (k', v) :: r => if String.eqb k k' then Some v else assoc k r
  end.

(** [ToBoolean]: the falsy values are [undefined], [null], [false], [0]
    and the empty string. *)
Definition truthy (v : jsval) : bool :=
  match v with
  | JUndefined | JNull => false
  | JBool b => b
  | JNum z => negb (z =? 0)%Z
  | JStr s => negb (String.eqb s "")
  | JArr _ | JObj _ => true
  end.

(** [ToString], as a template literal applies it.  An array prints its
    elements joined by commas, [null] and [undefined] elements as nothing.
    A plain object prints as [[object Object]], unless it carries a
    [toString] property of its own: a JSON value is never callable, and the
    conversion then raises [TypeError]. *)
Fixpoint ToString (v : jsval) : completion string :=
  match v with
  | JUndefined => Normal "undefined"
  | JNull => Normal "null"
  | JBool true => Normal "true"
  | JBool false => Normal "false"
  | JNum z => Normal (NumberToString z)
  | JStr s => Normal s
  | JArr l =>
      (fix join (l : list jsval) : completion string :=
         match l with
         | [] => Normal ""
         | x :: r =>
             let elem := match x with
                         | JUndefined | JNull => Normal ""
                         | _ => ToString x
                         end in
             match r with
             | [] => elem
             | _ => bind elem (fun e => bind (join r) (fun t => Normal (e ++ "," ++ t)%string))
             end
         end) l
  | JObj o =>
      match assoc "toString" o with
      | Some _ => Throw TypeError
      | None => Normal "[object Object]"
      end
  end.

(** [v.p] for a property name [p] that no prototype defines: reading a
    property of [null] or [undefined] raises; an object gives its own
    property; every other value gives [undefined]. *)
Definition getField (v : jsval) (p : string) : completion jsval :=
  match v with
  | JUndefined | JNull => Throw TypeError
  | JObj o => Normal (match assoc p o with Some x => x | None => JUndefined end)
  | _ => Normal JUndefined
  end.

(** [v.toLowerCase()], [v.toUpperCase()] and [v.split(sep)] on a value that is
    known not to be [null] or [undefined]: the method exists on strings
    only, and calling a missing method raises [TypeError]. *)
Definition callToLowerCase (v : jsval) : completion string :=
  match v with JStr s => Normal (toLowerCase s) | _ => Throw TypeError end.

Definition callToUpperCase (v : jsval) : completion string :=
  match v with JStr s => Normal (toUpperCase s) | _ => Throw TypeError end.

Definition callSplit (v : jsval) (sep : ascii) : completion (list string) :=
  match v with JStr s => Normal (split sep s) | _ => Throw TypeError end.

(** *** Object literals read with [table[key]]

    An object literal inherits from [Object.prototype], so a key that the
    literal does not define can still find an inherited member. *)

Definition Object_prototype_names : list string :=
  [ "constructor"; "__defineGetter__"; "__defineSetter__"; "hasOwnProperty";
    "__lookupGetter__"; "__lookupSetter__"; "isPrototypeOf";
    "propertyIsEnumerable"; "toString"; "valueOf"; "__proto__";
    "toLocaleString" ].

Inductive member :=
| Own (v : string)            (* a property of the literal itself *)
| Inherited (name : string)   (* a member of Object.prototype: truthy *)
| Missing.                    (* undefined *)

Definition tableLookup (table : list (string * string)) (k : string) : member :=
  match assoc k table with
  | Some v => Own v
  | None => if existsb (String.eqb k) Object_prototype_names then Inherited k else Missing
  end.

(** How a template literal prints an inherited member: [__proto__] is the
    prototype object itself; the others are built-in functions, printed here
    the way V8 prints them. *)
Definition inheritedToString (name : string) : string :=
  if String.eqb name "__proto__" then "[object Object]"
  else "function " ++ (if String.eqb name "constructor" then "Object" else name)
       ++ "() { [native code] }".

End JS.

Import JS.

Notation "x <- c ;; k" := (JS.bind c (fun x => k))
  (at level 61, c at next level, right associativity).

(* ================================================================== *)
(** ** Constants and data of the module *)
(* ================================================================== *)

Definition API_BASE_URL : string := "https://eloward-ranks.unleashai.workers.dev/api/ranks/lol".
Definition CDN_BASE_URL : string := "https://eloward-cdn.unleashai.workers.dev/lol".
Definition DEFAULT_CACHE_DURATION : Z := 60 * 60 * 1000.
Definition NEGATIVE_CACHE_DURATION : Z := 15 * 60 * 1000.
Definition MAX_CACHE_SIZE : Z := 500.
Definition BADGE_CACHE_VERSION : string := "3".

(** [interface EloWardRankData].  The fields are copied from the parsed
    response without conversion, so each one holds whatever the body held;
    a field that is not there is [JUndefined]. *)
Record EloWardRankData := mkRankData {
  tier : jsval;
  division : jsval;
  leaguePoints : jsval;
  summonerName : jsval;
  region : jsval;
  animate_badge : jsval
}.

(** [interface EloWardBadge]. *)
Record EloWardBadge := mkBadge {
  badge_id : string;
  badge_tier : string;
  badge_division : jsval;
  badge_imageUrl : string;
  badge_animated : bool;
  badge_summonerName : jsval;
  badge_region : jsval;
  badge_leaguePoints : jsval
}.

Definition RANK_TIERS : list string :=
  [ "iron"; "bronze"; "silver"; "gold"; "platinum"; "emerald"; "diamond";
    "master"; "grandmaster"; "challenger"; "unranked" ].

(** [RANK_TIERS.has(s)] *)
Definition RANK_TIERS_has (s : string) : bool := existsb (String.eqb s) RANK_TIERS.

Definition getImageUrl (tier : string) (isAnimated : bool) : string :=
  let extension := if isAnimated then ".webp" else ".png" in
  let suffix := if isAnimated then "_premium" else "" in
  CDN_BASE_URL ++ "/" ++ tier ++ suffix ++ extension ++ "?v=" ++ BADGE_CACHE_VERSION.

(* ================================================================== *)
(** ** The badge projector and the text helpers *)
(* ================================================================== *)

Definition getRankBadge (rankData : EloWardRankData) : completion (option EloWardBadge) :=
  if negb (truthy (tier rankData)) then Normal None
  else
    t <- callToLowerCase (tier rankData) ;;
    if negb (RANK_TIERS_has t) then Normal None
    else
      let shouldAnimate := truthy (animate_badge rankData) in
      let imageUrl := getImageUrl t shouldAnimate in
      dash <- (if truthy (division rankData)
               then d <- ToString (division rankData) ;; Normal ("-" ++ d)
               else Normal "") ;;
      upper <- callToUpperCase (tier rankData) ;;
      Normal (Some {| badge_id := "eloward-" ++ t ++ dash;
                      badge_tier := upper;
                      badge_division := division rankData;
                      badge_imageUrl := imageUrl;
                      badge_animated := shouldAnimate;
                      badge_summonerName := summonerName rankData;
                      badge_region := region rankData;
                      badge_leaguePoints := leaguePoints rankData |}).

Definition formatRankText (rankData : EloWardRankData) : completion string :=
  if negb (truthy (tier rankData)) then Normal "UNRANKED"
  else
    tierUpper <- callToUpperCase (tier rankData) ;;
    if String.eqb tierUpper "UNRANKED" then Normal "UNRANKED"
    else
      rankText <-
        (if truthy (division rankData)
            && negb (existsb (String.eqb tierUpper) ["MASTER"; "GRANDMASTER"; "CHALLENGER"])
         then d <- ToString (division rankData) ;; Normal (tierUpper ++ " " ++ d)
         else Normal tierUpper) ;;
      match leaguePoints rankData with
      | JUndefined | JNull => Normal rankText
      | lp => p <- ToString lp ;; Normal (rankText ++ " - " ++ p ++ " LP")
      end.

(** [regionMap], the display table of [getRegionDisplay]. *)
Definition regionMap : list (string * string) :=
  [ ("na1", "NA"); ("euw1", "EUW"); ("eun1", "EUNE"); ("kr", "KR");
    ("br1", "BR"); ("jp1", "JP"); ("la1", "LAN"); ("la2", "LAS");
    ("oc1", "OCE"); ("tr1", "TR"); ("ru", "RU"); ("ph2", "PH");
    ("sg2", "SG"); ("th2", "TH"); ("tw2", "TW"); ("vn2", "VN");
    ("me1", "ME"); ("sea", "SEA") ].

(** [regionMapping], the OP.GG table of [getOpGGUrl]. *)
Definition regionMapping : list (string * string) :=
  [ ("na1", "na"); ("euw1", "euw"); ("eun1", "eune"); ("kr", "kr");
    ("br1", "br"); ("jp1", "jp"); ("la1", "lan"); ("la2", "las");
    ("oc1", "oce"); ("tr1", "tr"); ("ru", "ru"); ("ph2", "ph");
    ("sg2", "sg"); ("th2", "th"); ("tw2", "tw"); ("vn2", "vn");
    ("me1", "me") ].

(** What [`${opGGRegion}`] prints, and [None] when [!opGGRegion] holds. *)
Definition memberText (m : member) : option string :=
  match m with
  | Own v => if String.eqb v "" then None else Some v
  | Inherited name => Some (inheritedToString name)
  | Missing => None
  end.

Definition getOpGGUrl (rankData : EloWardRankData) : completion (option string) :=
  if negb (truthy (summonerName rankData)) || negb (truthy (region rankData))
  then Normal None
  else
    key <- callToLowerCase (region rankData) ;;
    match memberText (tableLookup regionMapping key) with
    | None => Normal None
    | Some opGGRegion =>
        pieces <- callSplit (summonerName rankData) "#" ;;
        (* const [summonerName, tagLine] = pieces *)
        let name := nth_error pieces 0 in
        let tagLine := nth_error pieces 1 in
        let encodedName :=
          encodeURIComponent (match name with Some n => n | None => "undefined" end) in
        tag <- match tagLine with
               | Some t => if String.eqb t "" then callToUpperCase (region rankData)
                           else Normal t
               | None => callToUpperCase (region rankData)
               end ;;
        Normal (Some ("https://op.gg/lol/summoners/" ++ opGGRegion ++ "/"
                        ++ encodedName ++ "-" ++ tag))
    end.

(* ================================================================== *)
(** ** [Map<string, V>]: bindings kept in insertion order *)
(* ================================================================== *)

Module OMap.
Section Ops.
Context {V : Type}.

Definition get (k : string) (m : list (string * V)) : option V := assoc k m.

Definition has (k : string) (m : list (string * V)) : bool :=
  match get k m with Some _ => true | None => false end.

Fixpoint delete (k : string) (m : list (string * V)) : list (string * V) :=
  match m with
  | [] => []
  | (k', v) :: r => if String.eqb k k' then delete k r else (k', v) :: delete k r
  end.

(** [m.set(k, v)]: a key that is already there keeps its place, a new key
    goes to the end. *)
Fixpoint set (k : string) (v : V) (m : list (string * V)) : list (string * V) :=
  match m with
  | [] => [(k, v)]
  | (k', v') :: r => if String.eqb k k' then (k, v) :: r else (k', v') :: set k v r
  end.

(** [m.keys().next().value] *)
Definition firstKey (m : list (string * V)) : option string :=
  match m with
  | [] => None
  | (k, _) :: _ => Some k
  end.

Definition keys (m : list (string * V)) : list string := map fst m.
End Ops.
End OMap.

(* ================================================================== *)
(** ** [class LRUCache] *)
(* ================================================================== *)

(** [interface CacheEntry]: [data] is [None] for a negative entry. *)
Record CacheEntry := mkEntry {
  data : option EloWardRankData;
  timestamp : Z
}.

Module LRUCache.

Record t := mk {
  cache : list (string * CacheEntry);
  maxSize : Z
}.

(** [new LRUCache(maxSize)] *)
Definition new (maxSize : Z) : t := {| cache := []; maxSize := maxSize |}.

(** The expiry that [get] applies to an entry. *)
Definition cacheDuration (entry : CacheEntry) : Z :=
  match data entry with
  | None => NEGATIVE_CACHE_DURATION
  | Some _ => DEFAULT_CACHE_DURATION
  end.

(** [get(username)], with [now] the value of [Date.now()].  The result is
    [None] for [undefined], [Some None] for [null] and [Some (Some d)] for a
    rank record. *)
Definition get (username : string) (now : Z) (c : t)
  : t * option (option EloWardRankData) :=
  let key := toLowerCase username in
  match OMap.get key (cache c) with
  | None => (c, None)
  | Some entry =>
      if (now - timestamp entry >? cacheDuration entry)%Z
      then ({| cache := OMap.delete key (cache c); maxSize := maxSize c |}, None)
      else ({| cache := OMap.set key entry (OMap.delete key (cache c));
               maxSize := maxSize c |}, Some (data entry))
  end.

(** [set(username, data)] *)
Definition set (username : string) (d : option EloWardRankData) (now : Z) (c : t) : t :=
  let key := toLowerCase username in
  let kept :=
    if (Z.of_nat (List.length (cache c)) >=? maxSize c)%Z && negb (OMap.has key (cache c))
    then match OMap.firstKey (cache c) with
         | Some firstKey =>
             if negb (String.eqb firstKey "") then OMap.delete firstKey (cache c)
             else cache c
         | None => cache c
         end
    else cache c in
  {| cache := OMap.set key {| data := d; timestamp := now |} kept;
     maxSize := maxSize c |}.

Definition clear (c : t) : t := {| cache := []; maxSize := maxSize c |}.

Definition size (c : t) : nat := List.length (cache c).

End LRUCache.

(* ================================================================== *)
(** ** The coordinator: module state and the event loop *)
(* ================================================================== *)

(** How [await fetch(...)] comes back. *)
Inductive fetch_outcome :=
| FetchRejected             (* network failure, abort, or the 5 s timeout *)
| Response (status : Z).    (* a response head with this HTTP status *)

(** [response.ok] *)
Definition ok (status : Z) : bool := ((200 <=? status) && (status <=? 299))%Z.

(** How [await response.json()] comes back. *)
Inductive json_outcome :=
| JsonRejected              (* the body is not JSON, or reading it was aborted *)
| Json (data : jsval).

(** Where one run of the request closure of [fetchRankData] stands. *)
Inductive phase :=
| AwaitFetch
| AwaitJson
| Settled (result : option EloWardRankData).

Record request := mkRequest {
  req_key : string;           (* normalizedUsername *)
  req_phase : phase
}.

(** What [fetchRankData] hands to its caller: a promise that is already
    resolved, or one that follows the request with the given number. *)
Inductive promise :=
| Resolved (v : option EloWardRankData)
| Follows (rid : nat).

Record State := mkState {
  enabled : bool;                                   (* eloward.enabled *)
  isLoading : bool;
  rankCache : LRUCache.t;
  pendingRequests : list (string * nat);            (* key -> request number *)
  userBadges : list (string * option EloWardBadge); (* globalData.userBadges *)
  requests : list request;                          (* every fetch issued so far *)
  callbacks : list (nat * string)                   (* .then callbacks of getOrFetchBadge *)
}.

Definition init (enabled : bool) : State :=
  {| enabled := enabled; isLoading := false;
     rankCache := LRUCache.new MAX_CACHE_SIZE;
     pendingRequests := []; userBadges := []; requests := []; callbacks := [] |}.

Definition with_enabled (b : bool) (s : State) : State :=
  mkState b (isLoading s) (rankCache s) (pendingRequests s) (userBadges s)
          (requests s) (callbacks s).
Definition with_isLoading (b : bool) (s : State) : State :=
  mkState (enabled s) b (rankCache s) (pendingRequests s) (userBadges s)
          (requests s) (callbacks s).
Definition with_rankCache (c : LRUCache.t) (s : State) : State :=
  mkState (enabled s) (isLoading s) c (pendingRequests s) (userBadges s)
          (requests s) (callbacks s).
Definition with_pendingRequests (p : list (string * nat)) (s : State) : State :=
  mkState (enabled s) (isLoading s) (rankCache s) p (userBadges s)
          (requests s) (callbacks s).
Definition with_userBadges (b : list (string * option EloWardBadge)) (s : State) : State :=
  mkState (enabled s) (isLoading s) (rankCache s) (pendingRequests s) b
          (requests s) (callbacks s).
Definition with_requests (r : list request) (s : State) : State :=
  mkState (enabled s) (isLoading s) (rankCache s) (pendingRequests s) (userBadges s)
          r (callbacks s).
Definition with_callbacks (c : list (nat * string)) (s : State) : State :=
  mkState (enabled s) (isLoading s) (rankCache s) (pendingRequests s) (userBadges s)
          (requests s) c.

(** The URL that the request closure fetches:
    [`${API_BASE_URL}/${normalizedUsername}`]. *)
Definition url_of (normalizedUsername : string) : string :=
  API_BASE_URL ++ "/" ++ normalizedUsername.

(** The URLs requested so far, oldest first. *)
Definition outbound (s : State) : list string :=
  map (fun r => url_of (req_key r)) (requests s).

Definition phase_of (rid : nat) (s : State) : option phase :=
  option_map req_phase (nth_error (requests s) rid).

Fixpoint set_phase (rid : nat) (p : phase) (rs : list request) : list request :=
  match rs, rid with
  | [], _ => []
  | r :: rest, O => mkRequest (req_key r) p :: rest
  | r :: rest, S n => r :: set_phase n p rest
  end.

(** The value a promise has resolved with, if it has. *)
Definition resolution (p : promise) (s : State) : option (option EloWardRankData) :=
  match p with
  | Resolved v => Some v
  | Follows rid =>
      match phase_of rid s with
      | Some (Settled v) => Some v
      | _ => None
      end
  end.

(** The body of both store-writing callbacks:
    [badge = rankData ? getRankBadge(rankData) : null;
     globalData.userBadges[normalizedUsername] = badge].
    If [getRankBadge] throws, the assignment is not reached. *)
Definition storeBadge (normalizedUsername : string) (rankData : option EloWardRankData)
    (s : State) : State :=
  match rankData with
  | None => with_userBadges (OMap.set normalizedUsername None (userBadges s)) s
  | Some d =>
      match getRankBadge d with
      | Normal badge => with_userBadges (OMap.set normalizedUsername badge (userBadges s)) s
      | Throw _ => s
      end
  end.

(** [p.then(rankData => ...store...)]: runs at once on a promise that has
    resolved, and is queued on one that has not. *)
Definition thenStore (p : promise) (normalizedUsername : string) (s : State) : State :=
  match resolution p s with
  | Some v => storeBadge normalizedUsername v s
  | None =>
      match p with
      | Follows rid => with_callbacks (callbacks s ++ [(rid, normalizedUsername)]) s
      | Resolved _ => s
      end
  end.

(** [fetchRankData(username)], up to the point where it returns its
    promise.  [now] is the value of [Date.now()] inside [rankCache.get]. *)
Definition fetchRankData (username : string) (now : Z) (s : State) : State * promise :=
  if negb (enabled s) || String.eqb username "" then (s, Resolved None)
  else
    let normalizedUsername := toLowerCase username in
    let (c, cached) := LRUCache.get normalizedUsername now (rankCache s) in
    let s := with_rankCache c s in
    match cached with
    | Some v => (s, Resolved v)
    | None =>
        match OMap.get normalizedUsername (pendingRequests s) with
        | Some rid => (s, Follows rid)
        | None =>
            (* the request closure runs up to [await fetch(...)] *)
            let rid := List.length (requests s) in
            let s := with_isLoading true s in
            let s := with_requests (requests s ++ [mkRequest normalizedUsername AwaitFetch]) s in
            let s := with_pendingRequests
                       (OMap.set normalizedUsername rid (pendingRequests s)) s in
            (s, Follows rid)
        end
    end.

Definition getCachedRankData (username : string) (now : Z) (s : State)
  : State * option (option EloWardRankData) :=
  if negb (enabled s) || String.eqb username "" then (s, None)
  else
    let normalizedUsername := toLowerCase username in
    let (c, result) := LRUCache.get normalizedUsername now (rankCache s) in
    (with_rankCache c s, result).

(** The call of [fetchRankData] inside reads the clock again; its cache
    read follows a Miss on the same key, finds the key unbound, and does not
    depend on the time. *)
Definition getOrFetchBadge (username : string) (now : Z) (s : State) : State :=
  if negb (enabled s) || String.eqb username "" then s
  else
    let normalizedUsername := toLowerCase username in
    let (c, cachedData) := LRUCache.get normalizedUsername now (rankCache s) in
    let s := with_rankCache c s in
    match cachedData with
    | Some v => storeBadge normalizedUsername v s
    | None =>
        if OMap.has normalizedUsername (pendingRequests s) then s
        else
          let (s, p) := fetchRankData username now s in
          thenStore p normalizedUsername s
    end.

Definition clearCache (s : State) : State :=
  let s := with_rankCache (LRUCache.clear (rankCache s)) s in
  let s := with_pendingRequests [] s in
  with_userBadges [] s.

(** The part of the request closure between [await response.json()] and its
    [return]: validation of [rank_tier] and construction of the record.
    [None] is the [INVALID DATA] exit. *)
Definition readRank (data : jsval) : completion (option EloWardRankData) :=
  rank_tier <- getField data "rank_tier" ;;
  invalid <- (if negb (truthy rank_tier) then Normal true
              else l <- callToLowerCase rank_tier ;; Normal (negb (RANK_TIERS_has l))) ;;
  if (invalid : bool) then Normal None
  else
    rank_division <- getField data "rank_division" ;;
    lp <- getField data "lp" ;;
    riot_id <- getField data "riot_id" ;;
    region <- getField data "region" ;;
    animate_badge <- getField data "animate_badge" ;;
    Normal (Some {| tier := rank_tier; division := rank_division; leaguePoints := lp;
                    summonerName := riot_id; region := region;
                    animate_badge := animate_badge |}).

(** Run the callbacks queued on request [rid] with its result, in the order
    they were queued, and drop them. *)
Fixpoint fire (rid : nat) (result : option EloWardRankData)
    (cbs : list (nat * string)) (s : State) : State :=
  match cbs with
  | [] => s
  | (r, k) :: rest =>
      if Nat.eqb r rid then fire rid result rest (storeBadge k result s)
      else fire rid result rest s
  end.

(** The [finally] block, the resolution of the request promise, and the
    callbacks that were waiting for it. *)
Definition settle (rid : nat) (key : string) (result : option EloWardRankData)
    (s : State) : State :=
  let s := with_isLoading false s in
  let s := with_pendingRequests (OMap.delete key (pendingRequests s)) s in
  let s := with_requests (set_phase rid (Settled result) (requests s)) s in
  let cbs := callbacks s in
  let s := with_callbacks (filter (fun c => negb (Nat.eqb (fst c) rid)) cbs) s in
  fire rid result cbs s.

Definition cacheSet (key : string) (d : option EloWardRankData) (now : Z) (s : State) : State :=
  with_rankCache (LRUCache.set key d now (rankCache s)) s.

(** The request closure resumes after [await fetch(...)]. *)
Definition fetchSettles (rid : nat) (o : fetch_outcome) (now : Z) (s : State) : State :=
  match nth_error (requests s) rid with
  | Some (mkRequest key AwaitFetch) =>
      match o with
      | FetchRejected => settle rid key None s                       (* catch *)
      | Response status =>
          if (status =? 404)%Z then settle rid key None (cacheSet key None now s)
          else if negb (ok status) then settle rid key None s
          else with_requests (set_phase rid AwaitJson (requests s)) s
      end
  | _ => s
  end.

(** The request closure resumes after [await response.json()]. *)
Definition jsonSettles (rid : nat) (b : json_outcome) (now : Z) (s : State) : State :=
  match nth_error (requests s) rid with
  | Some (mkRequest key AwaitJson) =>
      match b with
      | JsonRejected => settle rid key None s                        (* catch *)
      | Json data =>
          match readRank data with
          | Throw _ => settle rid key None s                         (* catch *)
          | Normal None => settle rid key None (cacheSet key None now s)
          | Normal (Some rankData) =>
              settle rid key (Some rankData) (cacheSet key (Some rankData) now s)
          end
      end
  | _ => s
  end.

(** What can happen to the module, one turn of the event loop each. *)
Inductive event :=
| CallFetchRankData (username : string) (now : Z)
| CallGetOrFetchBadge (username : string) (now : Z)
| CallGetCachedRankData (username : string) (now : Z)
| CallClearCache
| FetchSettles (rid : nat) (o : fetch_outcome) (now : Z)
| JsonSettles (rid : nat) (b : json_outcome) (now : Z)
| ConfigEnabled (b : bool).

Definition step (s : State) (e : event) : State :=
  match e with
  | CallFetchRankData u now => fst (fetchRankData u now s)
  | CallGetOrFetchBadge u now => getOrFetchBadge u now s
  | CallGetCachedRankData u now => fst (getCachedRankData u now s)
  | CallClearCache => clearCache s
  | FetchSettles rid o now => fetchSettles rid o now s
  | JsonSettles rid b now => jsonSettles rid b now s
  | ConfigEnabled b => with_enabled b s
  end.

Definition run (s : State) (es : list event) : State := fold_left step es s.

(* ================================================================== *)
(** ** Sample data *)
(* ================================================================== *)

(** The record of the formatting example, [{tier: "gold", division: "II",
    leaguePoints: 45}]. *)
Definition gold_II_45 : EloWardRankData :=
  {| tier := JStr "gold"; division := JStr "II"; leaguePoints := JNum 45;
     summonerName := JUndefined; region := JUndefined; animate_badge := JUndefined |}.

(* ================================================================== *)
(** ** Reference definitions: the text helpers *)
(* ================================================================== *)

(** The characters of [s] before its first [#]; all of [s] if it has none. *)
Fixpoint beforeHash (s : string) : string :=
  match s with
  | EmptyString => EmptyString
  | String c r => if Ascii.eqb c "#" then EmptyString else String c (beforeHash r)
  end.

(** The characters of [s] after its first [#], if it has one. *)
Fixpoint afterHash (s : string) : option string :=
  match s with
  | EmptyString => None
  | String c r => if Ascii.eqb c "#" then Some r else afterHash r
  end.

(** The profile URL in the words of the specification: the summoner name
    is split on the first [#] into base name and tag, the base name is
    percent-encoded, and the upper-cased region stands in for a missing
    tag. *)
Definition spec_opGGUrl (name region slug : string) : string :=
  let base := beforeHash name in
  let tag := match afterHash name with
             | Some t => if String.eqb t "" then toUpperCase region else t
             | None => toUpperCase region
             end in
  "https://op.gg/lol/summoners/" ++ slug ++ "/" ++ encodeURIComponent base ++ "-" ++ tag.

(* ================================================================== *)
(** ** Reference definitions: response bodies and the badge store *)
(* ================================================================== *)

(** The member [p] of a response body, [JUndefined] when the body has no
    such member. *)
Definition member_of (body : jsval) (p : string) : jsval :=
  match body with
  | JObj o => match assoc p o with Some x => x | None => JUndefined end
  | _ => JUndefined
  end.

(** The record that the request closure builds from a body. *)
Definition record_of (body : jsval) : EloWardRankData :=
  {| tier := member_of body "rank_tier";
     division := member_of body "rank_division";
     leaguePoints := member_of body "lp";
     summonerName := member_of body "riot_id";
     region := member_of body "region";
     animate_badge := member_of body "animate_badge" |}.

(** What the store callbacks write for a result: [null] for "no rank", the
    badge of the record otherwise; [None] when [getRankBadge] throws and
    nothing is written. *)
Definition projection (rankData : option EloWardRankData) : option (option EloWardBadge) :=
  match rankData with
  | None => Some None
  | Some d =>
      match getRankBadge d with
      | Normal badge => Some badge
      | Throw _ => None
      end
  end.

(** Two states that differ at most in [userBadges]. *)
Definition same_but_badges (s s' : State) : Prop :=
  enabled s' = enabled s /\ isLoading s' = isLoading s /\ rankCache s' = rankCache s /\
  pendingRequests s' = pendingRequests s /\ requests s' = requests s /\
  callbacks s' = callbacks s.

(** The secondary operation in the words of the specification: run the
    primary resolve and project its result into the badge store under the
    normalized key. *)
Definition resolveAndProject (username : string) (now : Z) (s : State) : State :=
  let (s', p) := fetchRankData username now s in
  thenStore p (toLowerCase username) s'.

(* ================================================================== *)
(** ** Reference definitions: requests and the registry *)
(* ================================================================== *)

(** What a soft failure of request [rid] for [key] leaves behind, in the
    words of the specification: nothing is written to the cache, the caller
    gets "no rank", and the next resolve of the key, if it is still
    uncached, goes to the network again. *)
Definition soft_failure (s s' : State) (rid : nat) (key : string) : Prop :=
  rankCache s' = rankCache s /\
  resolution (Follows rid) s' = Some None /\
  forall u now',
    enabled s = true -> u <> "" -> toLowerCase u = key ->
    snd (LRUCache.get u now' (rankCache s)) = None ->
    snd (fetchRankData u now' s') = Follows (List.length (requests s')) /\
    outbound (fst (fetchRankData u now' s')) = (outbound s' ++ [url_of key])%list.

(** A request that has not settled yet. *)
Definition unsettled (r : request) : bool :=
  match req_phase r with
  | Settled _ => false
  | _ => true
  end.

(** A lookup for [key] is in flight: request number [rid] was sent for it
    and has not settled. *)
Definition in_flight_as (s : State) (key : string) (rid : nat) : Prop :=
  exists r, nth_error (requests s) rid = Some r /\ req_key r = key /\ unsettled r = true.

Definition in_flight (s : State) (key : string) : Prop :=
  exists rid, in_flight_as s key rid.

(** The registry lists exactly the requests in flight, each under its key. *)
Definition registry_tracks_requests (s : State) : Prop :=
  forall key rid,
    OMap.get key (pendingRequests s) = Some rid <-> in_flight_as s key rid.

(** The registry holds at most one entry per key. *)
Definition registry_keys_distinct (s : State) : Prop :=
  NoDup (OMap.keys (pendingRequests s)).

(** No request is in flight. *)
Definition idle (s : State) : bool :=
  forallb (fun r => negb (unsettled r)) (requests s).

(** A run in which [clearCache] is only called when no request is in
    flight. *)
Fixpoint clears_when_idle (s : State) (es : list event) : bool :=
  match es with
  | [] => true
  | e :: rest =>
      match e with
      | CallClearCache => idle s
      | _ => true
      end && clears_when_idle (step s e) rest
  end.

(** Every entry of the registry names a request that is in flight for its
    key. *)
Definition registry_sound (s : State) : Prop :=
  forall key rid,
    OMap.get key (pendingRequests s) = Some rid -> in_flight_as s key rid.

(** A run in which [clearCache] has not been called since the module was
    last idle; [calm] says so of the events before [es]. *)
Fixpoint calm_since_idle (calm : bool) (s : State) (es : list event) : bool :=
  match es with
  | [] => calm
  | e :: rest =>
      let calm' := match e with
                   | CallClearCache => false
                   | _ => calm
                   end in
      calm_since_idle (calm' || idle (step s e)) (step s e) rest
  end.

(** What the settling of request [rid] for [key] leaves behind on every
    exit path: no registry entry for the key, the loading flag down, and a
    resolved promise. *)
Definition settled_by (s' : State) (rid : nat) (key : string) : Prop :=
  OMap.get key (pendingRequests s') = None /\
  isLoading s' = false /\
  exists v, resolution (Follows rid) s' = Some v.

(** The de-duplication guarantee as C1 states it: a resolve issued
    while the key is uncached and a lookup for it is in flight sends
    nothing. *)
Definition dedup_as_stated : Prop :=
  forall (es : list event) (u : string) (now : Z),
    let s := run (init true) es in
    enabled s = true -> u <> "" ->
    snd (LRUCache.get u now (rankCache s)) = None ->
    in_flight s (toLowerCase u) ->
    outbound (fst (fetchRankData u now s)) = outbound s.

(* ================================================================== *)
(** ** Reference definitions: sequences of cache operations *)
(* ================================================================== *)

(** One operation on the cache, with the time it is run at. *)
Inductive cache_op :=
| OpGet (username : string) (now : Z)
| OpSet (username : string) (d : option EloWardRankData) (now : Z)
| OpClear.

Definition apply_op (c : LRUCache.t) (op : cache_op) : LRUCache.t :=
  match op with
  | OpGet u now => fst (LRUCache.get u now c)
  | OpSet u d now => LRUCache.set u d now c
  | OpClear => LRUCache.clear c
  end.

Definition apply_ops (c : LRUCache.t) (ops : list cache_op) : LRUCache.t :=
  fold_left apply_op ops c.

(** The normalized keys that the [set] operations of a sequence write. *)
Fixpoint set_keys (ops : list cache_op) : list string :=
  match ops with
  | [] => []
  | OpSet u _ _ :: rest => toLowerCase u :: set_keys rest
  | _ :: rest => set_keys rest
  end.

(** Every operation of the sequence is a [set]. *)
Definition only_sets (ops : list cache_op) : bool :=
  forallb (fun op => match op with OpSet _ _ _ => true | _ => false end) ops.

(** No [set] of the sequence is given the empty username. *)
Definition nonempty_sets (ops : list cache_op) : Prop :=
  forall u d now, In (OpSet u d now) ops -> u <> "".

(** The key an operation touches, in the words of the specification: [set]
    touches its key, and so does a [get] that hits. *)
Definition touched (c : LRUCache.t) (op : cache_op) : option string :=
  match op with
  | OpGet u now =>
      match snd (LRUCache.get u now c) with
      | Some _ => Some (toLowerCase u)
      | None => None
      end
  | OpSet u _ _ => Some (toLowerCase u)
  | OpClear => None
  end.

(** A cache together with a count of the operations run so far and, for
    each key, the number of the last operation that touched it. *)
Record traced := mkTraced {
  tc : LRUCache.t;
  clock : nat;
  stamp : string -> nat
}.

Definition traced_step (t : traced) (op : cache_op) : traced :=
  {| tc := apply_op (tc t) op;
     clock := S (clock t);
     stamp := match touched (tc t) op with
              | Some k => fun k' => if String.eqb k' k then S (clock t) else stamp t k'
              | None => stamp t
              end |}.

Definition traced_run (cap : Z) (ops : list cache_op) : traced :=
  fold_left traced_step ops {| tc := LRUCache.new cap; clock := 0; stamp := fun _ => 0%nat |}.

(** The key an operation moves to the back of the cache: [set] moves a key
    that is not cached yet, [get] a key that it hits.  A [set] on a cached
    key leaves the key where it is. *)
Definition moved (c : LRUCache.t) (op : cache_op) : option string :=
  match op with
  | OpGet u now =>
      match snd (LRUCache.get u now c) with
      | Some _ => Some (toLowerCase u)
      | None => None
      end
  | OpSet u _ _ =>
      if OMap.has (toLowerCase u) (LRUCache.cache c) then None else Some (toLowerCase u)
  | OpClear => None
  end.

(** The cache with, for each key, the number of the last operation that
    inserted it or hit it. *)
Definition placed_step (t : traced) (op : cache_op) : traced :=
  {| tc := apply_op (tc t) op;
     clock := S (clock t);
     stamp := match moved (tc t) op with
              | Some k => fun k' => if String.eqb k' k then S (clock t) else stamp t k'
              | None => stamp t
              end |}.

Definition placed_run (cap : Z) (ops : list cache_op) : traced :=
  fold_left placed_step ops {| tc := LRUCache.new cap; clock := 0; stamp := fun _ => 0%nat |}.

(** The cache is within its capacity and holds no empty key. *)
Definition bounded (c : LRUCache.t) : Prop :=
  (Z.of_nat (LRUCache.size c) <= LRUCache.maxSize c)%Z /\
  (1 <= LRUCache.maxSize c)%Z /\
  ~ In "" (OMap.keys (LRUCache.cache c)).

(** The keys of the cache are in the order of their last touch, the least
    recently touched first. *)
Definition in_touch_order (t : traced) : Prop :=
  StronglySorted lt (map (stamp t) (OMap.keys (LRUCache.cache (tc t)))) /\
  Forall (fun k => stamp t k <= clock t)%nat (OMap.keys (LRUCache.cache (tc t))).

(** The cache of the module is within bounds and no request was sent for
    the empty key. *)
Definition cache_in_bounds (s : State) : Prop :=
  bounded (rankCache s) /\ ~ In "" (map req_key (requests s)).

(* ================================================================== *)
(** ** Reference definitions: ASCII usernames *)
(* ================================================================== *)

(** The username of a call is ASCII text. *)
Definition ascii_event (e : event) : bool :=
  match e with
  | CallFetchRankData u _ | CallGetOrFetchBadge u _ | CallGetCachedRankData u _ => all_ascii u
  | _ => true
  end.

(** Every call of the sequence is made with an ASCII username. *)
Definition ascii_calls (es : list event) : bool := forallb ascii_event es.

(** The username of a cache operation is ASCII text. *)
Definition ascii_op (op : cache_op) : bool :=
  match op with
  | OpGet u _ | OpSet u _ _ => all_ascii u
  | OpClear => true
  end.

Definition ascii_ops (ops : list cache_op) : bool := forallb ascii_op ops.

(* ================================================================== *)
(** ** The rest of the module: region labels and badge handles *)
(* ================================================================== *)

(** What [getRegionDisplay] returns: a text, or, for a region that names a
    member the table object inherits, that member (not a string). *)
Inductive displayed :=
| Text (s : string)
| Member (name : string).

Definition getRegionDisplay (region : jsval) : completion displayed :=
  if negb (truthy region) then Normal (Text "")
  else
    key <- callToLowerCase region ;;
    match tableLookup regionMap key with
    | Own v =>
        if String.eqb v "" then upper <- callToUpperCase region ;; Normal (Text upper)
        else Normal (Text v)
    | Inherited name => Normal (Member name)
    | Missing => upper <- callToUpperCase region ;; Normal (Text upper)
    end.

(** [globalData.userBadges[k]] read for its truth value: a badge of the
    store is truthy, [null] and a missing key are falsy, and a key that names
    an inherited member of the store object finds that member. *)
Definition badgeIsTruthy (k : string) (store : list (string * option EloWardBadge)) : bool :=
  match OMap.get k store with
  | Some (Some _) => true
  | Some None => false
  | None => existsb (String.eqb k) Object_prototype_names
  end.

(** [useEloWardBadge(username)].  The result names the key that the returned
    ref is bound to; [None] is the detached [ref(null)]. *)
Definition useEloWardBadge (username : string) (s : State) : State * option string :=
  if String.eqb username "" then (s, None)
  else
    let normalizedUsername := toLowerCase username in
    let s := if negb (badgeIsTruthy normalizedUsername (userBadges s))
             then with_userBadges (OMap.set normalizedUsername None (userBadges s)) s
             else s in
    (s, Some normalizedUsername).

(* ================================================================== *)
(** ** Reference definitions: kinds of events and the shape of the cache *)
(* ================================================================== *)

(** A call of one of the three lookup functions. *)
Definition is_call (e : event) : bool :=
  match e with
  | CallFetchRankData _ _ | CallGetOrFetchBadge _ _ | CallGetCachedRankData _ _ => true
  | _ => false
  end.

(** The settling of a fetch or of a body. *)
Definition is_settle (e : event) : bool :=
  match e with
  | FetchSettles _ _ _ | JsonSettles _ _ _ => true
  | _ => false
  end.

(** A field is typed as the interface types an optional string. *)
Definition string_or_falsy (v : jsval) : Prop :=
  (exists d, v = JStr d) \/ truthy v = false.

(** A call that can send a request. *)
Definition may_send (e : event) : bool :=
  match e with
  | CallFetchRankData _ _ | CallGetOrFetchBadge _ _ => true
  | _ => false
  end.

(** The username a call is made with. *)
Definition username_of (e : event) : option string :=
  match e with
  | CallFetchRankData u _ | CallGetOrFetchBadge u _ | CallGetCachedRankData u _ => Some u
  | _ => None
  end.

(** What a caller that does not wait sees of a promise. *)
Definition immediate (p : promise) : option (option EloWardRankData) :=
  match p with
  | Resolved v => Some v
  | Follows _ => None
  end.

(** A cache read. *)
Definition is_get (op : cache_op) : bool :=
  match op with
  | OpGet _ _ => true
  | _ => false
  end.

(** The keys of the cache are in lower case, and no key occurs twice. *)
Definition tidy (c : LRUCache.t) : Prop :=
  NoDup (OMap.keys (LRUCache.cache c)) /\
  Forall (fun k => toLowerCase k = k) (OMap.keys (LRUCache.cache c)).

(** The entries of the cache that belong to a user, in any letter case. *)
Definition entries_of (u : string) (c : LRUCache.t) : list (string * CacheEntry) :=
  filter (fun kv => String.eqb (toLowerCase (fst kv)) (toLowerCase u)) (LRUCache.cache c).

(* ================================================================== *)
(** ** More of the JavaScript runtime: text and numbers of the converters *)
(* ================================================================== *)

(** [s.slice(n)] for [0 <= n]: the text after the first [n] characters.
    The model counts bytes where JavaScript counts UTF-16 units; the two
    agree when the characters skipped are ASCII. *)
Fixpoint String_slice (n : nat) (s : string) : string :=
  match n, s with
  | O, _ => s
  | S m, String _ r => String_slice m r
  | S _, EmptyString => EmptyString
  end.

(** [l.slice(0, l.length - 1)], which is also [l.slice(0, -1)]. *)
Definition Array_init {A} (l : list A) : list A := firstn (List.length l - 1) l.

(** [l.join(sep)] *)
Fixpoint Array_join (sep : string) (l : list string) : string :=
  match l with
  | [] => ""
  | x :: r =>
      match r with
      | [] => x
      | _ => x ++ sep ++ Array_join sep r
      end
  end.

(** [s] without the prefix [pat], if it has that prefix. *)
Fixpoint stripPrefix (pat s : string) : option string :=
  match pat, s with
  | EmptyString, _ => Some s
  | String a p, String b r => if Ascii.eqb a b then stripPrefix p r else None
  | String _ _, EmptyString => None
  end.

(** [s.replace(pat, "")] for a string [pat]: the first occurrence of [pat]
    is taken out. *)
Fixpoint String_remove_first (pat s : string) : string :=
  match stripPrefix pat s with
  | Some rest => rest
  | None =>
      match s with
      | EmptyString => EmptyString
      | String c r => String c (String_remove_first pat r)
      end
  end.

(** The one-byte white space that [parseInt] and [parseFloat] skip: TAB,
    LF, VT, FF, CR and SP. *)
Definition isWhiteSpace1 (c : ascii) : bool :=
  let n := nat_of_ascii c in ((9 <=? n) && (n <=? 13) || (n =? 32))%nat.

(** U+00A0 in UTF-8. *)
Definition isWhiteSpace2 (c1 c2 : ascii) : bool :=
  ((nat_of_ascii c1 =? 194) && (nat_of_ascii c2 =? 160))%nat.

(** U+1680, U+2000 to U+200A, U+2028, U+2029, U+202F, U+205F, U+3000 and
    U+FEFF in UTF-8. *)
Definition isWhiteSpace3 (c1 c2 c3 : ascii) : bool :=
  let a := nat_of_ascii c1 in
  let b := nat_of_ascii c2 in
  let c := nat_of_ascii c3 in
  ((a =? 225) && (b =? 154) && (c =? 128)
   || (a =? 226) && (b =? 128)
      && ((128 <=? c) && (c <=? 138) || (c =? 168) || (c =? 169) || (c =? 175))
   || (a =? 226) && (b =? 129) && (c =? 159)
   || (a =? 227) && (b =? 128) && (c =? 128)
   || (a =? 239) && (b =? 187) && (c =? 191))%nat.

(** The text without its leading white space. *)
Fixpoint trimStart (s : string) : string :=
  match s with
  | EmptyString => s
  | String c1 r1 =>
      if isWhiteSpace1 c1 then trimStart r1
      else
        match r1 with
        | EmptyString => s
        | String c2 r2 =>
            if isWhiteSpace2 c1 c2 then trimStart r2
            else
              match r2 with
              | EmptyString => s
              | String c3 r3 => if isWhiteSpace3 c1 c2 c3 then trimStart r3 else s
              end
        end
  end.

(** A leading sign: whether it is [-], and the text after it. *)
Definition readSign (s : string) : bool * string :=
  match s with
  | String c r =>
      if Ascii.eqb c "-" then (true, r)
      else if Ascii.eqb c "+" then (false, r)
      else (false, s)
  | EmptyString => (false, s)
  end.

(** The value of a character as a digit: [0-9], then [a-z] or [A-Z] for ten
    to thirty-five. *)
Definition digitValue (c : ascii) : option Z :=
  let n := Z.of_nat (nat_of_ascii c) in
  if is_digit c then Some (n - 48)%Z
  else if is_lower c then Some (n - 87)%Z
  else if is_upper c then Some (n - 55)%Z
  else None.

(** The longest prefix of [s] made of digits of the radix, read after the
    digits already in [acc]: the value, the number of digits read, and the
    rest of the text. *)
Fixpoint readDigits (radix : Z) (s : string) (acc : Z) (n : nat) : Z * nat * string :=
  match s with
  | EmptyString => (acc, n, s)
  | String c r =>
      match digitValue c with
      | Some d =>
          if (d <? radix)%Z then readDigits radix r (acc * radix + d)%Z (S n)
          else (acc, n, s)
      | None => (acc, n, s)
      end
  end.

(** [parseInt(s, radix)]; [radix] is [0] where the call gives none.  The
    result is an integer, or [None] for [NaN].  JavaScript rounds the
    integer to a double: the model is exact below 2^53. *)
Definition parseInt (s : string) (radix : Z) : option Z :=
  let s := trimStart s in
  let '(negative, s) := readSign s in
  if (negb (radix =? 0) && ((radix <? 2) || (36 <? radix)))%Z then None
  else
    let strip := ((radix =? 0) || (radix =? 16))%Z in
    let R := if (radix =? 0)%Z then 10%Z else radix in
    let '(R, s) := if strip && (String.prefix "0x" s || String.prefix "0X" s)
                   then (16%Z, String_slice 2 s) else (R, s) in
    let '(v, n, _) := readDigits R s 0 0 in
    if (n =? 0)%nat then None else Some (if negative then - v else v)%Z.

(** [x * y] and [x + y] on integers or [NaN]. *)
Definition num_mul (x y : option Z) : option Z :=
  match x, y with
  | Some a, Some b => Some (a * b)%Z
  | _, _ => None
  end.

Definition num_add (x y : option Z) : option Z :=
  match x, y with
  | Some a, Some b => Some (a + b)%Z
  | _, _ => None
  end.

(** [x.toString(10)] and [String(x)] on an integer or [NaN]. *)
Definition Number_toString (x : option Z) : string :=
  match x with
  | Some z => NumberToString z
  | None => "NaN"
  end.

(** What [parseFloat] returns: [NaN], an infinity, or the double nearest to
    [m * 10^e], which is that value itself when it is an integer of
    magnitude below 2^53.  [0] and [-0] are one number here. *)
Inductive number :=
| NaN
| Infinity (negative : bool)
| Finite (m e : Z).

(** An exponent part [e], [e+] or [e-] followed by digits, if the text
    starts with one; [0] otherwise. *)
Definition readExponent (s : string) : Z :=
  match s with
  | EmptyString => 0%Z
  | String c r =>
      if Ascii.eqb c "e" || Ascii.eqb c "E" then
        let '(negative, r) := readSign r in
        let '(v, n, _) := readDigits 10 r 0 0 in
        if (n =? 0)%nat then 0%Z else if negative then (- v)%Z else v
      else 0%Z
  end.

(** [parseFloat(s)]: the longest prefix of the trimmed text that is a
    decimal literal. *)
Definition parseFloat (s : string) : number :=
  let s := trimStart s in
  let '(negative, s) := readSign s in
  if String.prefix "Infinity" s then Infinity negative
  else
    let '(ip, ni, r1) := readDigits 10 s 0 0 in
    let '(m, nf, r2) := match r1 with
                        | String c r => if Ascii.eqb c "." then readDigits 10 r ip 0
                                        else (ip, 0%nat, r1)
                        | EmptyString => (ip, 0%nat, r1)
                        end in
    if (ni + nf =? 0)%nat then NaN
    else Finite (if negative then - m else m)%Z (readExponent r2 - Z.of_nat nf)%Z.

(** Two numbers with the same value; [NaN] has none.  Decimals of the same
    value are read as the same double.  Decimals of different values are
    read as different doubles, in the order of the decimals, when each has
    at most 15 significant digits; a theorem that tells two numbers apart
    or orders them bounds them so. *)
Definition same_value (x y : number) : Prop :=
  match x, y with
  | Finite m e, Finite m' e' =>
      (m * 10 ^ (e - Z.min e e') = m' * 10 ^ (e' - Z.min e e'))%Z
  | Infinity a, Infinity b => a = b
  | _, _ => False
  end.

(** [x < y] on finite numbers, under the same bound. *)
Definition less_than (x y : number) : Prop :=
  match x, y with
  | Finite m e, Finite m' e' =>
      (m * 10 ^ (e - Z.min e e') < m' * 10 ^ (e' - Z.min e e'))%Z
  | _, _ => False
  end.

(* ================================================================== *)
(** ** The format converters *)
(* ================================================================== *)

(** [SevenTV.ImageFile], [SevenTV.ImageHost]: a field that the literal
    leaves out is [None]. *)
Record ImageFile := mkFile {
  file_name : string;
  file_format : option string
}.

Record ImageHost := mkHost {
  host_url : string;
  host_files : list ImageFile;
  host_srcset : option string
}.

(** The data of a badge cosmetic, and [SevenTV.Cosmetic<"BADGE">]. *)
Record BadgeData := mkBadgeData {
  bd_name : string;
  bd_tooltip : string;
  bd_host : ImageHost;
  bd_backgroundColor : option string;
  bd_replace : option string
}.

Record Cosmetic := mkCosmetic {
  cosmetic_id : string;
  cosmetic_kind : string;
  cosmetic_provider : string;
  cosmetic_data : BadgeData;
  cosmetic_user_ids : option (list string)
}.

(** [SevenTV.Emote], as the converters of platform emotes fill it. *)
Record Emote := mkEmote {
  emote_id : string;
  emote_name : string;
  emote_flags : Z;
  emote_tags : list string;
  emote_state : list string;
  emote_lifecycle : Z;
  emote_listed : bool;
  emote_owner : option string;
  emote_host : ImageHost
}.

(** The fields of [TwTypeBadge] that [convertTwitchBadge] reads. *)
Record TwTypeBadge := mkTwBadge {
  tw_image1x : string;
  tw_setID : string;
  tw_version : string;
  tw_title : string
}.

Definition convertTwitchBadge (d : TwTypeBadge) : Cosmetic :=
  let sp := split "/" (String_slice 6 (tw_image1x d)) in
  let baseURL := Array_join "/" (firstn (List.length sp - 1) sp) in
  {| cosmetic_id := tw_setID d ++ ":" ++ tw_version d;
     cosmetic_kind := "BADGE";
     cosmetic_provider := "PLATFORM";
     cosmetic_data :=
       {| bd_name := tw_title d;
          bd_tooltip := tw_title d;
          bd_host := {| host_url := baseURL;
                        host_files := [ mkFile "1" (Some "PNG"); mkFile "2" (Some "PNG");
                                        mkFile "3" (Some "PNG") ];
                        host_srcset := None |};
          bd_backgroundColor := None;
          bd_replace := None |};
     cosmetic_user_ids := None |}.

(** The content of a cheer emote part, [Twitch.ChatMessage.EmotePart["content"]]:
    [cheer_images] is [data.images.dark["1x"]], [None] when the part has no
    images. *)
Record CheerContent := mkCheer {
  cheer_emoteID : option string;
  cheer_alt : string;
  cheer_cheerAmount : option Z;
  cheer_images : option string
}.

Definition convertCheerEmote (d : CheerContent) : Emote :=
  {| emote_id := match cheer_emoteID d with Some i => i | None => "" end;
     emote_name := cheer_alt d ++ " "
                   ++ match cheer_cheerAmount d with
                      | Some n => NumberToString n
                      | None => "undefined"
                      end;
     emote_flags := 0;
     emote_tags := [];
     emote_state := [];
     emote_lifecycle := 3;
     emote_listed := true;
     emote_owner := None;
     emote_host :=
       {| host_url := match cheer_images d with
                      | Some dark1x =>
                          String_remove_first "https:"
                            (Array_join "/" (Array_init (split "/" dark1x)))
                      | None => ""
                      end;
          host_files := [ mkFile "1.gif" (Some "GIF"); mkFile "2.gif" (Some "GIF");
                          mkFile "3.gif" (Some "GIF"); mkFile "4.gif" (Some "GIF") ];
          host_srcset := None |} |}.






(** The [reduce] of [semanticVersionToNumber], from index [i] on:
    [con + p * Math.pow(100, 2 - i)]. *)
Fixpoint reduce_from (i : nat) (con : option Z) (ps : list (option Z)) : option Z :=
  match ps with
  | [] => con
  | p :: rest =>
      reduce_from (S i) (num_add con (num_mul p (Some (100 ^ (2 - Z.of_nat i))%Z))) rest
  end.

Definition semanticVersionToNumber (ver : string) : number :=
  let parts := split "." ver in
  let s := Number_toString
             (reduce_from 0 (Some 0%Z) (map (fun p => parseInt p 10) (firstn 3 parts))) in
  let s := if (3 <? List.length parts)%nat
           then s ++ "." ++ Number_toString (parseInt (nth 3 parts "") 0)
           else s in
  parseFloat s.

(* ================================================================== *)
(** ** Reference definitions: the text the converters read *)
(* ================================================================== *)

(** The version text of the components given. *)
Definition dotted (components : list Z) : string :=
  Array_join "." (map NumberToString components).

(** Whether the character [c] occurs in [s]. *)
Fixpoint has_char (c : ascii) (s : string) : bool :=
  match s with
  | EmptyString => false
  | String c' r => Ascii.eqb c' c || has_char c r
  end.

(** Whether [s] is made of decimal digits only. *)
Fixpoint all_digits (s : string) : bool :=
  match s with
  | EmptyString => true
  | String c r => is_digit c && all_digits r
  end.

(** Whether [s] starts with a decimal digit. *)
Definition starts_with_digit (s : string) : bool :=
  match s with
  | EmptyString => false
  | String c _ => is_digit c
  end.


(** [s] is a decimal numeral of the value [v]: digits only, at least one,
    and read as [v] in front of any text that does not go on with a digit. *)
Definition reads_as (s : string) (v : Z) : Prop :=
  all_digits s = true /\
  starts_with_digit s = true /\
  (0 <= v < 10 ^ Z.of_nat (String.length s))%Z /\
  forall rest acc n,
    starts_with_digit rest = false ->
    readDigits 10 (s ++ rest) acc n
    = ((acc * 10 ^ Z.of_nat (String.length s) + v)%Z, (n + String.length s)%nat, rest).

(* ================================================================== *)
(** ** Facts about strings and case mapping *)
(* ================================================================== *)

Section CaseMapping.

Lemma lowerChar_idem c : lowerChar (lowerChar c) = lowerChar c.
Proof. destruct c as [[] [] [] [] [] [] [] []]; reflexivity. Qed.

Lemma lowerChar_upperChar c : lowerChar (upperChar c) = lowerChar c.
Proof. destruct c as [[] [] [] [] [] [] [] []]; reflexivity. Qed.

Lemma upperChar_lowerChar c : upperChar (lowerChar c) = upperChar c.
Proof. destruct c as [[] [] [] [] [] [] [] []]; reflexivity. Qed.

Lemma mapString_compose f g h s :
  (forall c, f (g c) = h c) -> mapString f (mapString g s) = mapString h s.
Proof.
  intros E. induction s as [|c s IH]; simpl; [reflexivity|].
  now rewrite E, IH.
Qed.

Lemma toLowerCase_idem s : toLowerCase (toLowerCase s) = toLowerCase s.
Proof. apply mapString_compose, lowerChar_idem. Qed.

Lemma toLowerCase_toUpperCase s : toLowerCase (toUpperCase s) = toLowerCase s.
Proof. apply mapString_compose, lowerChar_upperChar. Qed.

Lemma toUpperCase_toLowerCase s : toUpperCase (toLowerCase s) = toUpperCase s.
Proof. apply mapString_compose, upperChar_lowerChar. Qed.

(** Two strings have the same upper-case form exactly when they have the
    same lower-case form. *)
Lemma same_upper_iff_same_lower s w :
  toUpperCase s = toUpperCase w <-> toLowerCase s = toLowerCase w.
Proof.
  split; intros E.
  - rewrite <- (toLowerCase_toUpperCase s), E. apply toLowerCase_toUpperCase.
  - rewrite <- (toUpperCase_toLowerCase s), E. apply toUpperCase_toLowerCase.
Qed.


Lemma toLowerCase_empty s : toLowerCase s = "" <-> s = "".
Proof. destruct s; simpl; split; intros H; try reflexivity; discriminate. Qed.

End CaseMapping.

(* ================================================================== *)
(** ** Facts about ordered maps *)
(* ================================================================== *)

Section OMapFacts.
Context {V : Type}.
Implicit Types (m : list (string * V)) (k : string) (v : V).

Lemma get_set_same k v m : OMap.get k (OMap.set k v m) = Some v.
Proof.
  induction m as [|[k' v'] m IH]; simpl.
  - unfold OMap.get; simpl. now rewrite String.eqb_refl.
  - destruct (String.eqb k k') eqn:E; unfold OMap.get in *; simpl.
    + now rewrite String.eqb_refl.
    + now rewrite E.
Qed.

Lemma get_set_other k k' v m : k' <> k -> OMap.get k' (OMap.set k v m) = OMap.get k' m.
Proof.
  intros N. unfold OMap.get.
  induction m as [|[k0 v0] m IH]; simpl.
  - destruct (String.eqb_spec k' k); [contradiction|reflexivity].
  - destruct (String.eqb_spec k k0) as [->|]; simpl.
    + destruct (String.eqb_spec k' k0); [contradiction|reflexivity].
    + now rewrite IH.
Qed.

Lemma get_delete_same k m : OMap.get k (OMap.delete k m) = None.
Proof.
  unfold OMap.get. induction m as [|[k0 v0] m IH]; simpl; [reflexivity|].
  destruct (String.eqb k k0) eqn:E; simpl; [assumption|now rewrite E].
Qed.

Lemma get_delete_other k k' m : k' <> k -> OMap.get k' (OMap.delete k m) = OMap.get k' m.
Proof.
  intros N. unfold OMap.get. induction m as [|[k0 v0] m IH]; simpl; [reflexivity|].
  destruct (String.eqb_spec k k0) as [->|]; simpl.
  - destruct (String.eqb_spec k' k0); [contradiction|assumption].
  - now rewrite IH.
Qed.

Lemma get_None_notin k m : OMap.get k m = None <-> ~ In k (OMap.keys m).
Proof.
  unfold OMap.get, OMap.keys. induction m as [|[k0 v0] m IH]; simpl.
  - tauto.
  - destruct (String.eqb_spec k k0) as [->|N].
    + split; [discriminate|]. intros H; exfalso; apply H; now left.
    + rewrite IH. split; intros H; [intros [E|I]; [congruence|tauto]|tauto].
Qed.

Lemma has_true_iff k m : OMap.has k m = true <-> In k (OMap.keys m).
Proof.
  unfold OMap.has. pose proof (get_None_notin k m) as H.
  destruct (OMap.get k m).
  - split; [intros _|reflexivity].
    destruct (in_dec string_dec k (OMap.keys m)); [assumption|].
    apply H in n. discriminate.
  - split; [discriminate|]. intros I. exfalso. now apply (proj1 H).
Qed.

Lemma keys_delete k m : OMap.keys (OMap.delete k m) = remove string_dec k (OMap.keys m).
Proof.
  unfold OMap.keys. induction m as [|[k0 v0] m IH]; simpl; [reflexivity|].
  destruct (string_dec k k0) as [E|N].
  - subst. now rewrite String.eqb_refl.
  - destruct (String.eqb_spec k k0); [contradiction|]. simpl. now rewrite IH.
Qed.

Lemma keys_set_new k v m : OMap.get k m = None -> OMap.keys (OMap.set k v m) = (OMap.keys m ++ [k])%list.
Proof.
  unfold OMap.get, OMap.keys. induction m as [|[k0 v0] m IH]; simpl; [reflexivity|].
  destruct (String.eqb k k0); [discriminate|]. intros H. simpl. now rewrite IH.
Qed.

Lemma keys_set_old k v m : OMap.get k m <> None -> OMap.keys (OMap.set k v m) = OMap.keys m.
Proof.
  unfold OMap.get, OMap.keys. induction m as [|[k0 v0] m IH]; simpl; [congruence|].
  destruct (String.eqb_spec k k0) as [->|]; [reflexivity|]. intros H. simpl. now rewrite IH.
Qed.

Lemma length_set_new k v m : OMap.get k m = None -> List.length (OMap.set k v m) = S (List.length m).
Proof.
  intros H. rewrite <- (length_map fst (OMap.set k v m)), <- (length_map fst m).
  change (List.length (OMap.keys (OMap.set k v m)) = S (List.length (OMap.keys m))).
  rewrite keys_set_new by assumption. rewrite length_app. simpl. lia.
Qed.

Lemma length_set_old k v m : OMap.get k m <> None -> List.length (OMap.set k v m) = List.length m.
Proof.
  intros H. rewrite <- (length_map fst (OMap.set k v m)), <- (length_map fst m).
  change (List.length (OMap.keys (OMap.set k v m)) = List.length (OMap.keys m)).
  now rewrite keys_set_old.
Qed.

Lemma length_delete_le k m : (List.length (OMap.delete k m) <= List.length m)%nat.
Proof.
  induction m as [|[k0 v0] m IH]; simpl; [lia|].
  destruct (String.eqb k k0); simpl; lia.
Qed.

Lemma length_delete_present k m :
  OMap.get k m <> None -> (S (List.length (OMap.delete k m)) <= List.length m)%nat.
Proof.
  unfold OMap.get. induction m as [|[k0 v0] m IH]; simpl; [congruence|].
  destruct (String.eqb k k0); simpl.
  - intros _. pose proof (length_delete_le k m). lia.
  - intros H. specialize (IH H). lia.
Qed.

Lemma delete_absent k m : OMap.get k m = None -> OMap.delete k m = m.
Proof.
  unfold OMap.get. induction m as [|[k0 v0] m IH]; simpl; [reflexivity|].
  destruct (String.eqb k k0); [discriminate|]. intros H. now rewrite IH.
Qed.

Lemma NoDup_keys_delete k m : NoDup (OMap.keys m) -> NoDup (OMap.keys (OMap.delete k m)).
Proof.
  intros H. rewrite keys_delete. induction H as [|x l N H IH]; simpl; [constructor|].
  destruct (string_dec k x); [assumption|].
  constructor; [|assumption]. intros I. apply in_remove in I. tauto.
Qed.

Lemma NoDup_keys_set k v m : NoDup (OMap.keys m) -> NoDup (OMap.keys (OMap.set k v m)).
Proof.
  intros H. destruct (OMap.get k m) eqn:E.
  - rewrite keys_set_old; [assumption|congruence].
  - rewrite keys_set_new by assumption.
    apply NoDup_app; [assumption|repeat constructor; simpl; tauto|].
    intros x I [<-|[]]. now apply get_None_notin in E.
Qed.

End OMapFacts.

(* ================================================================== *)
(** ** The bounded cache: expiry *)
(* ================================================================== *)

Section Expiry.
Open Scope Z_scope.

Lemma set_stores u d T c :
  OMap.get (toLowerCase u) (LRUCache.cache (LRUCache.set u d T c))
  = Some {| data := d; timestamp := T |}.
Proof. unfold LRUCache.set; simpl. apply get_set_same. Qed.

(** [get] on a key that is bound, by the age of its entry. *)
Lemma get_fresh u now c entry :
  OMap.get (toLowerCase u) (LRUCache.cache c) = Some entry ->
  now - timestamp entry <= LRUCache.cacheDuration entry ->
  LRUCache.get u now c
  = ({| LRUCache.cache := OMap.set (toLowerCase u) entry
                            (OMap.delete (toLowerCase u) (LRUCache.cache c));
        LRUCache.maxSize := LRUCache.maxSize c |},
     Some (data entry)).
Proof.
  intros G A. unfold LRUCache.get. rewrite G.
  destruct (Z.gtb_spec (now - timestamp entry) (LRUCache.cacheDuration entry)); [lia|reflexivity].
Qed.

Lemma get_expired u now c entry :
  OMap.get (toLowerCase u) (LRUCache.cache c) = Some entry ->
  LRUCache.cacheDuration entry < now - timestamp entry ->
  LRUCache.get u now c
  = ({| LRUCache.cache := OMap.delete (toLowerCase u) (LRUCache.cache c);
        LRUCache.maxSize := LRUCache.maxSize c |},
     None).
Proof.
  intros G A. unfold LRUCache.get. rewrite G.
  destruct (Z.gtb_spec (now - timestamp entry) (LRUCache.cacheDuration entry)); [reflexivity|lia].
Qed.

Lemma cacheDuration_value d T :
  LRUCache.cacheDuration {| data := d; timestamp := T |}
  = match d with Some _ => 3600000 | None => 900000 end.
Proof. destruct d; reflexivity. Qed.

End Expiry.

(** C4.  An entry inserted at time [T] is a Hit for every [get] strictly
    before [T + ttl] and a Miss for every [get] strictly after, where [ttl]
    is 60 minutes for a positive entry and 15 minutes for a negative one;
    the [get] that finds the entry expired also deletes it.  The same holds
    for any entry the cache holds, whatever came in between. *)
Theorem ttl_hit_before_miss_after :
  forall (c : LRUCache.t) (u u' : string) (d : option EloWardRankData) (T now : Z),
    toLowerCase u' = toLowerCase u ->
    let ttl := match d with Some _ => 60 * 60 * 1000 | None => 15 * 60 * 1000 end%Z in
    let r := LRUCache.get u' now (LRUCache.set u d T c) in
    ((now < T + ttl)%Z -> snd r = Some d) /\
    ((T + ttl < now)%Z ->
       snd r = None /\
       OMap.get (toLowerCase u) (LRUCache.cache (fst r)) = None) /\
    (forall c' entry,
       OMap.get (toLowerCase u) (LRUCache.cache c') = Some entry ->
       data entry = d -> timestamp entry = T ->
       ((now < T + ttl)%Z -> snd (LRUCache.get u' now c') = Some d) /\
       ((T + ttl < now)%Z ->
          snd (LRUCache.get u' now c') = None /\
          OMap.get (toLowerCase u) (LRUCache.cache (fst (LRUCache.get u' now c'))) = None)).
Proof.
  intros c u u' d T now E ttl r.
  assert (General : forall c' entry,
       OMap.get (toLowerCase u) (LRUCache.cache c') = Some entry ->
       data entry = d -> timestamp entry = T ->
       ((now < T + ttl)%Z -> snd (LRUCache.get u' now c') = Some d) /\
       ((T + ttl < now)%Z ->
          snd (LRUCache.get u' now c') = None /\
          OMap.get (toLowerCase u) (LRUCache.cache (fst (LRUCache.get u' now c'))) = None)).
  { intros c' [d' T'] G Hd HT. simpl in Hd, HT. subst d' T'.
    rewrite <- E in G.
    pose proof (cacheDuration_value d T) as D. fold ttl in D.
    split; intros A.
    - rewrite (get_fresh _ _ _ _ G); [reflexivity|]. simpl timestamp. rewrite D.
      subst ttl. destruct d; lia.
    - rewrite (get_expired _ _ _ _ G).
      + simpl. split; [reflexivity|]. rewrite <- E. apply get_delete_same.
      + simpl timestamp. rewrite D. subst ttl. destruct d; lia. }
  destruct (General (LRUCache.set u d T c) _ (set_stores u d T c) eq_refl eq_refl) as [A B].
  subst r. split; [exact A|]. split; [exact B|exact General].
Qed.

Lemma ttl_hit_before_miss_after_witness :
  (toLowerCase "FOO" = toLowerCase "Foo") /\
  (899999 < 0 + 15 * 60 * 1000)%Z /\
  snd (LRUCache.get "FOO" 899999 (LRUCache.set "Foo" None 0 (LRUCache.new 500))) = Some None.
Proof.
  split; [reflexivity|]. split; [reflexivity|].
  apply (proj1 (ttl_hit_before_miss_after (LRUCache.new 500) "Foo" "FOO" None 0 899999 eq_refl)).
  reflexivity.
Defined.

(** C9.  A [get] at the moment the age of the entry equals its TTL is still
    a Hit: the entry expires only when its age is strictly greater. *)
Theorem ttl_boundary_is_hit :
  forall (c : LRUCache.t) (u u' : string) (entry : CacheEntry) (now : Z),
    toLowerCase u' = toLowerCase u ->
    OMap.get (toLowerCase u) (LRUCache.cache c) = Some entry ->
    (now - timestamp entry
     = match data entry with Some _ => 60 * 60 * 1000 | None => 15 * 60 * 1000 end)%Z ->
    snd (LRUCache.get u' now c) = Some (data entry) /\
    OMap.get (toLowerCase u) (LRUCache.cache (fst (LRUCache.get u' now c))) = Some entry.
Proof.
  intros c u u' entry now E G A. rewrite <- E in *.
  rewrite (get_fresh _ _ _ _ G).
  - simpl. split; [reflexivity|]. apply get_set_same.
  - rewrite A. unfold LRUCache.cacheDuration. destruct (data entry); reflexivity || (vm_compute; discriminate).
Qed.

Lemma ttl_boundary_is_hit_witness :
  snd (LRUCache.get "FOO" 900007 (LRUCache.set "Foo" None 7 (LRUCache.new 500))) = Some None /\
  snd (LRUCache.get "foo" 3600007 (LRUCache.set "Foo" (Some gold_II_45) 7 (LRUCache.new 500)))
  = Some (Some gold_II_45).
Proof.
  split.
  - exact (proj1 (ttl_boundary_is_hit (LRUCache.set "Foo" None 7 (LRUCache.new 500))
                    "Foo" "FOO" {| data := None; timestamp := 7 |} 900007 eq_refl
                    (set_stores "Foo" None 7 (LRUCache.new 500)) eq_refl)).
  - exact (proj1 (ttl_boundary_is_hit (LRUCache.set "Foo" (Some gold_II_45) 7 (LRUCache.new 500))
                    "Foo" "foo" {| data := Some gold_II_45; timestamp := 7 |} 3600007 eq_refl
                    (set_stores "Foo" (Some gold_II_45) 7 (LRUCache.new 500)) eq_refl)).
Defined.

(* ================================================================== *)
(** ** The text helpers *)
(* ================================================================== *)

Lemma append_assoc3 (a b c : string) : ((a ++ b) ++ c = a ++ (b ++ c))%string.
Proof. induction a as [|x a IH]; simpl; [reflexivity|now rewrite IH]. Qed.

Lemma append_empty_r (a : string) : (a ++ "" = a)%string.
Proof. induction a as [|x a IH]; simpl; [reflexivity|now rewrite IH]. Qed.





(** The other two formatting examples of the specification, and a zero
    [leaguePoints]. *)
Example formatRankText_master :
  formatRankText (mkRankData (JStr "master") JUndefined (JNum 200) JUndefined JUndefined JUndefined)
  = Normal "MASTER - 200 LP".
Proof. reflexivity. Qed.

Example formatRankText_unranked :
  formatRankText (mkRankData (JStr "unranked") JUndefined JUndefined JUndefined JUndefined JUndefined)
  = Normal "UNRANKED".
Proof. reflexivity. Qed.

Example formatRankText_zero_lp :
  formatRankText (mkRankData (JStr "Diamond") (JStr "IV") (JNum 0) JUndefined JUndefined JUndefined)
  = Normal "DIAMOND IV - 0 LP".
Proof. reflexivity. Qed.

(* ================================================================== *)
(** ** The OP.GG link *)
(* ================================================================== *)

Lemma split_hash s :
  split "#" s
  = beforeHash s :: match afterHash s with
                    | Some r => split "#" r
                    | None => []
                    end.
Proof.
  induction s as [|c s IH]; simpl; [reflexivity|].
  destruct (Ascii.eqb c "#"); [reflexivity|].
  now rewrite IH.
Qed.

Lemma split_first s : nth_error (split "#" s) 0 = Some (beforeHash s).
Proof. now rewrite split_hash. Qed.

Lemma split_second s : nth_error (split "#" s) 1 = option_map beforeHash (afterHash s).
Proof.
  rewrite split_hash. simpl. destruct (afterHash s) as [r|]; [|reflexivity].
  now rewrite split_hash.
Qed.

(** Every slug of the OP.GG table is non-empty, and differs from the label
    the display table gives to the same region. *)
Lemma regionMapping_values k v :
  assoc k regionMapping = Some v -> v <> "" /\ assoc k regionMap <> Some v.
Proof.
  unfold regionMapping, regionMap. simpl.
  repeat match goal with
         | |- (if String.eqb k ?c then _ else _) = _ -> _ =>
             destruct (String.eqb_spec k c) as [->|_];
             [intros [= <-]; split; discriminate|]
         end.
  discriminate.
Qed.

(** C8 (as amended).  [getOpGGUrl] gives [null] when the summoner name or the
    region is missing or empty, and when the lower-cased region is not a key
    of the OP.GG table (a region that names a member inherited from
    [Object.prototype] is left aside).  The region is ASCII text.  For a
    region of the table, the URL
    carries the slug of the table, the percent-encoded text before the first
    [#] of the summoner name, and as tag the text between the first and the
    second [#]; the upper-cased region stands in when that text is missing or
    empty.  The OP.GG table is not the display table: no region has the same
    value in both, and [sea] is in the display table only. *)
Theorem getOpGGUrl_cases :
  forall r : EloWardRankData,
    (truthy (summonerName r) = false \/ truthy (region r) = false ->
     getOpGGUrl r = Normal None) /\
    (forall n g, summonerName r = JStr n -> region r = JStr g -> n <> "" -> g <> "" ->
       all_ascii g = true ->
       (assoc (toLowerCase g) regionMapping = None ->
        ~ In (toLowerCase g) Object_prototype_names ->
        getOpGGUrl r = Normal None) /\
       (forall slug, assoc (toLowerCase g) regionMapping = Some slug ->
          let base := beforeHash n in
          let tag := match option_map beforeHash (afterHash n) with
                     | Some t => if String.eqb t "" then toUpperCase g else t
                     | None => toUpperCase g
                     end in
          getOpGGUrl r
          = Normal (Some ("https://op.gg/lol/summoners/" ++ slug ++ "/"
                            ++ encodeURIComponent base ++ "-" ++ tag)))) /\
    (forall k v, assoc k regionMapping = Some v -> assoc k regionMap <> Some v) /\
    (assoc "sea" regionMap = Some "SEA" /\ assoc "sea" regionMapping = None).
Proof.
  intros r. split; [|split; [|split]].
  - intros [F|F]; unfold getOpGGUrl; rewrite F; simpl; [reflexivity|].
    now rewrite orb_true_r.
  - intros n g Hn Hg Nn Ng _.
    assert (Tn : truthy (summonerName r) = true).
    { rewrite Hn. simpl. apply negb_true_iff. now apply String.eqb_neq. }
    assert (Tg : truthy (region r) = true).
    { rewrite Hg. simpl. apply negb_true_iff. now apply String.eqb_neq. }
    split.
    + intros A NI. unfold getOpGGUrl. rewrite Tn, Tg, Hg. simpl.
      unfold tableLookup. rewrite A.
      destruct (existsb (String.eqb (toLowerCase g)) Object_prototype_names) eqn:X;
        [|reflexivity].
      exfalso. apply NI. apply existsb_exists in X. destruct X as [x [I E]].
      apply String.eqb_eq in E. now subst.
    + intros slug A base tag. unfold getOpGGUrl. rewrite Tn, Tg, Hg, Hn.
      cbn [negb orb callToLowerCase callSplit callToUpperCase bind].
      unfold tableLookup. rewrite A. cbn [memberText].
      destruct (regionMapping_values _ _ A) as [Ns _].
      apply String.eqb_neq in Ns. rewrite Ns.
      rewrite split_second, split_first. subst tag base.
      destruct (option_map beforeHash (afterHash n)) as [t|]; cbn [bind]; [|reflexivity].
      destruct (String.eqb t ""); reflexivity.
  - intros k v A. apply (regionMapping_values k v A).
  - split; reflexivity.
Qed.

Lemma getOpGGUrl_cases_witness :
  getOpGGUrl (mkRankData (JStr "gold") JUndefined JUndefined
                (JStr "Hide on bush#KR1") (JStr "KR") JUndefined)
  = Normal (Some "https://op.gg/lol/summoners/kr/Hide%20on%20bush-KR1").
Proof.
  destruct (getOpGGUrl_cases (mkRankData (JStr "gold") JUndefined JUndefined
                                (JStr "Hide on bush#KR1") (JStr "KR") JUndefined))
    as [_ [H _]].
  assert (N1 : "Hide on bush#KR1" <> "") by discriminate.
  assert (N2 : "KR" <> "") by discriminate.
  destruct (H "Hide on bush#KR1" "KR" eq_refl eq_refl N1 N2 eq_refl) as [_ H2].
  exact (H2 "kr" eq_refl).
Defined.

(** C8 as it is stated fails on a summoner name with two [#]: C8
    takes what follows the first [#] as the tag, the code keeps only the text
    up to the second [#]. *)
Lemma getOpGGUrl_drops_text_after_second_hash :
  let r := mkRankData (JStr "gold") JUndefined JUndefined (JStr "a#b#c") (JStr "na1") JUndefined in
  assoc (toLowerCase "na1") regionMapping = Some "na" /\
  spec_opGGUrl "a#b#c" "na1" "na" = "https://op.gg/lol/summoners/na/a-b#c" /\
  getOpGGUrl r = Normal (Some "https://op.gg/lol/summoners/na/a-b") /\
  getOpGGUrl r <> Normal (Some (spec_opGGUrl "a#b#c" "na1" "na")).
Proof. repeat split; try reflexivity. discriminate. Qed.

(** A region that names an inherited member of the table object is not a
    key of the table, and yet the lookup finds something truthy. *)
Example getOpGGUrl_inherited_member :
  let r := mkRankData (JStr "gold") JUndefined JUndefined (JStr "a#b") (JStr "Constructor") JUndefined in
  assoc (toLowerCase "Constructor") regionMapping = None /\
  getOpGGUrl r <> Normal None.
Proof. split; [reflexivity|discriminate]. Qed.

(* ================================================================== *)
(** ** The coordinator: how the steps change the state *)
(* ================================================================== *)

Section Frames.

Lemma same_but_badges_refl s : same_but_badges s s.
Proof. repeat split. Qed.

Lemma same_but_badges_trans s1 s2 s3 :
  same_but_badges s1 s2 -> same_but_badges s2 s3 -> same_but_badges s1 s3.
Proof.
  unfold same_but_badges. intros (a & b & c & d & e & f) (a' & b' & c' & d' & e' & f').
  repeat split; congruence.
Qed.

Lemma storeBadge_frame k v s : same_but_badges s (storeBadge k v s).
Proof.
  unfold storeBadge. destruct v as [d|]; [destruct (getRankBadge d)|];
    repeat split.
Qed.

Lemma fire_frame rid res cbs : forall s, same_but_badges s (fire rid res cbs s).
Proof.
  induction cbs as [|[r k] cbs IH]; intros s; simpl.
  - apply same_but_badges_refl.
  - destruct (Nat.eqb r rid); [|apply IH].
    eapply same_but_badges_trans; [apply storeBadge_frame|apply IH].
Qed.

Lemma settle_fields rid key res s :
  enabled (settle rid key res s) = enabled s /\
  isLoading (settle rid key res s) = false /\
  rankCache (settle rid key res s) = rankCache s /\
  pendingRequests (settle rid key res s) = OMap.delete key (pendingRequests s) /\
  requests (settle rid key res s) = set_phase rid (Settled res) (requests s) /\
  callbacks (settle rid key res s)
  = filter (fun c => negb (Nat.eqb (fst c) rid)) (callbacks s).
Proof.
  unfold settle.
  match goal with
  | |- context [fire ?a ?b ?c ?st] =>
      destruct (fire_frame a b c st) as (Fe & Fl & Fc & Fp & Fr & Fk)
  end.
  rewrite Fe, Fl, Fc, Fp, Fr, Fk. repeat split.
Qed.

Lemma settle_enabled rid key res s : enabled (settle rid key res s) = enabled s.
Proof. apply settle_fields. Qed.

Lemma settle_isLoading rid key res s : isLoading (settle rid key res s) = false.
Proof. apply settle_fields. Qed.

Lemma settle_rankCache rid key res s : rankCache (settle rid key res s) = rankCache s.
Proof. apply settle_fields. Qed.

Lemma settle_pendingRequests rid key res s :
  pendingRequests (settle rid key res s) = OMap.delete key (pendingRequests s).
Proof. apply settle_fields. Qed.

Lemma settle_requests rid key res s :
  requests (settle rid key res s) = set_phase rid (Settled res) (requests s).
Proof. apply settle_fields. Qed.

Lemma nth_error_set_phase_same rs : forall rid key p q,
  nth_error rs rid = Some (mkRequest key p) ->
  nth_error (set_phase rid q rs) rid = Some (mkRequest key q).
Proof.
  induction rs as [|r rs IH]; intros [|rid] key p q H; simpl in *; try discriminate.
  - injection H as ->. reflexivity.
  - eapply IH, H.
Qed.

Lemma nth_error_set_phase_other rs : forall rid rid' q,
  rid' <> rid -> nth_error (set_phase rid q rs) rid' = nth_error rs rid'.
Proof.
  induction rs as [|r rs IH]; intros [|rid] [|rid'] q N; simpl; try reflexivity.
  - contradiction.
  - apply IH. congruence.
Qed.

Lemma keys_set_phase rs : forall rid q, map req_key (set_phase rid q rs) = map req_key rs.
Proof.
  induction rs as [|r rs IH]; intros [|rid] q; simpl; try reflexivity.
  now rewrite IH.
Qed.

Lemma outbound_requests s s' :
  map req_key (requests s') = map req_key (requests s) -> outbound s' = outbound s.
Proof.
  unfold outbound. intros H.
  rewrite <- (map_map req_key url_of), H.
  now rewrite map_map.
Qed.

Lemma settle_resolution rid key p res s :
  nth_error (requests s) rid = Some (mkRequest key p) ->
  resolution (Follows rid) (settle rid key res s) = Some res.
Proof.
  intros H. unfold resolution, phase_of. rewrite settle_requests.
  now rewrite (nth_error_set_phase_same _ _ _ _ _ H).
Qed.

(** [fetchRankData] on a key that is cached and fresh. *)
Lemma fetchRankData_hit u now s v :
  enabled s = true -> u <> "" ->
  snd (LRUCache.get u now (rankCache s)) = Some v ->
  fetchRankData u now s
  = (with_rankCache (fst (LRUCache.get u now (rankCache s))) s, Resolved v).
Proof.
  intros En Nu G. unfold fetchRankData. rewrite En.
  apply String.eqb_neq in Nu. rewrite Nu. simpl.
  assert (E : LRUCache.get (toLowerCase u) now (rankCache s) = LRUCache.get u now (rankCache s)).
  { unfold LRUCache.get. now rewrite toLowerCase_idem. }
  rewrite E. destruct (LRUCache.get u now (rankCache s)) as [c r]. simpl in *. now subst r.
Qed.

(** [fetchRankData] on an uncached key that is registered. *)
Lemma fetchRankData_attach u now s rid :
  enabled s = true -> u <> "" ->
  snd (LRUCache.get u now (rankCache s)) = None ->
  OMap.get (toLowerCase u) (pendingRequests s) = Some rid ->
  fetchRankData u now s
  = (with_rankCache (fst (LRUCache.get u now (rankCache s))) s, Follows rid).
Proof.
  intros En Nu G P. unfold fetchRankData. rewrite En.
  apply String.eqb_neq in Nu. rewrite Nu. simpl.
  assert (E : LRUCache.get (toLowerCase u) now (rankCache s) = LRUCache.get u now (rankCache s)).
  { unfold LRUCache.get. now rewrite toLowerCase_idem. }
  rewrite E. destruct (LRUCache.get u now (rankCache s)) as [c r]. simpl in *. subst r.
  now rewrite P.
Qed.

(** [fetchRankData] on an uncached key that is not registered. *)
Lemma fetchRankData_issue u now s :
  enabled s = true -> u <> "" ->
  snd (LRUCache.get u now (rankCache s)) = None ->
  OMap.get (toLowerCase u) (pendingRequests s) = None ->
  fetchRankData u now s
  = (mkState true true (fst (LRUCache.get u now (rankCache s)))
       (OMap.set (toLowerCase u) (List.length (requests s)) (pendingRequests s))
       (userBadges s)
       (requests s ++ [mkRequest (toLowerCase u) AwaitFetch])
       (callbacks s),
     Follows (List.length (requests s))).
Proof.
  intros En Nu G P. unfold fetchRankData. rewrite En.
  apply String.eqb_neq in Nu. rewrite Nu. simpl.
  assert (E : LRUCache.get (toLowerCase u) now (rankCache s) = LRUCache.get u now (rankCache s)).
  { unfold LRUCache.get. now rewrite toLowerCase_idem. }
  rewrite E. destruct (LRUCache.get u now (rankCache s)) as [c r]. simpl in *. subst r.
  rewrite P. unfold with_pendingRequests, with_requests, with_isLoading, with_rankCache.
  simpl. now rewrite En.
Qed.

End Frames.

(* ================================================================== *)
(** ** Confirmed absence is cached, a soft failure is not *)
(* ================================================================== *)

Lemma soft_failure_settle s rid key p :
  nth_error (requests s) rid = Some (mkRequest key p) ->
  soft_failure s (settle rid key None s) rid key.
Proof.
  intros R. unfold soft_failure.
  split; [apply settle_rankCache|].
  split; [eapply settle_resolution, R|].
  intros u now' En Nu Eu Miss.
  assert (En' : enabled (settle rid key None s) = true) by now rewrite settle_enabled.
  assert (Miss' : snd (LRUCache.get u now' (rankCache (settle rid key None s))) = None)
    by now rewrite settle_rankCache.
  assert (P : OMap.get (toLowerCase u) (pendingRequests (settle rid key None s)) = None).
  { rewrite settle_pendingRequests, Eu. apply get_delete_same. }
  rewrite (fetchRankData_issue u now' _ En' Nu Miss' P). simpl.
  split; [reflexivity|].
  unfold outbound at 1. simpl. rewrite map_app. simpl. now rewrite Eu.
Qed.

(** C2.  Take a request for [key] that is waiting for its response.
    - On a 404 the request writes a negative entry for the key, stamped with
      the current time, and resolves with [null]; a later resolve of the key
      no more than 15 minutes after that stamp is answered [null] from the
      cache and sends nothing.
    - On any other status outside 200..299, and when the fetch is rejected
      (network failure, abort, timeout), the cache is left as it was and the
      request resolves with [null]; the next resolve of the still uncached
      key sends a new request.
    The same holds for a request whose body cannot be read. *)
Theorem not_found_is_cached_soft_failure_is_not :
  forall (s : State) (rid : nat) (key : string) (now : Z),
    (nth_error (requests s) rid = Some (mkRequest key AwaitFetch) ->
       (let s' := fetchSettles rid (Response 404) now s in
        OMap.get (toLowerCase key) (LRUCache.cache (rankCache s'))
        = Some {| data := None; timestamp := now |} /\
        resolution (Follows rid) s' = Some None /\
        forall u now',
          enabled s = true -> u <> "" -> toLowerCase u = key ->
          (now' - now <= 15 * 60 * 1000)%Z ->
          snd (fetchRankData u now' s') = Resolved None /\
          outbound (fst (fetchRankData u now' s')) = outbound s') /\
       (forall status, status <> 404%Z -> ok status = false ->
          soft_failure s (fetchSettles rid (Response status) now s) rid key) /\
       soft_failure s (fetchSettles rid FetchRejected now s) rid key) /\
    (nth_error (requests s) rid = Some (mkRequest key AwaitJson) ->
       soft_failure s (jsonSettles rid JsonRejected now s) rid key).
Proof.
  intros s rid key now. split.
  - intros R. split; [|split].
    + unfold fetchSettles. rewrite R. simpl.
      set (s1 := cacheSet key None now s).
      assert (C : rankCache (settle rid key None s1) = LRUCache.set key None now (rankCache s))
        by now rewrite settle_rankCache.
      split; [rewrite C; apply set_stores|].
      split; [eapply settle_resolution; subst s1; simpl; exact R|].
      intros u now' En Nu Eu Age.
      assert (En' : enabled (settle rid key None s1) = true) by now rewrite settle_enabled.
      assert (G : LRUCache.get u now' (rankCache (settle rid key None s1))
                  = ({| LRUCache.cache :=
                          OMap.set (toLowerCase u) {| data := None; timestamp := now |}
                            (OMap.delete (toLowerCase u)
                               (LRUCache.cache (LRUCache.set key None now (rankCache s))));
                        LRUCache.maxSize := LRUCache.maxSize (LRUCache.set key None now (rankCache s)) |},
                     Some None)).
      { rewrite C. apply (get_fresh u now' _ {| data := None; timestamp := now |}).
        - assert (Ek : toLowerCase key = key) by (rewrite <- Eu; apply toLowerCase_idem).
          pose proof (set_stores key None now (rankCache s)) as SS.
          rewrite Ek in SS. rewrite Eu. exact SS.
        - simpl. unfold LRUCache.cacheDuration, NEGATIVE_CACHE_DURATION. simpl. lia. }
      rewrite (fetchRankData_hit u now' _ None En' Nu); [|now rewrite G].
      simpl. split; [reflexivity|]. apply outbound_requests. reflexivity.
    + intros status N4 Nok. unfold fetchSettles. rewrite R.
      destruct (Z.eqb_spec status 404); [contradiction|]. rewrite Nok. simpl.
      eapply soft_failure_settle, R.
    + unfold fetchSettles. rewrite R. eapply soft_failure_settle, R.
  - intros R. unfold jsonSettles. rewrite R. eapply soft_failure_settle, R.
Qed.

Lemma not_found_is_cached_soft_failure_is_not_witness :
  let s := run (init true) [CallFetchRankData "Foo" 0%Z] in
  nth_error (requests s) 0 = Some (mkRequest "foo" AwaitFetch) /\
  snd (fetchRankData "FOO" 900005 (fetchSettles 0 (Response 404) 5 s)) = Resolved None /\
  outbound (fst (fetchRankData "FOO" 900005 (fetchSettles 0 (Response 404) 5 s)))
  = outbound (fetchSettles 0 (Response 404) 5 s).
Proof.
  intros s.
  assert (R : nth_error (requests s) 0 = Some (mkRequest "foo" AwaitFetch)) by reflexivity.
  split; [exact R|].
  destruct (not_found_is_cached_soft_failure_is_not s 0 "foo" 5%Z) as [H _].
  destruct (H R) as [(_ & _ & H404) _].
  assert (N : "FOO" <> "") by discriminate.
  assert (A : (900005 - 5 <= 15 * 60 * 1000)%Z) by (intro X; discriminate X).
  exact (H404 "FOO" 900005%Z eq_refl N eq_refl A).
Defined.

(* ================================================================== *)
(** ** Reading a successful response *)
(* ================================================================== *)

Lemma getField_member_of body p :
  body <> JNull -> body <> JUndefined -> getField body p = Normal (member_of body p).
Proof. destruct body; intros A B; try reflexivity; congruence. Qed.

(** [readRank] on a body other than [null]: a falsy [rank_tier] and a string
    outside the tier list are invalid, a string of the list gives the record,
    and any other [rank_tier] has no [toLowerCase] to call. *)
Lemma readRank_cases body :
  body <> JNull -> body <> JUndefined ->
  readRank body
  = if negb (truthy (member_of body "rank_tier")) then Normal None
    else match member_of body "rank_tier" with
         | JStr t => if RANK_TIERS_has (toLowerCase t) then Normal (Some (record_of body))
                     else Normal None
         | _ => Throw TypeError
         end.
Proof.
  intros A B. unfold readRank.
  rewrite !(getField_member_of body _ A B). cbn [bind].
  destruct (truthy (member_of body "rank_tier")) eqn:T; cbn [negb bind]; [|reflexivity].
  destruct (member_of body "rank_tier") eqn:M; try reflexivity.
  cbn [callToLowerCase bind].
  destruct (RANK_TIERS_has (toLowerCase s)); cbn [negb]; [|reflexivity].
  unfold record_of. now rewrite M.
Qed.

Lemma jsonSettles_negative s rid key now body :
  nth_error (requests s) rid = Some (mkRequest key AwaitJson) ->
  readRank body = Normal None ->
  let s' := jsonSettles rid (Json body) now s in
  resolution (Follows rid) s' = Some None /\
  OMap.get (toLowerCase key) (LRUCache.cache (rankCache s'))
  = Some {| data := None; timestamp := now |}.
Proof.
  intros R Rd. unfold jsonSettles. rewrite R, Rd. simpl. split.
  - eapply settle_resolution. simpl. exact R.
  - rewrite settle_rankCache. apply set_stores.
Qed.

Lemma jsonSettles_positive s rid key now body rec :
  nth_error (requests s) rid = Some (mkRequest key AwaitJson) ->
  readRank body = Normal (Some rec) ->
  let s' := jsonSettles rid (Json body) now s in
  resolution (Follows rid) s' = Some (Some rec) /\
  OMap.get (toLowerCase key) (LRUCache.cache (rankCache s'))
  = Some {| data := Some rec; timestamp := now |}.
Proof.
  intros R Rd. unfold jsonSettles. rewrite R, Rd. simpl. split.
  - eapply settle_resolution. simpl. exact R.
  - rewrite settle_rankCache. apply set_stores.
Qed.

Lemma jsonSettles_throw s rid key now body :
  nth_error (requests s) rid = Some (mkRequest key AwaitJson) ->
  readRank body = Throw TypeError ->
  soft_failure s (jsonSettles rid (Json body) now s) rid key.
Proof.
  intros R Rd. unfold jsonSettles. rewrite R, Rd. eapply soft_failure_settle, R.
Qed.

(** A body whose [rank_tier] is a string of the tier list: the request
    resolves with the record of the body and caches it as a positive
    entry. *)
Lemma success_body_validated_helper s rid key now body t :
  nth_error (requests s) rid = Some (mkRequest key AwaitJson) ->
  body <> JNull -> body <> JUndefined ->
  member_of body "rank_tier" = JStr t -> RANK_TIERS_has (toLowerCase t) = true ->
  let s' := jsonSettles rid (Json body) now s in
  resolution (Follows rid) s' = Some (Some (record_of body)) /\
  OMap.get (toLowerCase key) (LRUCache.cache (rankCache s'))
  = Some {| data := Some (record_of body); timestamp := now |}.
Proof.
  intros R NN NU Ht Tt. apply jsonSettles_positive; [exact R|].
  rewrite (readRank_cases body NN NU), Ht, Tt.
  destruct (truthy (JStr t)) eqn:X; [reflexivity|].
  simpl in X. apply negb_false_iff, String.eqb_eq in X. subst t. discriminate Tt.
Qed.

(** C5 (as amended).  Take a request that is waiting for the body of a
    successful response, and a body that is not [null].
    - If [rank_tier] is absent or falsy, or is an ASCII string whose
      lower-case form is not a tier, the request writes a negative entry and
      resolves with [null].
    - If [rank_tier] is an ASCII string whose lower-case form is a tier, the
      request builds the record from the body, writes it as a positive entry
      and resolves with it.
    - A [null] body, and a [rank_tier] that is truthy and not a string,
      raise inside the [try] block: nothing is cached and the request
      resolves with [null], as for any soft failure. *)
Theorem success_body_is_validated :
  forall (s : State) (rid : nat) (key : string) (now : Z) (body : jsval),
    nth_error (requests s) rid = Some (mkRequest key AwaitJson) ->
    body <> JUndefined ->
    let s' := jsonSettles rid (Json body) now s in
    let rank_tier := member_of body "rank_tier" in
    (body <> JNull ->
       (truthy rank_tier = false \/
        (exists t, rank_tier = JStr t /\ all_ascii t = true /\
                   RANK_TIERS_has (toLowerCase t) = false) ->
        resolution (Follows rid) s' = Some None /\
        OMap.get (toLowerCase key) (LRUCache.cache (rankCache s'))
        = Some {| data := None; timestamp := now |}) /\
       (forall t, rank_tier = JStr t -> all_ascii t = true ->
          RANK_TIERS_has (toLowerCase t) = true ->
          resolution (Follows rid) s' = Some (Some (record_of body)) /\
          OMap.get (toLowerCase key) (LRUCache.cache (rankCache s'))
          = Some {| data := Some (record_of body); timestamp := now |})) /\
    (body = JNull \/ (truthy rank_tier = true /\ forall t, rank_tier <> JStr t) ->
     soft_failure s s' rid key).
Proof.
  intros s rid key now body R NU s' rank_tier. split.
  - intros NN. pose proof (readRank_cases body NN NU) as RC. fold rank_tier in RC. split.
    + intros Inv. apply jsonSettles_negative; [exact R|]. rewrite RC.
      destruct Inv as [F|(t & Ht & _ & Nt)].
      * now rewrite F.
      * rewrite Ht. rewrite Nt. now destruct (negb (truthy (JStr t))).
    + intros t Ht _ Tt. now apply (success_body_validated_helper s rid key now body t).
  - intros [->|[T NS]].
    + apply jsonSettles_throw; [exact R|reflexivity].
    + assert (NN : body <> JNull).
      { intros ->. subst rank_tier. discriminate T. }
      apply jsonSettles_throw; [exact R|].
      rewrite (readRank_cases body NN NU). fold rank_tier. rewrite T. simpl.
      destruct rank_tier; try reflexivity. exfalso. now apply (NS s0).
Qed.

Lemma success_body_is_validated_witness :
  let s := run (init true) [CallFetchRankData "Foo" 0%Z; FetchSettles 0 (Response 200) 1%Z] in
  let body := JObj [("rank_tier", JStr "Gold"); ("lp", JNum 45)] in
  let s' := jsonSettles 0 (Json body) 2%Z s in
  nth_error (requests s) 0 = Some (mkRequest "foo" AwaitJson) /\
  resolution (Follows 0) s' = Some (Some (record_of body)) /\
  OMap.get (toLowerCase "foo") (LRUCache.cache (rankCache s'))
  = Some {| data := Some (record_of body); timestamp := 2%Z |}.
Proof.
  intros s body s'.
  assert (R : nth_error (requests s) 0 = Some (mkRequest "foo" AwaitJson)) by reflexivity.
  split; [exact R|].
  assert (NU : body <> JUndefined) by discriminate.
  assert (NN : body <> JNull) by discriminate.
  destruct (success_body_is_validated s 0 "foo" 2%Z body R NU) as [H _].
  destruct (H NN) as [_ H2].
  exact (H2 "Gold" eq_refl eq_refl eq_refl).
Defined.

(** C5 as it is stated fails on the body [null]: it has no [rank_tier], and
    yet no negative entry is written. *)
Lemma success_body_null_is_not_cached :
  let s := run (init true) [CallFetchRankData "a" 0%Z; FetchSettles 0 (Response 200) 1%Z] in
  let s' := jsonSettles 0 (Json JNull) 2%Z s in
  nth_error (requests s) 0 = Some (mkRequest "a" AwaitJson) /\
  member_of JNull "rank_tier" = JUndefined /\
  OMap.get "a" (LRUCache.cache (rankCache s')) = None /\
  OMap.get "a" (LRUCache.cache (rankCache s')) <> Some {| data := None; timestamp := 2%Z |}.
Proof. repeat split; try reflexivity. discriminate. Qed.

(** So it does on a [rank_tier] that is a number. *)
Example success_body_numeric_tier_is_not_cached :
  let s := run (init true) [CallFetchRankData "a" 0%Z; FetchSettles 0 (Response 200) 1%Z] in
  let s' := jsonSettles 0 (Json (JObj [("rank_tier", JNum 5)])) 2%Z s in
  LRUCache.cache (rankCache s') = [] /\ resolution (Follows 0) s' = Some None.
Proof. split; reflexivity. Qed.

(* ================================================================== *)
(** ** An "unranked" tier is a rank *)
(* ================================================================== *)

Lemma unranked_upper t : toLowerCase t = "unranked" -> toUpperCase t = "UNRANKED".
Proof. intros H. now apply (same_upper_iff_same_lower t "unranked"). Qed.

(** The badge of a record whose tier reads "unranked". *)
Lemma getRankBadge_unranked rec t :
  tier rec = JStr t -> toLowerCase t = "unranked" ->
  forall d, division rec = JStr d \/ (d = "" /\ truthy (division rec) = false) ->
    getRankBadge rec
    = Normal (Some {| badge_id := "eloward-unranked" ++ (if String.eqb d "" then "" else "-" ++ d);
                      badge_tier := "UNRANKED";
                      badge_division := division rec;
                      badge_imageUrl := getImageUrl "unranked" (truthy (animate_badge rec));
                      badge_animated := truthy (animate_badge rec);
                      badge_summonerName := summonerName rec;
                      badge_region := region rec;
                      badge_leaguePoints := leaguePoints rec |}).
Proof.
  intros Ht L d Hd. unfold getRankBadge. rewrite Ht.
  assert (Tt : truthy (JStr t) = true).
  { simpl. destruct t; [discriminate L|reflexivity]. }
  rewrite Tt. cbn [negb callToLowerCase callToUpperCase bind]. rewrite L.
  change (RANK_TIERS_has "unranked") with true. cbn [negb].
  rewrite (unranked_upper t L).
  destruct Hd as [Hd|[-> Hd]].
  - rewrite Hd. cbn [truthy ToString].
    destruct (String.eqb d ""); cbn [negb bind]; reflexivity.
  - rewrite Hd. reflexivity.
Qed.

(** C10 (as amended).  A successful response whose [rank_tier] is ASCII
    text that reads "unranked" in any letter case resolves with a record and
    is cached as a positive entry, which lives for 60 minutes.  When
    [rank_division] is a string or falsy, the badge of that record has the
    tier label ["UNRANKED"], the image URL of the unranked badge (the
    [_premium.webp] one when [animate_badge] is truthy), and the id
    ["eloward-unranked"], followed by ["-"] and the division when a
    non-empty division came with the response.  When [rank_division] is an
    object with a [toString] member of its own, the projector has no badge:
    printing the division raises [TypeError]. *)
Theorem unranked_is_a_positive_result :
  forall (s : State) (rid : nat) (key : string) (now : Z) (body : jsval) (t : string),
    nth_error (requests s) rid = Some (mkRequest key AwaitJson) ->
    member_of body "rank_tier" = JStr t ->
    all_ascii t = true ->
    toLowerCase t = "unranked" ->
    let s' := jsonSettles rid (Json body) now s in
    let rec := record_of body in
    resolution (Follows rid) s' = Some (Some rec) /\
    OMap.get (toLowerCase key) (LRUCache.cache (rankCache s'))
    = Some {| data := Some rec; timestamp := now |} /\
    LRUCache.cacheDuration {| data := Some rec; timestamp := now |} = (60 * 60 * 1000)%Z /\
    (forall d, division rec = JStr d \/ (d = "" /\ truthy (division rec) = false) ->
       exists b,
         getRankBadge rec = Normal (Some b) /\
         badge_id b = "eloward-unranked" ++ (if String.eqb d "" then "" else "-" ++ d) /\
         badge_tier b = "UNRANKED" /\
         badge_imageUrl b
         = if truthy (animate_badge rec)
           then "https://eloward-cdn.unleashai.workers.dev/lol/unranked_premium.webp?v=3"
           else "https://eloward-cdn.unleashai.workers.dev/lol/unranked.png?v=3") /\
    (forall o, division rec = JObj o -> assoc "toString" o <> None ->
       getRankBadge rec = Throw TypeError /\
       projection (Some rec) = None).
Proof.
  intros s rid key now body t R M _ L s' rec.
  assert (NN : body <> JNull) by (intros ->; discriminate M).
  assert (NU : body <> JUndefined) by (intros ->; discriminate M).
  assert (Tiers : RANK_TIERS_has (toLowerCase t) = true) by now rewrite L.
  destruct (success_body_validated_helper s rid key now body t R NN NU M Tiers) as [A B].
  split; [exact A|]. split; [exact B|]. split; [reflexivity|]. split.
  - intros d Hd. eexists. split.
    + apply (getRankBadge_unranked rec t); [exact M|exact L|exact Hd].
    + simpl. split; [reflexivity|]. split; [reflexivity|].
      destruct (truthy (member_of body "animate_badge")); reflexivity.
  - intros o Ho To.
    assert (G : getRankBadge rec = Throw TypeError).
    { unfold getRankBadge.
      assert (Ht : tier rec = JStr t) by exact M. rewrite Ht.
      assert (Tt : truthy (JStr t) = true).
      { simpl. destruct t; [discriminate L|reflexivity]. }
      rewrite Tt. cbn [negb callToLowerCase bind]. rewrite L.
      change (RANK_TIERS_has "unranked") with true. cbn [negb].
      rewrite Ho. cbn [truthy ToString].
      destruct (assoc "toString" o); [reflexivity|now contradiction To]. }
    split; [exact G|]. unfold projection. now rewrite G.
Qed.

Lemma unranked_is_a_positive_result_witness :
  let s := run (init true) [CallFetchRankData "Foo" 0%Z; FetchSettles 0 (Response 200) 1%Z] in
  let body := JObj [("rank_tier", JStr "UnRanked")] in
  let s' := jsonSettles 0 (Json body) 2%Z s in
  resolution (Follows 0) s' = Some (Some (record_of body)) /\
  exists b, getRankBadge (record_of body) = Normal (Some b) /\
            badge_id b = "eloward-unranked" /\ badge_tier b = "UNRANKED" /\
            badge_imageUrl b = "https://eloward-cdn.unleashai.workers.dev/lol/unranked.png?v=3".
Proof.
  intros s body s'.
  assert (R : nth_error (requests s) 0 = Some (mkRequest "foo" AwaitJson)) by reflexivity.
  destruct (unranked_is_a_positive_result s 0 "foo" 2%Z body "UnRanked" R eq_refl eq_refl
              eq_refl)
    as (A & _ & _ & D & _).
  split; [exact A|].
  exact (D "" (or_intror (conj eq_refl eq_refl))).
Defined.

(** C10 as it is stated fails on a response that carries a division: the id
    of the badge is then not ["eloward-unranked"]. *)
Lemma unranked_with_division_has_another_id :
  let body := JObj [("rank_tier", JStr "unranked"); ("rank_division", JStr "IV")] in
  member_of body "rank_tier" = JStr "unranked" /\
  readRank body = Normal (Some (record_of body)) /\
  exists b, getRankBadge (record_of body) = Normal (Some b) /\
            badge_id b = "eloward-unranked-IV" /\
            badge_id b <> "eloward-unranked".
Proof.
  intros body. split; [reflexivity|]. split; [reflexivity|].
  eexists. split; [reflexivity|]. split; [reflexivity|discriminate].
Qed.

(* ================================================================== *)
(** ** [getOrFetchBadge] against resolve-and-project *)
(* ================================================================== *)

Lemma get_normalized u now c : LRUCache.get (toLowerCase u) now c = LRUCache.get u now c.
Proof. unfold LRUCache.get. now rewrite toLowerCase_idem. Qed.

(** After a Miss the key is not bound, so a second [get] changes nothing. *)
Lemma get_miss_stable u now now' c :
  snd (LRUCache.get u now c) = None ->
  LRUCache.get u now' (fst (LRUCache.get u now c)) = (fst (LRUCache.get u now c), None).
Proof.
  unfold LRUCache.get. destruct (OMap.get (toLowerCase u) (LRUCache.cache c)) as [e|] eqn:G.
  - destruct (now - timestamp e >? LRUCache.cacheDuration e)%Z; simpl; [|discriminate].
    intros _. now rewrite get_delete_same.
  - simpl. intros _. now rewrite G.
Qed.

Lemma storeBadge_projection k v s :
  storeBadge k v s
  = match projection v with
    | Some b => with_userBadges (OMap.set k b (userBadges s)) s
    | None => s
    end.
Proof. unfold storeBadge, projection. destruct v as [d|]; [now destruct (getRankBadge d)|reflexivity]. Qed.

(** A callback queued on a request writes the projection of its result
    under its key when the request settles. *)
Lemma fire_writes rid res b k :
  projection res = Some b ->
  forall cbs s,
    OMap.get k (userBadges s) = Some b \/ In (rid, k) cbs ->
    OMap.get k (userBadges (fire rid res cbs s)) = Some b.
Proof.
  intros Pr. induction cbs as [|[r k'] cbs IH]; intros s H; simpl.
  - destruct H as [H|[]]. exact H.
  - destruct (Nat.eqb_spec r rid) as [->|N].
    + apply IH. rewrite storeBadge_projection, Pr. simpl.
      destruct (string_dec k k') as [->|Nk].
      * left. apply get_set_same.
      * destruct H as [H|[H|H]].
        -- left. now rewrite get_set_other.
        -- injection H as ->. contradiction.
        -- now right.
    + apply IH. destruct H as [H|[H|H]]; [now left| |now right].
      injection H as -> _. contradiction.
Qed.

Lemma settle_writes rid key res b k s :
  In (rid, k) (callbacks s) -> projection res = Some b ->
  OMap.get k (userBadges (settle rid key res s)) = Some b.
Proof.
  intros I Pr. unfold settle. apply (fire_writes rid res b k Pr). now right.
Qed.

(** [getOrFetchBadge] with the feature on and a username given, by the
    outcome of its cache read. *)
Lemma getOrFetchBadge_unfold s u now :
  enabled s = true -> u <> "" ->
  getOrFetchBadge u now s
  = match snd (LRUCache.get u now (rankCache s)) with
    | Some v => storeBadge (toLowerCase u) v
                  (with_rankCache (fst (LRUCache.get u now (rankCache s))) s)
    | None =>
        if OMap.has (toLowerCase u) (pendingRequests s)
        then with_rankCache (fst (LRUCache.get u now (rankCache s))) s
        else resolveAndProject u now s
    end.
Proof.
  intros En Nu.
  assert (Nu' : String.eqb u "" = false) by now apply String.eqb_neq.
  unfold getOrFetchBadge. rewrite En, Nu'. cbn [negb orb]. rewrite get_normalized.
  destruct (snd (LRUCache.get u now (rankCache s))) as [v|] eqn:G.
  - destruct (LRUCache.get u now (rankCache s)) as [c r]. simpl in G. now subst r.
  - unfold OMap.has.
    destruct (OMap.get (toLowerCase u) (pendingRequests s)) as [rid|] eqn:P.
    + destruct (LRUCache.get u now (rankCache s)) as [c r]. simpl in G. subst r.
      simpl pendingRequests. now rewrite P.
    + unfold resolveAndProject. rewrite (fetchRankData_issue u now s En Nu G P).
      pose proof (get_miss_stable u now now (rankCache s) G) as St.
      destruct (LRUCache.get u now (rankCache s)) as [c r]. simpl in G, St. subst r.
      simpl pendingRequests. rewrite P.
      rewrite (fetchRankData_issue u now (with_rankCache c s)); simpl;
        try assumption; [|now rewrite St].
      now rewrite St.
Qed.

(** So it either is resolve-and-project or stops after the cache read of
    the resolve. *)
Lemma getOrFetchBadge_two_ways s u now :
  enabled s = true -> u <> "" ->
  getOrFetchBadge u now s = resolveAndProject u now s \/
  getOrFetchBadge u now s = fst (fetchRankData u now s).
Proof.
  intros En Nu. rewrite (getOrFetchBadge_unfold s u now En Nu).
  destruct (snd (LRUCache.get u now (rankCache s))) as [v|] eqn:G.
  - left. unfold resolveAndProject. now rewrite (fetchRankData_hit u now s v En Nu G).
  - unfold OMap.has.
    destruct (OMap.get (toLowerCase u) (pendingRequests s)) as [rid|] eqn:P.
    + right. now rewrite (fetchRankData_attach u now s rid En Nu G P).
    + now left.
Qed.




(** It also fails when the feature is off: resolve-and-project stores
    [null], [getOrFetchBadge] leaves the store alone. *)
Example getOrFetchBadge_when_disabled :
  userBadges (getOrFetchBadge "a" 0%Z (init false)) = [] /\
  userBadges (resolveAndProject "a" 0%Z (init false)) = [("a", None)].
Proof. split; reflexivity. Qed.

(* ================================================================== *)
(** ** The in-flight registry *)
(* ================================================================== *)

Section Registry.

(** *** At most one entry per key, in every state *)

Lemma settle_keys_distinct rid key res s :
  registry_keys_distinct s -> registry_keys_distinct (settle rid key res s).
Proof.
  unfold registry_keys_distinct. rewrite settle_pendingRequests. apply NoDup_keys_delete.
Qed.

Lemma fetchRankData_keys_distinct u now s :
  registry_keys_distinct s -> registry_keys_distinct (fst (fetchRankData u now s)).
Proof.
  unfold registry_keys_distinct, fetchRankData. intros H.
  destruct (negb (enabled s) || String.eqb u ""); [exact H|].
  destruct (LRUCache.get (toLowerCase u) now (rankCache s)) as [c [v|]]; [exact H|].
  simpl. destruct (OMap.get (toLowerCase u) (pendingRequests s)); [exact H|].
  simpl. now apply NoDup_keys_set.
Qed.

Lemma thenStore_pendingRequests p k s :
  pendingRequests (thenStore p k s) = pendingRequests s /\
  requests (thenStore p k s) = requests s.
Proof.
  unfold thenStore. destruct (resolution p s).
  - destruct (storeBadge_frame k o s) as (_ & _ & _ & A & B & _). now split.
  - destruct p; split; reflexivity.
Qed.

Lemma getOrFetchBadge_registry u now s :
  pendingRequests (getOrFetchBadge u now s) = pendingRequests (fst (fetchRankData u now s)) /\
  requests (getOrFetchBadge u now s) = requests (fst (fetchRankData u now s)).
Proof.
  destruct (negb (enabled s) || String.eqb u "") eqn:G.
  - unfold getOrFetchBadge, fetchRankData. rewrite G. now split.
  - apply orb_false_iff in G. destruct G as [En Nu].
    apply negb_false_iff in En. apply String.eqb_neq in Nu.
    destruct (getOrFetchBadge_two_ways s u now En Nu) as [H|H];
      rewrite H; [|now split].
    unfold resolveAndProject. destruct (fetchRankData u now s) as [s' p].
    apply thenStore_pendingRequests.
Qed.

Lemma step_keys_distinct s e : registry_keys_distinct s -> registry_keys_distinct (step s e).
Proof.
  intros H. destruct e as [u now|u now|u now| |rid o now|rid b now|b]; simpl.
  - now apply fetchRankData_keys_distinct.
  - unfold registry_keys_distinct.
    rewrite (proj1 (getOrFetchBadge_registry u now s)).
    now apply fetchRankData_keys_distinct.
  - unfold getCachedRankData.
    destruct (negb (enabled s) || String.eqb u ""); [exact H|].
    now destruct (LRUCache.get (toLowerCase u) now (rankCache s)).
  - constructor.
  - unfold fetchSettles. destruct (nth_error (requests s) rid) as [[key [| |v]]|]; try exact H.
    destruct o as [|status]; [now apply settle_keys_distinct|].
    destruct (status =? 404)%Z; [now apply settle_keys_distinct|].
    destruct (negb (ok status)); [now apply settle_keys_distinct|exact H].
  - unfold jsonSettles. destruct (nth_error (requests s) rid) as [[key [| |v]]|]; try exact H.
    destruct b as [|body]; [now apply settle_keys_distinct|].
    destruct (readRank body) as [[rec|]|]; now apply settle_keys_distinct.
  - exact H.
Qed.

Lemma run_keys_distinct es : forall s,
  registry_keys_distinct s -> registry_keys_distinct (run s es).
Proof.
  induction es as [|e es IH]; intros s H; simpl; [exact H|].
  apply IH, step_keys_distinct, H.
Qed.

End Registry.

Section RegistryTracksRequests.

(** *** The registry and the requests in flight *)

Lemma tracks_ext s s' :
  pendingRequests s' = pendingRequests s -> requests s' = requests s ->
  registry_tracks_requests s -> registry_tracks_requests s'.
Proof.
  unfold registry_tracks_requests, in_flight_as. intros P R H key rid.
  rewrite P, R. apply H.
Qed.

Lemma fetchRankData_tracks u now s :
  registry_tracks_requests s -> registry_tracks_requests (fst (fetchRankData u now s)).
Proof.
  intros H. unfold fetchRankData.
  destruct (negb (enabled s) || String.eqb u ""); [exact H|].
  destruct (LRUCache.get (toLowerCase u) now (rankCache s)) as [c [v|]]; [exact H|].
  simpl. destruct (OMap.get (toLowerCase u) (pendingRequests s)) eqn:P; [exact H|].
  simpl. unfold registry_tracks_requests, in_flight_as in *. simpl.
  set (k := toLowerCase u) in *. intros key rid. split.
  - intros G. destruct (string_dec key k) as [->|N].
    + rewrite get_set_same in G. injection G as <-.
      exists (mkRequest k AwaitFetch). rewrite nth_error_app2, Nat.sub_diag by lia.
      repeat split.
    + rewrite get_set_other in G by assumption.
      apply H in G. destruct G as (r & A & B & C). exists r.
      rewrite nth_error_app1; [auto|]. apply nth_error_Some. congruence.
  - intros (r & A & B & C).
    destruct (Nat.lt_ge_cases rid (List.length (requests s))) as [L|L].
    + rewrite nth_error_app1 in A by assumption.
      assert (G : OMap.get key (pendingRequests s) = Some rid) by (apply H; eauto).
      destruct (string_dec key k) as [->|N]; [congruence|].
      now rewrite get_set_other.
    + rewrite nth_error_app2 in A by assumption.
      destruct (rid - List.length (requests s))%nat as [|n] eqn:D; simpl in A.
      * injection A as <-. simpl in B. subst key.
        rewrite get_set_same. f_equal. lia.
      * destruct n; discriminate A.
Qed.

Lemma settle_tracks rid key p res s :
  nth_error (requests s) rid = Some (mkRequest key p) ->
  unsettled (mkRequest key p) = true ->
  registry_tracks_requests s -> registry_tracks_requests (settle rid key res s).
Proof.
  intros R U H. unfold registry_tracks_requests, in_flight_as in *.
  rewrite settle_pendingRequests, settle_requests.
  assert (Reg : OMap.get key (pendingRequests s) = Some rid) by (apply H; eauto).
  intros key0 rid0. split.
  - intros G. destruct (string_dec key0 key) as [->|N].
    + now rewrite get_delete_same in G.
    + rewrite get_delete_other in G by assumption.
      apply H in G. destruct G as (r & A & B & C). exists r.
      rewrite nth_error_set_phase_other; [auto|].
      intros ->. rewrite R in A. injection A as <-. simpl in B. congruence.
  - intros (r & A & B & C).
    destruct (Nat.eq_dec rid0 rid) as [->|N].
    + rewrite (nth_error_set_phase_same _ _ _ _ _ R) in A. injection A as <-. discriminate C.
    + rewrite nth_error_set_phase_other in A by assumption.
      assert (G : OMap.get key0 (pendingRequests s) = Some rid0) by (apply H; eauto).
      destruct (string_dec key0 key) as [->|Nk]; [congruence|].
      now rewrite get_delete_other.
Qed.

Lemma awaitJson_tracks rid key s :
  nth_error (requests s) rid = Some (mkRequest key AwaitFetch) ->
  registry_tracks_requests s ->
  registry_tracks_requests (with_requests (set_phase rid AwaitJson (requests s)) s).
Proof.
  intros R H. unfold registry_tracks_requests, in_flight_as in *. simpl.
  intros key0 rid0. rewrite H. split; intros (r & A & B & C).
  - destruct (Nat.eq_dec rid0 rid) as [->|N].
    + rewrite R in A. injection A as <-. simpl in B. subst key0.
      exists (mkRequest key AwaitJson).
      rewrite (nth_error_set_phase_same _ _ _ _ _ R). repeat split.
    + exists r. rewrite nth_error_set_phase_other by assumption. auto.
  - destruct (Nat.eq_dec rid0 rid) as [->|N].
    + rewrite (nth_error_set_phase_same _ _ _ _ _ R) in A. injection A as <-.
      simpl in B. subst key0. exists (mkRequest key AwaitFetch). repeat split. exact R.
    + rewrite nth_error_set_phase_other in A by assumption. eauto.
Qed.

Lemma clearCache_tracks s :
  idle s = true -> registry_tracks_requests s -> registry_tracks_requests (clearCache s).
Proof.
  intros I _. unfold registry_tracks_requests, in_flight_as. simpl.
  intros key rid. split; [discriminate|].
  intros (r & A & B & C). exfalso.
  unfold idle in I. rewrite forallb_forall in I.
  apply nth_error_In in A. apply I in A. rewrite C in A. discriminate.
Qed.

Lemma step_tracks s e :
  (e = CallClearCache -> idle s = true) ->
  registry_tracks_requests s -> registry_tracks_requests (step s e).
Proof.
  intros Calm H. destruct e as [u now|u now|u now| |rid o now|rid b now|b]; simpl.
  - now apply fetchRankData_tracks.
  - destruct (getOrFetchBadge_registry u now s) as [P R].
    apply (tracks_ext _ _ P R). now apply fetchRankData_tracks.
  - unfold getCachedRankData.
    destruct (negb (enabled s) || String.eqb u ""); [exact H|].
    now destruct (LRUCache.get (toLowerCase u) now (rankCache s)).
  - apply clearCache_tracks; auto.
  - unfold fetchSettles.
    destruct (nth_error (requests s) rid) as [[key [| |v]]|] eqn:R; try exact H.
    destruct o as [|status]; [now apply (settle_tracks rid key AwaitFetch)|].
    destruct (status =? 404)%Z.
    { apply (settle_tracks rid key AwaitFetch); [exact R|reflexivity|].
      now apply (tracks_ext s). }
    destruct (negb (ok status)); [now apply (settle_tracks rid key AwaitFetch)|].
    now apply (awaitJson_tracks rid key).
  - unfold jsonSettles.
    destruct (nth_error (requests s) rid) as [[key [| |v]]|] eqn:R; try exact H.
    destruct b as [|body]; [now apply (settle_tracks rid key AwaitJson)|].
    destruct (readRank body) as [[rec|]|];
      try (apply (settle_tracks rid key AwaitJson); [exact R|reflexivity|];
           now apply (tracks_ext s)).
  - exact H.
Qed.

Lemma init_tracks en : registry_tracks_requests (init en).
Proof.
  unfold registry_tracks_requests, in_flight_as. simpl. intros key [|rid]; split;
    try discriminate; intros (r & A & _); discriminate A.
Qed.

End RegistryTracksRequests.

Section RegistrySound.

(** *** Every registry entry is in flight, in every state *)

Lemma fetchRankData_sound u now s :
  registry_sound s -> registry_sound (fst (fetchRankData u now s)).
Proof.
  intros H. unfold fetchRankData.
  destruct (negb (enabled s) || String.eqb u ""); [exact H|].
  destruct (LRUCache.get (toLowerCase u) now (rankCache s)) as [c [v|]]; [exact H|].
  simpl. destruct (OMap.get (toLowerCase u) (pendingRequests s)) eqn:P; [exact H|].
  simpl. unfold registry_sound, in_flight_as in *. simpl.
  set (k := toLowerCase u) in *. intros key rid G.
  destruct (string_dec key k) as [->|N].
  - rewrite get_set_same in G. injection G as <-.
    exists (mkRequest k AwaitFetch). rewrite nth_error_app2, Nat.sub_diag by lia.
    repeat split.
  - rewrite get_set_other in G by assumption.
    apply H in G. destruct G as (r & A & B & C). exists r.
    rewrite nth_error_app1; [auto|]. apply nth_error_Some. congruence.
Qed.

Lemma settle_sound rid key p res s :
  nth_error (requests s) rid = Some (mkRequest key p) ->
  registry_sound s -> registry_sound (settle rid key res s).
Proof.
  intros R H. unfold registry_sound, in_flight_as in *.
  rewrite settle_pendingRequests, settle_requests.
  intros key0 rid0 G. destruct (string_dec key0 key) as [->|N].
  - now rewrite get_delete_same in G.
  - rewrite get_delete_other in G by assumption.
    apply H in G. destruct G as (r & A & B & C). exists r.
    rewrite nth_error_set_phase_other; [auto|].
    intros ->. rewrite R in A. injection A as <-. simpl in B. congruence.
Qed.

Lemma awaitJson_sound rid key s :
  nth_error (requests s) rid = Some (mkRequest key AwaitFetch) ->
  registry_sound s ->
  registry_sound (with_requests (set_phase rid AwaitJson (requests s)) s).
Proof.
  intros R H. unfold registry_sound, in_flight_as in *. simpl.
  intros key0 rid0 G. apply H in G. destruct G as (r & A & B & C).
  destruct (Nat.eq_dec rid0 rid) as [->|N].
  - rewrite R in A. injection A as <-. simpl in B. subst key0.
    exists (mkRequest key AwaitJson).
    rewrite (nth_error_set_phase_same _ _ _ _ _ R). repeat split.
  - exists r. rewrite nth_error_set_phase_other by assumption. auto.
Qed.

Lemma sound_ext s s' :
  pendingRequests s' = pendingRequests s -> requests s' = requests s ->
  registry_sound s -> registry_sound s'.
Proof.
  unfold registry_sound, in_flight_as. intros P R H key rid. rewrite P, R. apply H.
Qed.

Lemma step_sound s e : registry_sound s -> registry_sound (step s e).
Proof.
  intros H. destruct e as [u now|u now|u now| |rid o now|rid b now|b]; simpl.
  - now apply fetchRankData_sound.
  - destruct (getOrFetchBadge_registry u now s) as [P R].
    apply (sound_ext _ _ P R). now apply fetchRankData_sound.
  - unfold getCachedRankData.
    destruct (negb (enabled s) || String.eqb u ""); [exact H|].
    now destruct (LRUCache.get (toLowerCase u) now (rankCache s)).
  - intros key rid G. discriminate G.
  - unfold fetchSettles.
    destruct (nth_error (requests s) rid) as [[key [| |v]]|] eqn:R; try exact H.
    destruct o as [|status]; [now apply (settle_sound rid key AwaitFetch)|].
    destruct (status =? 404)%Z.
    { apply (settle_sound rid key AwaitFetch); [exact R|]. now apply (sound_ext s). }
    destruct (negb (ok status)); [now apply (settle_sound rid key AwaitFetch)|].
    now apply (awaitJson_sound rid key).
  - unfold jsonSettles.
    destruct (nth_error (requests s) rid) as [[key [| |v]]|] eqn:R; try exact H.
    destruct b as [|body]; [now apply (settle_sound rid key AwaitJson)|].
    destruct (readRank body) as [[rec|]|];
      try (apply (settle_sound rid key AwaitJson); [exact R|]; now apply (sound_ext s)).
  - exact H.
Qed.

Lemma run_sound es : forall s, registry_sound s -> registry_sound (run s es).
Proof.
  induction es as [|e es IH]; intros s H; simpl; [exact H|]. apply IH, step_sound, H.
Qed.

Lemma init_sound en : registry_sound (init en).
Proof. intros key rid G. discriminate G. Qed.

(** In an idle state nothing is in flight, so a sound registry is empty and
    tracks the requests. *)
Lemma idle_tracks s :
  idle s = true -> registry_sound s -> registry_tracks_requests s.
Proof.
  intros I S key rid.
  assert (No : ~ in_flight_as s key rid).
  { intros (r & A & B & C). unfold idle in I. rewrite forallb_forall in I.
    apply nth_error_In in A. apply I in A. rewrite C in A. discriminate. }
  split; [intros G; exfalso; apply No, S, G|intros F; contradiction].
Qed.

Lemma run_calm es : forall calm s,
  calm_since_idle calm s es = true ->
  registry_sound s ->
  (calm = true -> registry_tracks_requests s) ->
  registry_tracks_requests (run s es).
Proof.
  induction es as [|e es IH]; intros calm s C S H; simpl in *; [now apply H|].
  apply (IH _ _ C); [now apply step_sound|].
  intros F. apply orb_true_iff in F. destruct F as [F|F].
  - destruct e; try discriminate F; apply step_tracks; try discriminate; now apply H.
  - apply idle_tracks; [exact F|now apply step_sound].
Qed.

(** A run that clears only when idle is calm at every point. *)
Lemma clears_when_idle_calm es : forall s,
  clears_when_idle s es = true -> calm_since_idle true s es = true.
Proof.
  induction es as [|e es IH]; intros s C; simpl in *; [reflexivity|].
  apply andb_true_iff in C. destruct C as [C1 C2].
  destruct e; simpl; try (now apply IH).
  change (idle (clearCache s)) with (idle s). rewrite C1. now apply IH.
Qed.

End RegistrySound.

Lemma settled_by_settle rid key p res s :
  nth_error (requests s) rid = Some (mkRequest key p) ->
  settled_by (settle rid key res s) rid key.
Proof.
  intros R. unfold settled_by.
  rewrite settle_pendingRequests, settle_isLoading, get_delete_same.
  repeat split. exists res. eapply settle_resolution, R.
Qed.

(** C1 (as amended).  In every state the module can reach:
    - the registry holds at most one entry per key, and every entry names a
      request that is in flight for its key;
    - when a request settles, on any exit path (rejected fetch, 404, another
      error status, unreadable body, invalid or valid body, or an exception
      while reading it), the entry of its key is removed, the loading flag is
      lowered and its promise is resolved.
    For calls with ASCII usernames and an uncached key:
    - a resolve issued while the registry has an entry for the key sends
      nothing and returns the promise of the registered lookup, which is in
      flight;
    - a resolve issued while no lookup for the key is in flight sends exactly
      one request, and a second resolve of the same normalized username sends
      nothing and returns the same promise, so that both resolve to equal
      results.
    If moreover [clearCache] has not been called since the module was last
    idle, the registry lists every request in flight: at most one request is
    in flight for each key, and a resolve issued while a lookup for the key
    is in flight sends nothing and returns the promise of that lookup.  A run
    that calls [clearCache] only while no request is in flight is such a
    run. *)
Theorem one_request_in_flight_per_key :
  forall (en : bool) (es : list event),
    let s := run (init en) es in
    registry_keys_distinct s /\
    registry_sound s /\
    (forall rid key now,
       (nth_error (requests s) rid = Some (mkRequest key AwaitFetch) ->
        forall o,
          o = FetchRejected \/ (exists status, o = Response status /\ ok status = false) ->
          settled_by (fetchSettles rid o now s) rid key) /\
       (nth_error (requests s) rid = Some (mkRequest key AwaitJson) ->
        forall b, settled_by (jsonSettles rid b now s) rid key)) /\
    (ascii_calls es = true ->
     forall u now,
       all_ascii u = true -> enabled s = true -> u <> "" ->
       snd (LRUCache.get u now (rankCache s)) = None ->
       (forall rid, OMap.get (toLowerCase u) (pendingRequests s) = Some rid ->
          in_flight_as s (toLowerCase u) rid /\
          snd (fetchRankData u now s) = Follows rid /\
          outbound (fst (fetchRankData u now s)) = outbound s) /\
       (~ in_flight s (toLowerCase u) ->
          let s1 := fst (fetchRankData u now s) in
          let p1 := snd (fetchRankData u now s) in
          p1 = Follows (List.length (requests s)) /\
          outbound s1 = (outbound s ++ [url_of (toLowerCase u)])%list /\
          in_flight_as s1 (toLowerCase u) (List.length (requests s)) /\
          forall u2 now2,
            all_ascii u2 = true ->
            toLowerCase u2 = toLowerCase u ->
            snd (LRUCache.get u2 now2 (rankCache s1)) = None ->
            let p2 := snd (fetchRankData u2 now2 s1) in
            p2 = p1 /\
            outbound (fst (fetchRankData u2 now2 s1)) = outbound s1 /\
            forall s', resolution p2 s' = resolution p1 s')) /\
    (calm_since_idle true (init en) es = true ->
     registry_tracks_requests s /\
     (forall key rid rid',
        in_flight_as s key rid -> in_flight_as s key rid' -> rid = rid') /\
     (ascii_calls es = true ->
      forall u now,
        all_ascii u = true -> enabled s = true -> u <> "" ->
        snd (LRUCache.get u now (rankCache s)) = None ->
        forall rid, in_flight_as s (toLowerCase u) rid ->
          snd (fetchRankData u now s) = Follows rid /\
          outbound (fst (fetchRankData u now s)) = outbound s)) /\
    (clears_when_idle (init en) es = true -> calm_since_idle true (init en) es = true).
Proof.
  intros en es s.
  assert (Snd : registry_sound s) by apply run_sound, init_sound.
  split; [|split; [exact Snd|split; [|split; [|split]]]].
  - apply run_keys_distinct. constructor.
  - intros rid key now. split.
    + intros R o Ho. unfold fetchSettles. rewrite R.
      destruct Ho as [->|(status & -> & Nok)].
      * eapply settled_by_settle, R.
      * rewrite Nok. destruct (status =? 404)%Z; simpl.
        -- apply (settled_by_settle rid key AwaitFetch). exact R.
        -- eapply settled_by_settle, R.
    + intros R b. unfold jsonSettles. rewrite R.
      destruct b as [|body]; [eapply settled_by_settle, R|].
      destruct (readRank body) as [[rec|]|];
        try (apply (settled_by_settle rid key AwaitJson); exact R).
  - intros _ u now _ En Nu Miss. split.
    + intros rid G. split; [now apply Snd|].
      rewrite (fetchRankData_attach u now s rid En Nu Miss G). now split.
    + intros NF.
      assert (P : OMap.get (toLowerCase u) (pendingRequests s) = None).
      { destruct (OMap.get (toLowerCase u) (pendingRequests s)) as [rid|] eqn:G; [|reflexivity].
        exfalso. apply NF. exists rid. now apply Snd. }
      rewrite (fetchRankData_issue u now s En Nu Miss P). cbn [fst snd].
      split; [reflexivity|]. split; [|split].
      * unfold outbound. simpl. now rewrite map_app.
      * exists (mkRequest (toLowerCase u) AwaitFetch). simpl.
        rewrite nth_error_app2 by apply Nat.le_refl. rewrite Nat.sub_diag. repeat split.
      * intros u2 now2 _ E2 Miss2.
        assert (Nu2 : u2 <> "").
        { intros ->. simpl in E2. symmetry in E2.
          apply (proj1 (toLowerCase_empty u)) in E2. contradiction. }
        match type of Miss2 with
        | snd (LRUCache.get _ _ (rankCache ?st)) = None => set (s1 := st) in *
        end.
        assert (P2 : OMap.get (toLowerCase u2) (pendingRequests s1)
                     = Some (List.length (requests s))).
        { rewrite E2. subst s1. simpl. apply get_set_same. }
        rewrite (fetchRankData_attach u2 now2 s1 _ eq_refl Nu2 Miss2 P2). cbn [fst snd].
        repeat split.
  - intros Calm.
    assert (Tr : registry_tracks_requests s).
    { apply (run_calm es true (init en) Calm (init_sound en)). intros _. apply init_tracks. }
    split; [exact Tr|]. split.
    { intros key rid rid' F F'. apply Tr in F, F'. congruence. }
    intros _ u now _ En Nu Miss rid F. apply Tr in F.
    rewrite (fetchRankData_attach u now s rid En Nu Miss F). now split.
  - apply clears_when_idle_calm.
Qed.

Lemma one_request_in_flight_per_key_witness :
  let s := run (init true)
             [CallFetchRankData "a" 0%Z; CallClearCache; FetchSettles 0 FetchRejected 1%Z] in
  let first := fetchRankData "Foo" 2%Z s in
  let second := fetchRankData "FOO" 3%Z (fst first) in
  snd second = snd first /\
  outbound (fst second) = [url_of "a"; url_of "foo"] /\
  registry_tracks_requests s.
Proof.
  intros s first second.
  destruct (one_request_in_flight_per_key true
              [CallFetchRankData "a" 0%Z; CallClearCache; FetchSettles 0 FetchRejected 1%Z])
    as (_ & _ & _ & H & C & _).
  assert (N : "Foo" <> "") by discriminate.
  destruct (H eq_refl "Foo" 2%Z eq_refl eq_refl N eq_refl) as [_ H2].
  assert (NF : ~ in_flight s (toLowerCase "Foo")).
  { intros (rid & r & A & B & U). destruct rid as [|[|rid]]; try discriminate A.
    injection A as <-. discriminate U. }
  destruct (H2 NF) as (_ & _ & _ & H3).
  destruct (H3 "FOO" 3%Z eq_refl eq_refl eq_refl) as (A & B & _).
  split; [exact A|]. split; [exact B|]. exact (proj1 (C eq_refl)).
Defined.

(** C1 as it is stated fails after [clearCache]: the reset empties the
    registry while the first lookup is still in flight, and the next resolve
    of the key sends a second request. *)
Lemma clearCache_breaks_deduplication : ~ dedup_as_stated.
Proof.
  intros H.
  specialize (H [CallFetchRankData "a" 0%Z; CallClearCache] "a" 1%Z).
  assert (N : "a" <> "") by discriminate.
  assert (F : in_flight (run (init true) [CallFetchRankData "a" 0%Z; CallClearCache])
                (toLowerCase "a")).
  { exists 0, (mkRequest "a" AwaitFetch). repeat split. }
  specialize (H eq_refl N eq_refl F). discriminate H.
Qed.

(** The two requests of that run, both waiting for their response. *)
Example clearCache_then_two_requests_in_flight :
  requests (run (init true) [CallFetchRankData "a" 0%Z; CallClearCache; CallFetchRankData "a" 1%Z])
  = [mkRequest "a" AwaitFetch; mkRequest "a" AwaitFetch].
Proof. reflexivity. Qed.

(* ================================================================== *)
(** ** The bounded cache: capacity *)
(* ================================================================== *)

Section Capacity.
Open Scope Z_scope.

Lemma in_keys_delete {V} k k' (m : list (string * V)) :
  In k' (OMap.keys (OMap.delete k m)) -> In k' (OMap.keys m).
Proof. rewrite keys_delete. intros H. now apply in_remove in H. Qed.

Lemma in_keys_set {V} k k' (v : V) (m : list (string * V)) :
  In k' (OMap.keys (OMap.set k v m)) -> k' = k \/ In k' (OMap.keys m).
Proof.
  destruct (OMap.get k m) eqn:G.
  - rewrite keys_set_old by congruence. auto.
  - rewrite keys_set_new by assumption. intros H. apply in_app_or in H.
    destruct H as [H|[H|[]]]; auto.
Qed.

Lemma length_set_le {V} k (v : V) (m : list (string * V)) :
  (List.length (OMap.set k v m) <= S (List.length m))%nat.
Proof.
  destruct (OMap.get k m) eqn:G.
  - rewrite length_set_old by congruence. lia.
  - rewrite length_set_new by assumption. lia.
Qed.

Lemma get_bounded u now c : bounded c -> bounded (fst (LRUCache.get u now c)).
Proof.
  unfold bounded, LRUCache.size. intros (L & M & E). unfold LRUCache.get.
  destruct (OMap.get (toLowerCase u) (LRUCache.cache c)) as [e|] eqn:G; [|now repeat split].
  assert (P : OMap.get (toLowerCase u) (LRUCache.cache c) <> None) by congruence.
  pose proof (length_delete_present _ _ P) as LD.
  destruct (now - timestamp e >? LRUCache.cacheDuration e); simpl.
  - split; [lia|]. split; [exact M|]. intros I. apply E. eapply in_keys_delete, I.
  - split; [|split; [exact M|]].
    + rewrite length_set_new by apply get_delete_same. lia.
    + intros I. apply in_keys_set in I. destruct I as [I|I].
      * apply E. rewrite I. apply has_true_iff. unfold OMap.has. now rewrite G.
      * apply E. eapply in_keys_delete, I.
Qed.

Lemma set_bounded u d now c : u <> "" -> bounded c -> bounded (LRUCache.set u d now c).
Proof.
  unfold bounded, LRUCache.size. intros Nu (L & M & E). unfold LRUCache.set. simpl.
  assert (Nk : toLowerCase u <> "").
  { intros X. apply (proj1 (toLowerCase_empty u)) in X. contradiction. }
  set (k := toLowerCase u) in *. set (m := LRUCache.cache c) in *.
  split; [|split; [exact M|]].
  - destruct (Z.of_nat (List.length m) >=? LRUCache.maxSize c) eqn:Full;
      [destruct (OMap.has k m) eqn:Hk|]; simpl.
    + unfold OMap.has in Hk. destruct (OMap.get k m) eqn:G; [|discriminate].
      rewrite length_set_old by congruence. exact L.
    + assert (G : OMap.get k m = None).
      { unfold OMap.has in Hk. now destruct (OMap.get k m). }
      destruct m as [|[fk fv] m'] eqn:Em; simpl OMap.firstKey.
      * simpl in Full. apply Z.geb_le in Full. lia.
      * assert (Nf : fk <> "") by (intros ->; apply E; now left).
        apply String.eqb_neq in Nf. cbv beta iota. rewrite Nf. cbn [negb].
        assert (P : OMap.get fk ((fk, fv) :: m') <> None).
        { unfold OMap.get. simpl. now rewrite String.eqb_refl. }
        pose proof (length_delete_present _ _ P) as LD.
        pose proof (length_set_le k {| data := d; timestamp := now |}
                      (OMap.delete fk ((fk, fv) :: m'))) as LS.
        lia.
    + rewrite Z.geb_leb in Full. apply Z.leb_gt in Full.
      pose proof (length_set_le k {| data := d; timestamp := now |} m). lia.
  - intros I. apply in_keys_set in I. destruct I as [I|I]; [congruence|].
    destruct (Z.of_nat (List.length m) >=? LRUCache.maxSize c); [|now apply E].
    destruct (negb (OMap.has k m)); simpl in I; [|now apply E].
    destruct (OMap.firstKey m) as [fk|]; [|now apply E].
    destruct (negb (String.eqb fk "")); [|now apply E].
    apply E. eapply in_keys_delete, I.
Qed.

Lemma clear_bounded c : (1 <= LRUCache.maxSize c) -> bounded (LRUCache.clear c).
Proof. intros M. unfold bounded, LRUCache.size. simpl. repeat split; auto. lia. Qed.

Lemma apply_ops_bounded ops : forall c,
  nonempty_sets ops -> bounded c -> bounded (apply_ops c ops).
Proof.
  induction ops as [|op ops IH]; intros c N B; simpl; [exact B|].
  apply IH.
  - intros u d now I. apply (N u d now). now right.
  - destruct op as [u now|u d now|]; simpl.
    + now apply get_bounded.
    + apply set_bounded; [|exact B]. apply (N u d now). now left.
    + apply clear_bounded. apply B.
Qed.

(** *** The cache of the module *)

Lemma getOrFetchBadge_rankCache u now s :
  rankCache (getOrFetchBadge u now s) = rankCache (fst (fetchRankData u now s)).
Proof.
  destruct (negb (enabled s) || String.eqb u "") eqn:G.
  - unfold getOrFetchBadge, fetchRankData. now rewrite G.
  - apply orb_false_iff in G. destruct G as [En Nu].
    apply negb_false_iff in En. apply String.eqb_neq in Nu.
    destruct (getOrFetchBadge_two_ways s u now En Nu) as [H|H];
      rewrite H; [|reflexivity].
    unfold resolveAndProject. destruct (fetchRankData u now s) as [s' p]. simpl.
    unfold thenStore. destruct (resolution p s').
    + now destruct (storeBadge_frame (toLowerCase u) o s') as (_ & _ & -> & _).
    + now destruct p.
Qed.

Lemma fetchRankData_in_bounds u now s :
  cache_in_bounds s -> cache_in_bounds (fst (fetchRankData u now s)).
Proof.
  unfold cache_in_bounds. intros [B R]. unfold fetchRankData.
  destruct (negb (enabled s) || String.eqb u "") eqn:G; [now split|].
  apply orb_false_iff in G. destruct G as [_ Nu]. apply String.eqb_neq in Nu.
  pose proof (get_bounded (toLowerCase u) now (rankCache s) B) as GB.
  destruct (LRUCache.get (toLowerCase u) now (rankCache s)) as [c [v|]]; [now split|].
  simpl in *. destruct (OMap.get (toLowerCase u) (pendingRequests s)); [now split|].
  simpl. split; [exact GB|]. rewrite map_app. intros I. apply in_app_or in I.
  destruct I as [I|[I|[]]]; [contradiction|]. simpl in I.
  apply (proj1 (toLowerCase_empty u)) in I. contradiction.
Qed.

Lemma settle_in_bounds rid key res s :
  cache_in_bounds s -> cache_in_bounds (settle rid key res s).
Proof.
  unfold cache_in_bounds. rewrite settle_rankCache, settle_requests, keys_set_phase. auto.
Qed.

Lemma cacheSet_in_bounds rid key p d now s :
  nth_error (requests s) rid = Some (mkRequest key p) ->
  cache_in_bounds s -> cache_in_bounds (cacheSet key d now s).
Proof.
  unfold cache_in_bounds. intros R [B N]. simpl. split; [|exact N].
  apply set_bounded; [|exact B]. intros ->. apply N.
  apply nth_error_In in R. apply (in_map req_key) in R. exact R.
Qed.

Lemma step_in_bounds s e : cache_in_bounds s -> cache_in_bounds (step s e).
Proof.
  intros H. destruct e as [u now|u now|u now| |rid o now|rid b now|b]; simpl.
  - now apply fetchRankData_in_bounds.
  - unfold cache_in_bounds.
    rewrite getOrFetchBadge_rankCache, (proj2 (getOrFetchBadge_registry u now s)).
    now apply fetchRankData_in_bounds.
  - unfold getCachedRankData.
    destruct (negb (enabled s) || String.eqb u ""); [exact H|].
    pose proof (get_bounded (toLowerCase u) now (rankCache s) (proj1 H)) as GB.
    destruct (LRUCache.get (toLowerCase u) now (rankCache s)). simpl in *.
    split; [exact GB|apply H].
  - destruct H as [B N]. split; [|exact N]. simpl. apply clear_bounded, B.
  - unfold fetchSettles.
    destruct (nth_error (requests s) rid) as [[key [| |v]]|] eqn:R; try exact H.
    destruct o as [|status]; [now apply settle_in_bounds|].
    destruct (status =? 404).
    { apply settle_in_bounds. eapply cacheSet_in_bounds; eauto. }
    destruct (negb (ok status)); [now apply settle_in_bounds|].
    destruct H as [B N]. split; [exact B|]. simpl. now rewrite keys_set_phase.
  - unfold jsonSettles.
    destruct (nth_error (requests s) rid) as [[key [| |v]]|] eqn:R; try exact H.
    destruct b as [|body]; [now apply settle_in_bounds|].
    destruct (readRank body) as [[rec|]|]; apply settle_in_bounds; try exact H;
      eapply cacheSet_in_bounds; eauto.
  - exact H.
Qed.

Lemma run_in_bounds es : forall s, cache_in_bounds s -> cache_in_bounds (run s es).
Proof.
  induction es as [|e es IH]; intros s H; simpl; [exact H|].
  apply IH, step_in_bounds, H.
Qed.

Lemma init_in_bounds en : cache_in_bounds (init en).
Proof.
  unfold cache_in_bounds, bounded, LRUCache.size, init. simpl.
  repeat split; auto; unfold MAX_CACHE_SIZE; lia.
Qed.

End Capacity.

(* ================================================================== *)
(** ** The bounded cache: eviction order *)
(* ================================================================== *)

(** The cache after a [set] of a key that is in it. *)
Lemma set_present u d now c :
  OMap.get (toLowerCase u) (LRUCache.cache c) <> None ->
  LRUCache.cache (LRUCache.set u d now c)
  = OMap.set (toLowerCase u) {| data := d; timestamp := now |} (LRUCache.cache c).
Proof.
  intros P. unfold LRUCache.set, OMap.has.
  destruct (OMap.get (toLowerCase u) (LRUCache.cache c)); [|contradiction].
  now rewrite andb_false_r.
Qed.

Section TouchOrder.

Lemma sorted_stamps_NoDup (f : string -> nat) l :
  StronglySorted lt (map f l) -> NoDup l.
Proof.
  induction l as [|x l IH]; simpl; intros H; [constructor|].
  apply StronglySorted_inv in H. destruct H as [H F].
  constructor; [|now apply IH].
  intros I. rewrite Forall_forall in F.
  specialize (F (f x) (in_map f _ _ I)). lia.
Qed.

Lemma sorted_remove (f : string -> nat) x l :
  StronglySorted lt (map f l) -> StronglySorted lt (map f (remove string_dec x l)).
Proof.
  induction l as [|y l IH]; simpl; intros H; [constructor|].
  apply StronglySorted_inv in H. destruct H as [H F].
  destruct (string_dec x y); [now apply IH|].
  simpl. constructor; [now apply IH|].
  rewrite Forall_forall in *. intros z I. apply in_map_iff in I.
  destruct I as (w & <- & I). apply in_remove in I. apply F, in_map, I.
Qed.

Lemma map_update_notin (f : string -> nat) k v l :
  ~ In k l -> map (fun k' => if String.eqb k' k then v else f k') l = map f l.
Proof.
  induction l as [|x l IH]; simpl; intros N; [reflexivity|].
  destruct (String.eqb_spec x k) as [->|_]; [exfalso; apply N; now left|].
  rewrite IH; [reflexivity|]. intros I. apply N. now right.
Qed.

Lemma sorted_snoc (f : string -> nat) k l :
  StronglySorted lt (map f l) -> Forall (fun x => f x < f k) l ->
  StronglySorted lt (map f (l ++ [k])).
Proof.
  induction l as [|x l IH]; simpl; intros H F.
  - repeat constructor.
  - apply StronglySorted_inv in H. destruct H as [H Fx].
    inversion F as [|? ? Fk Fl]; subst.
    constructor; [now apply IH|].
    rewrite map_app, Forall_app. split; [exact Fx|].
    constructor; [exact Fk|constructor].
Qed.

(** Touching [k] moves it behind the keys that stay, in touch order. *)
Lemma touch_order_snoc (st : string -> nat) n k l :
  StronglySorted lt (map st l) -> Forall (fun x => st x <= n) l -> ~ In k l ->
  let st' := fun k' => if String.eqb k' k then S n else st k' in
  StronglySorted lt (map st' (l ++ [k])) /\ Forall (fun x => st' x <= S n) (l ++ [k]).
Proof.
  intros S F N st'.
  assert (Ek : st' k = Datatypes.S n) by (unfold st'; now rewrite String.eqb_refl).
  assert (El : forall x, In x l -> st' x = st x).
  { intros x I. unfold st'. destruct (String.eqb_spec x k) as [->|]; [contradiction|reflexivity]. }
  split.
  - apply sorted_snoc.
    + unfold st'. now rewrite map_update_notin.
    + rewrite Forall_forall in *. intros x I. rewrite Ek, (El x I). specialize (F x I). lia.
  - rewrite Forall_app. split.
    + rewrite Forall_forall in *. intros x I. rewrite (El x I). specialize (F x I). lia.
    + constructor; [rewrite Ek; lia|constructor].
Qed.

Lemma Forall_remove (P : string -> Prop) x l :
  Forall P l -> Forall P (remove string_dec x l).
Proof.
  rewrite !Forall_forall. intros F y I. apply in_remove in I. apply F, I.
Qed.

Lemma Forall_le_S (st : string -> nat) n l :
  Forall (fun x => st x <= n) l -> Forall (fun x => st x <= S n) l.
Proof. apply Forall_impl. intros; lia. Qed.

(** The keys after a [set] of a key that is not in the cache. *)
Lemma set_new_key_keys u d now c :
  OMap.get (toLowerCase u) (LRUCache.cache c) = None ->
  bounded c ->
  OMap.keys (LRUCache.cache (LRUCache.set u d now c))
  = ((if (Z.of_nat (LRUCache.size c) >=? LRUCache.maxSize c)%Z
      then match OMap.keys (LRUCache.cache c) with
           | [] => []
           | fk :: _ => remove string_dec fk (OMap.keys (LRUCache.cache c))
           end
      else OMap.keys (LRUCache.cache c)) ++ [toLowerCase u])%list.
Proof.
  intros G (L & M & E). unfold LRUCache.set, LRUCache.size. simpl.
  unfold OMap.has. rewrite G. cbn [negb]. rewrite andb_true_r.
  destruct (Z.of_nat (List.length (LRUCache.cache c)) >=? LRUCache.maxSize c)%Z.
  - destruct (LRUCache.cache c) as [|[fk fv] m'] eqn:Em; [reflexivity|].
    cbn [OMap.firstKey].
    assert (Nf : fk <> "") by (intros ->; apply E; now left).
    apply String.eqb_neq in Nf. rewrite Nf. cbn [negb].
    rewrite keys_set_new.
    + now rewrite keys_delete.
    + rewrite get_delete_other; [exact G|].
      intros X. rewrite X in G. unfold OMap.get in G. simpl in G.
      now rewrite String.eqb_refl in G.
  - now rewrite keys_set_new.
Qed.

Lemma placed_step_order t op :
  match op with
  | OpSet u _ _ => u <> ""
  | _ => True
  end ->
  bounded (tc t) -> in_touch_order t -> in_touch_order (placed_step t op).
Proof.
  intros Cond B [S F]. unfold in_touch_order, placed_step. cbn [tc clock stamp].
  destruct op as [u now|u d now|]; cbn [apply_op moved].
  - unfold LRUCache.get.
    destruct (OMap.get (toLowerCase u) (LRUCache.cache (tc t))) as [e|] eqn:G; simpl.
    + destruct (now - timestamp e >? LRUCache.cacheDuration e)%Z; simpl.
      * rewrite keys_delete. split; [now apply sorted_remove|].
        apply Forall_le_S, Forall_remove, F.
      * rewrite keys_set_new by apply get_delete_same. rewrite keys_delete.
        apply touch_order_snoc.
        -- now apply sorted_remove.
        -- now apply Forall_remove.
        -- apply remove_In.
    + split; [exact S|now apply Forall_le_S].
  - unfold OMap.has.
    destruct (OMap.get (toLowerCase u) (LRUCache.cache (tc t))) as [e|] eqn:G.
    + assert (P : OMap.get (toLowerCase u) (LRUCache.cache (tc t)) <> None) by congruence.
      rewrite (set_present u d now (tc t) P), keys_set_old by exact P.
      split; [exact S|now apply Forall_le_S].
    + rewrite (set_new_key_keys u d now (tc t) G B).
      assert (NI : ~ In (toLowerCase u) (OMap.keys (LRUCache.cache (tc t))))
        by now apply get_None_notin.
      destruct (Z.of_nat (LRUCache.size (tc t)) >=? LRUCache.maxSize (tc t))%Z.
      * destruct (OMap.keys (LRUCache.cache (tc t))) as [|fk ks] eqn:Ek.
        -- apply (touch_order_snoc (stamp t) (clock t) (toLowerCase u) []);
             [constructor|constructor|intros []].
        -- apply touch_order_snoc.
           ++ now apply sorted_remove.
           ++ now apply Forall_remove.
           ++ intros I. apply in_remove in I. tauto.
      * now apply touch_order_snoc.
  - split; constructor.
Qed.

Lemma placed_fold ops : forall t,
  nonempty_sets ops -> bounded (tc t) -> in_touch_order t ->
  let t' := fold_left placed_step ops t in
  tc t' = apply_ops (tc t) ops /\ bounded (tc t') /\ in_touch_order t'.
Proof.
  induction ops as [|op ops IH]; intros t N B O; simpl;
    [split; [reflexivity|split; assumption]|].
  assert (N' : nonempty_sets ops) by (intros u d now I; apply (N u d now); now right).
  assert (Cond : match op with OpSet u _ _ => u <> "" | _ => True end).
  { destruct op as [u now|u d now|]; try exact I. apply (N u d now). now left. }
  apply (IH (placed_step t op)).
  - exact N'.
  - destruct op as [u now|u d now|]; simpl.
    + now apply get_bounded.
    + now apply set_bounded.
    + apply clear_bounded, B.
  - now apply placed_step_order.
Qed.

End TouchOrder.

Lemma apply_ops_maxSize ops : forall c,
  LRUCache.maxSize (apply_ops c ops) = LRUCache.maxSize c.
Proof.
  induction ops as [|op ops IH]; intros c; simpl; [reflexivity|].
  rewrite IH. destruct op as [u now|u d now|]; simpl; try reflexivity.
  unfold LRUCache.get. destruct (OMap.get (toLowerCase u) (LRUCache.cache c)) as [e|];
    [|reflexivity].
  now destruct (now - timestamp e >? LRUCache.cacheDuration e)%Z.
Qed.

(** Distinct new keys that fit into the cache are all kept, in the order
    of their insertion. *)
Lemma sets_within_capacity ops : forall c,
  bounded c -> nonempty_sets ops -> only_sets ops = true ->
  NoDup (OMap.keys (LRUCache.cache c) ++ set_keys ops) ->
  (Z.of_nat (LRUCache.size c) + Z.of_nat (List.length ops) <= LRUCache.maxSize c)%Z ->
  OMap.keys (LRUCache.cache (apply_ops c ops))
  = (OMap.keys (LRUCache.cache c) ++ set_keys ops)%list.
Proof.
  induction ops as [|op ops IH]; intros c B N O ND Fit; simpl.
  { now rewrite app_nil_r. }
  destruct op as [u now|u d now|]; try discriminate O.
  simpl in O, ND. cbn [List.length] in Fit. rewrite Nat2Z.inj_succ in Fit.
  assert (Nu : u <> "") by (apply (N u d now); now left).
  assert (G : OMap.get (toLowerCase u) (LRUCache.cache c) = None).
  { apply get_None_notin. intros I. apply NoDup_remove_2 in ND. apply ND.
    apply in_or_app. now left. }
  pose proof (set_new_key_keys u d now c G B) as K.
  destruct (Z.geb_spec (Z.of_nat (LRUCache.size c)) (LRUCache.maxSize c)) as [Ge|_]; [lia|].
  assert (Sz : LRUCache.size (LRUCache.set u d now c) = S (LRUCache.size c)).
  { pose proof (f_equal (@List.length string) K) as KL.
    unfold OMap.keys in KL. rewrite length_app, !length_map in KL.
    cbn [List.length] in KL. unfold LRUCache.size. lia. }
  change (apply_op c (OpSet u d now)) with (LRUCache.set u d now c).
  rewrite IH.
  - rewrite K, <- app_assoc. reflexivity.
  - now apply set_bounded.
  - intros u0 d0 now0 I. apply (N u0 d0 now0). now right.
  - exact O.
  - rewrite K, <- app_assoc. exact ND.
  - rewrite Sz. change (LRUCache.maxSize (LRUCache.set u d now c)) with (LRUCache.maxSize c).
    lia.
Qed.

(** The cache after a [set] of a key that is not in it. *)
Lemma set_new_key_cache u d now c :
  OMap.get (toLowerCase u) (LRUCache.cache c) = None ->
  bounded c ->
  LRUCache.cache (LRUCache.set u d now c)
  = OMap.set (toLowerCase u) {| data := d; timestamp := now |}
      (if (Z.of_nat (LRUCache.size c) >=? LRUCache.maxSize c)%Z
       then match OMap.firstKey (LRUCache.cache c) with
            | Some fk => OMap.delete fk (LRUCache.cache c)
            | None => LRUCache.cache c
            end
       else LRUCache.cache c).
Proof.
  intros G (L & M & E). unfold LRUCache.set, LRUCache.size. simpl.
  unfold OMap.has. rewrite G. cbn [negb]. rewrite andb_true_r.
  destruct (Z.of_nat (List.length (LRUCache.cache c)) >=? LRUCache.maxSize c)%Z; [|reflexivity].
  destruct (LRUCache.cache c) as [|[fk fv] m'] eqn:Em; [reflexivity|].
  cbn [OMap.firstKey].
  assert (Nf : fk <> "") by (intros ->; apply E; now left).
  apply String.eqb_neq in Nf. now rewrite Nf.
Qed.

Lemma step_maxSize s e :
  LRUCache.maxSize (rankCache (step s e)) = LRUCache.maxSize (rankCache s).
Proof.
  assert (G : forall u now c, LRUCache.maxSize (fst (LRUCache.get u now c)) = LRUCache.maxSize c).
  { intros u now c. exact (apply_ops_maxSize [OpGet u now] c). }
  assert (F : forall u now s0,
             LRUCache.maxSize (rankCache (fst (fetchRankData u now s0)))
             = LRUCache.maxSize (rankCache s0)).
  { intros u now s0. unfold fetchRankData.
    destruct (negb (enabled s0) || String.eqb u ""); [reflexivity|].
    specialize (G (toLowerCase u) now (rankCache s0)).
    destruct (LRUCache.get (toLowerCase u) now (rankCache s0)) as [c [v|]]; [exact G|].
    simpl in *. now destruct (OMap.get (toLowerCase u) (pendingRequests s0)). }
  destruct e as [u now|u now|u now| |rid o now|rid b now|b]; simpl.
  - apply F.
  - rewrite getOrFetchBadge_rankCache. apply F.
  - unfold getCachedRankData.
    destruct (negb (enabled s) || String.eqb u ""); [reflexivity|].
    specialize (G (toLowerCase u) now (rankCache s)).
    now destruct (LRUCache.get (toLowerCase u) now (rankCache s)).
  - reflexivity.
  - unfold fetchSettles.
    destruct (nth_error (requests s) rid) as [[key [| |v]]|]; try reflexivity.
    destruct o as [|status]; [now rewrite settle_rankCache|].
    destruct (status =? 404)%Z; [now rewrite settle_rankCache|].
    destruct (negb (ok status)); [now rewrite settle_rankCache|reflexivity].
  - unfold jsonSettles.
    destruct (nth_error (requests s) rid) as [[key [| |v]]|]; try reflexivity.
    destruct b as [|body]; [now rewrite settle_rankCache|].
    destruct (readRank body) as [[rec|]|]; now rewrite settle_rankCache.
  - reflexivity.
Qed.

Lemma run_maxSize es : forall s,
  LRUCache.maxSize (rankCache (run s es)) = LRUCache.maxSize (rankCache s).
Proof.
  induction es as [|e es IH]; intros s; simpl; [reflexivity|].
  now rewrite IH, step_maxSize.
Qed.

(** C3 (as amended).  The entry count never exceeds the capacity: for the
    cache class with a positive capacity and non-empty usernames, after every
    sequence of [get], [set] and [clear]; and for the cache of the module,
    with its 500 entries, in every state the module can reach.  After any
    such sequence with ASCII usernames:
    - [set]s of distinct keys, no more than the capacity, into a new cache
      evict nothing: the cache holds them all, in the order of insertion;
    - a [set] on a key that is cached evicts nothing and leaves the keys in
      their order;
    - a [set] of a new key into a cache that is not full evicts nothing: the
      key goes to the back and every entry stays;
    - a [set] of a new key into a full cache evicts exactly the key at the
      head, which is the key least recently inserted or hit (a [get] that
      hits moves its key to the back, a [set] on a cached key does not);
      every other key keeps its entry and is returned by [get] as long as the
      entry has not expired. *)
Theorem cache_is_bounded_and_evicts_least_recently_touched :
  (forall cap ops,
     (1 <= cap)%Z -> nonempty_sets ops ->
     (Z.of_nat (LRUCache.size (apply_ops (LRUCache.new cap) ops)) <= cap)%Z) /\
  (forall en es,
     (Z.of_nat (LRUCache.size (rankCache (run (init en) es))) <= MAX_CACHE_SIZE)%Z) /\
  (forall cap ops,
     (1 <= cap)%Z -> nonempty_sets ops -> ascii_ops ops = true ->
     only_sets ops = true -> NoDup (set_keys ops) ->
     (Z.of_nat (List.length ops) <= cap)%Z ->
     OMap.keys (LRUCache.cache (apply_ops (LRUCache.new cap) ops)) = set_keys ops) /\
  (forall cap ops u d now,
     (1 <= cap)%Z ->
     nonempty_sets (ops ++ [OpSet u d now]) ->
     ascii_ops (ops ++ [OpSet u d now]) = true ->
     let t := placed_run cap ops in
     let c := apply_ops (LRUCache.new cap) ops in
     let c' := LRUCache.set u d now c in
     (OMap.get (toLowerCase u) (LRUCache.cache c) <> None ->
      OMap.keys (LRUCache.cache c') = OMap.keys (LRUCache.cache c)) /\
     (OMap.get (toLowerCase u) (LRUCache.cache c) = None ->
      (Z.of_nat (LRUCache.size c) < cap ->
       OMap.keys (LRUCache.cache c')
       = (OMap.keys (LRUCache.cache c) ++ [toLowerCase u])%list /\
       forall k entry,
         OMap.get k (LRUCache.cache c) = Some entry ->
         OMap.get k (LRUCache.cache c') = Some entry)%Z /\
      (Z.of_nat (LRUCache.size c) = cap ->
       exists victim rest,
         OMap.keys (LRUCache.cache c) = victim :: rest /\
         (forall k, In k rest -> stamp t victim < stamp t k)%nat /\
         OMap.keys (LRUCache.cache c') = (rest ++ [toLowerCase u])%list /\
         OMap.get victim (LRUCache.cache c') = None /\
         (forall k entry,
            In k rest -> OMap.get k (LRUCache.cache c) = Some entry ->
            OMap.get k (LRUCache.cache c') = Some entry /\
            forall w now',
              all_ascii w = true ->
              toLowerCase w = k ->
              (now' - timestamp entry <= LRUCache.cacheDuration entry)%Z ->
              snd (LRUCache.get w now' c') = Some (data entry))))).
Proof.
  assert (B0 : forall cap, (1 <= cap)%Z -> bounded (LRUCache.new cap)).
  { intros cap H. unfold bounded, LRUCache.size. simpl. repeat split; auto; lia. }
  split; [|split; [|split]].
  - intros cap ops Hc N.
    destruct (apply_ops_bounded ops (LRUCache.new cap) N (B0 cap Hc)) as [L _].
    now rewrite apply_ops_maxSize in L.
  - intros en es.
    destruct (run_in_bounds es (init en) (init_in_bounds en)) as [(L & _) _].
    now rewrite (run_maxSize es (init en)) in L.
  - intros cap ops Hc N _ O ND Fit.
    now apply (sets_within_capacity ops (LRUCache.new cap) (B0 cap Hc) N O).
  - intros cap ops u d now Hc N _ t c c'.
    assert (N1 : nonempty_sets ops).
    { intros u0 d0 now0 I. apply (N u0 d0 now0), in_or_app. now left. }
    assert (Nu : u <> "").
    { apply (N u d now), in_or_app. right. now left. }
    assert (O0 : in_touch_order
                   {| tc := LRUCache.new cap; clock := 0; stamp := fun _ => 0%nat |})
      by (split; constructor).
    destruct (placed_fold ops {| tc := LRUCache.new cap; clock := 0; stamp := fun _ => 0%nat |}
                N1 (B0 cap Hc) O0) as (Etc & B & S & F).
    fold (placed_run cap ops) in Etc, B, S, F. fold t in Etc, B, S, F.
    simpl in Etc. fold c in Etc. rewrite Etc in B, S, F.
    assert (Mx : LRUCache.maxSize c = cap) by apply apply_ops_maxSize.
    split.
    { intros P. unfold c'. rewrite (set_present u d now c P). now apply keys_set_old. }
    intros G.
    assert (ND : NoDup (OMap.keys (LRUCache.cache c))) by (eapply sorted_stamps_NoDup, S).
    assert (NI : ~ In (toLowerCase u) (OMap.keys (LRUCache.cache c)))
      by now apply get_None_notin.
    pose proof (set_new_key_cache u d now c G B) as Ec. fold c' in Ec.
    rewrite Mx in Ec. split.
    { intros Lt.
      destruct (Z.geb_spec (Z.of_nat (LRUCache.size c)) cap) as [Ge|_]; [lia|].
      rewrite Ec. split; [now apply keys_set_new|].
      intros k entry Ge. rewrite get_set_other; [exact Ge|].
      intros ->. rewrite G in Ge. discriminate Ge. }
    intros Full.
    rewrite Full, Z.geb_leb, Z.leb_refl in Ec.
    clear Etc N N1. clearbody c' t. clearbody c.
    destruct (LRUCache.cache c) as [|[victim ventry] m'] eqn:Em.
    { unfold LRUCache.size in Full. rewrite Em in Full. simpl in Full. lia. }
    cbn [OMap.firstKey] in Ec. simpl OMap.keys in *.
    inversion ND as [|? ? Nv ND']; subst.
    apply StronglySorted_inv in S. destruct S as [_ Sv].
    assert (Del : OMap.delete victim ((victim, ventry) :: m') = m').
    { simpl. rewrite String.eqb_refl. apply delete_absent. now apply get_None_notin. }
    rewrite Del in Ec.
    assert (Gm : OMap.get (toLowerCase u) m' = None).
    { apply get_None_notin. intros I. apply NI. now right. }
    exists victim, (map fst m'). split; [reflexivity|]. split; [|split; [|split]].
    + intros k I. rewrite Forall_forall in Sv. apply Sv, in_map, I.
    + rewrite Ec. now apply keys_set_new.
    + rewrite Ec. apply get_None_notin. rewrite keys_set_new by assumption.
      intros I. apply in_app_or in I. destruct I as [I|[I|[]]]; [contradiction|].
      apply NI. left. congruence.
    + intros k entry I Ge.
      assert (Nk : k <> toLowerCase u) by (intros ->; apply NI; now right).
      assert (Nkv : k <> victim) by (intros ->; contradiction).
      assert (Ge' : OMap.get k (LRUCache.cache c') = Some entry).
      { rewrite Ec, get_set_other by assumption.
        unfold OMap.get in Ge. simpl in Ge.
        destruct (String.eqb_spec k victim); [contradiction|exact Ge]. }
      split; [exact Ge'|].
      intros w now' _ Ew Age. subst k.
      now rewrite (get_fresh w now' c' entry Ge' Age).
Qed.

Lemma cache_is_bounded_and_evicts_least_recently_touched_witness :
  let ops := [OpSet "a" None 0%Z; OpSet "b" None 1%Z; OpSet "A" None 2%Z; OpGet "B" 3%Z] in
  let c := apply_ops (LRUCache.new 2) ops in
  let c' := LRUCache.set "c" None 4%Z c in
  OMap.keys (LRUCache.cache
               (apply_ops (LRUCache.new 2) [OpSet "a" None 0%Z; OpSet "B" None 1%Z]))
  = ["a"; "b"] /\
  exists victim rest,
    OMap.keys (LRUCache.cache c) = victim :: rest /\
    (forall k, In k rest -> stamp (placed_run 2 ops) victim < stamp (placed_run 2 ops) k)%nat /\
    OMap.keys (LRUCache.cache c') = (rest ++ [toLowerCase "c"])%list /\
    OMap.get victim (LRUCache.cache c') = None /\
    (forall k entry,
       In k rest -> OMap.get k (LRUCache.cache c) = Some entry ->
       OMap.get k (LRUCache.cache c') = Some entry /\
       forall w now',
         all_ascii w = true ->
         toLowerCase w = k ->
         (now' - timestamp entry <= LRUCache.cacheDuration entry)%Z ->
         snd (LRUCache.get w now' c') = Some (data entry)).
Proof.
  intros ops c c'.
  destruct cache_is_bounded_and_evicts_least_recently_touched as (_ & _ & W & H).
  assert (C : (1 <= 2)%Z) by (intro X; discriminate X).
  assert (N : nonempty_sets (ops ++ [OpSet "c" None 4%Z])).
  { intros u d now I. simpl in I.
    destruct I as [I|[I|[I|[I|[I|[]]]]]]; try discriminate I; injection I as <- _ _;
      discriminate. }
  assert (N2 : nonempty_sets [OpSet "a" None 0%Z; OpSet "B" None 1%Z]).
  { intros u d now I. simpl in I.
    destruct I as [I|[I|[]]]; injection I as <- _ _; discriminate. }
  assert (ND : NoDup (set_keys [OpSet "a" None 0%Z; OpSet "B" None 1%Z])).
  { simpl. constructor; [|constructor; [|constructor]].
    - intros [I|[]]. discriminate I.
    - intros []. }
  assert (Fit : (Z.of_nat (List.length [OpSet "a" None 0%Z; OpSet "B" None 1%Z]) <= 2)%Z)
    by (intro X; discriminate X).
  split.
  - exact (W 2%Z [OpSet "a" None 0%Z; OpSet "B" None 1%Z] C N2 eq_refl eq_refl ND Fit).
  - exact (proj2 (proj2 (H 2%Z ops "c" None 4%Z C N eq_refl) eq_refl) eq_refl).
Defined.

(** C3 as it is stated fails when a cached key is set again: by [get] and
    [set] activity [b] is the least recently touched key, and yet the next
    insertion evicts [a], which [set] left at the head of the cache. *)
Lemma rewritten_key_is_evicted_first :
  let ops := [OpSet "a" None 0%Z; OpSet "b" None 1%Z; OpSet "a" None 2%Z] in
  let t := traced_run 2 ops in
  let c' := LRUCache.set "c" None 3%Z (apply_ops (LRUCache.new 2) ops) in
  (stamp t "b" < stamp t "a")%nat /\
  OMap.get "a" (LRUCache.cache c') = None /\
  OMap.get "b" (LRUCache.cache c') = Some {| data := None; timestamp := 1%Z |}.
Proof. repeat split. simpl. lia. Qed.

(** The same run, evaluated: [b] is evicted, not [a], because the [get]
    promoted [a]. *)
Example eviction_after_promotion :
  OMap.keys (LRUCache.cache
               (apply_ops (LRUCache.new 2)
                  [OpSet "a" None 0%Z; OpSet "b" None 1%Z; OpGet "A" 2%Z; OpSet "c" None 3%Z]))
  = ["a"; "c"].
Proof. reflexivity. Qed.

(** That run with the insertion, evaluated: a [set] on a key that is
    already there keeps the place of the key. *)
Example overwrite_keeps_place :
  OMap.keys (LRUCache.cache
               (apply_ops (LRUCache.new 2)
                  [OpSet "a" None 0%Z; OpSet "b" None 1%Z; OpSet "a" None 2%Z; OpSet "c" None 3%Z]))
  = ["b"; "c"].
Proof. reflexivity. Qed.

(** Why the usernames are taken non-empty: [if (firstKey)] also skips the
    eviction when the oldest key is the empty string.  No caller of the
    cache stores that key. *)
Example empty_key_is_never_evicted :
  LRUCache.size (apply_ops (LRUCache.new 1) [OpSet "" None 0%Z; OpSet "b" None 1%Z]) = 2%nat.
Proof. reflexivity. Qed.

(* ================================================================== *)
(** ** Region labels *)
(* ================================================================== *)

Lemma upperChar_idem c : upperChar (upperChar c) = upperChar c.
Proof. destruct c as [[] [] [] [] [] [] [] []]; reflexivity. Qed.

Lemma toUpperCase_idem s : toUpperCase (toUpperCase s) = toUpperCase s.
Proof. apply mapString_compose, upperChar_idem. Qed.

Lemma toUpperCase_empty s : toUpperCase s = "" <-> s = "".
Proof. destruct s; simpl; split; intros H; try reflexivity; discriminate. Qed.

Lemma not_inherited k :
  ~ In k Object_prototype_names -> existsb (String.eqb k) Object_prototype_names = false.
Proof.
  intros N. destruct (existsb (String.eqb k) Object_prototype_names) eqn:X; [|reflexivity].
  exfalso. apply N. apply existsb_exists in X. destruct X as [x [I E]].
  apply String.eqb_eq in E. now subst.
Qed.

(** [getRegionDisplay] on a string. *)
Lemma getRegionDisplay_string g :
  getRegionDisplay (JStr g)
  = if String.eqb g "" then Normal (Text "")
    else match tableLookup regionMap (toLowerCase g) with
         | Own v => Normal (Text (if String.eqb v "" then toUpperCase g else v))
         | Inherited name => Normal (Member name)
         | Missing => Normal (Text (toUpperCase g))
         end.
Proof.
  unfold getRegionDisplay. cbn [truthy callToLowerCase callToUpperCase bind].
  destruct (String.eqb g ""); cbn [negb]; [reflexivity|].
  destruct (tableLookup regionMap (toLowerCase g)); try reflexivity.
  now destruct (String.eqb v "").
Qed.

(** Every label of the display table is non-empty, upper-case, and displayed
    as itself. *)
Lemma regionMap_labels k l :
  assoc k regionMap = Some l ->
  l <> "" /\ toUpperCase l = l /\ getRegionDisplay (JStr l) = Normal (Text l).
Proof.
  unfold regionMap. simpl.
  repeat match goal with
         | |- (if String.eqb k ?c then _ else _) = _ -> _ =>
             destruct (String.eqb_spec k c) as [->|_];
             [intros [= <-]; split; [discriminate|split; reflexivity]|]
         end.
  discriminate.
Qed.

(** X1.  For an ASCII region that does not name an inherited member of the
    table object, [getRegionDisplay] gives a text that is in upper case, that
    does not depend on the letter case of the region, and that is displayed
    as itself: the table label of the lower-cased region, or the upper-cased
    region when the table has none. *)
Theorem getRegionDisplay_label_is_stable :
  forall g : string,
    all_ascii g = true ->
    ~ In (toLowerCase g) Object_prototype_names ->
    exists l,
      getRegionDisplay (JStr g) = Normal (Text l) /\
      l = match assoc (toLowerCase g) regionMap with
          | Some label => if String.eqb g "" then "" else label
          | None => toUpperCase g
          end /\
      toUpperCase l = l /\
      getRegionDisplay (JStr l) = Normal (Text l) /\
      (forall g', all_ascii g' = true -> toLowerCase g' = toLowerCase g ->
                  getRegionDisplay (JStr g') = Normal (Text l)).
Proof.
  intros g _ NI. destruct (String.eqb_spec g "") as [->|Ng].
  - exists "". repeat split; try reflexivity.
    intros g' _ E. simpl in E. apply (proj1 (toLowerCase_empty g')) in E. now subst.
  - assert (Same : forall g', toLowerCase g' = toLowerCase g ->
                     getRegionDisplay (JStr g')
                     = match tableLookup regionMap (toLowerCase g) with
                       | Own v => Normal (Text (if String.eqb v "" then toUpperCase g else v))
                       | Inherited name => Normal (Member name)
                       | Missing => Normal (Text (toUpperCase g))
                       end).
    { intros g' E. rewrite getRegionDisplay_string, E.
      assert (Ng' : g' <> "").
      { intros ->. simpl in E. symmetry in E.
        apply (proj1 (toLowerCase_empty g)) in E. contradiction. }
      apply String.eqb_neq in Ng'. rewrite Ng'.
      apply same_upper_iff_same_lower in E. now rewrite E. }
    unfold tableLookup in Same. rewrite (not_inherited _ NI) in Same.
    destruct (assoc (toLowerCase g) regionMap) as [label|] eqn:A.
    + destruct (regionMap_labels _ _ A) as (Nl & Ul & Dl).
      apply String.eqb_neq in Nl. rewrite Nl in Same.
      exists label. split; [now apply Same|]. split; [reflexivity|].
      split; [exact Ul|]. split; [exact Dl|]. intros g' _. apply Same.
    + exists (toUpperCase g). split; [now apply Same|]. split; [reflexivity|].
      split; [apply toUpperCase_idem|]. split; [|intros g' _; apply Same].
      apply Same. apply toLowerCase_toUpperCase.
Qed.

Lemma getRegionDisplay_label_is_stable_witness :
  exists l,
    getRegionDisplay (JStr "zz9") = Normal (Text l) /\
    l = "ZZ9" /\ toUpperCase l = l /\
    getRegionDisplay (JStr l) = Normal (Text l) /\
    (forall g', all_ascii g' = true -> toLowerCase g' = toLowerCase "zz9" ->
                getRegionDisplay (JStr g') = Normal (Text l)).
Proof.
  assert (N : ~ In (toLowerCase "zz9") Object_prototype_names).
  { simpl. intros I. repeat (destruct I as [I|I]; [discriminate I|]). exact I. }
  exact (getRegionDisplay_label_is_stable "zz9" eq_refl N).
Defined.

(** The two region examples of the specification. *)
Example getRegionDisplay_na1 : getRegionDisplay (JStr "na1") = Normal (Text "NA").
Proof. reflexivity. Qed.

Example getRegionDisplay_missing :
  getRegionDisplay JUndefined = Normal (Text "") /\ getRegionDisplay JNull = Normal (Text "").
Proof. split; reflexivity. Qed.

(** The display table covers the OP.GG table: every region with an OP.GG
    slug has a label, and the label is the slug in upper case. *)
Lemma regionMapping_in_regionMap k slug :
  assoc k regionMapping = Some slug -> assoc k regionMap = Some (toUpperCase slug).
Proof.
  unfold regionMapping, regionMap. simpl.
  repeat match goal with
         | |- (if String.eqb k ?c then _ else _) = _ -> _ =>
             destruct (String.eqb_spec k c) as [->|_];
             [intros [= <-]; reflexivity|]
         end.
  discriminate.
Qed.

(** X2.  Whenever [getOpGGUrl] links a record to OP.GG through its table,
    the region slug in the link is the lower-case form of the label that
    [getRegionDisplay] shows for the same region. *)
Theorem opgg_slug_matches_display_label :
  forall (r : EloWardRankData) (n g slug : string),
    summonerName r = JStr n -> n <> "" -> region r = JStr g ->
    assoc (toLowerCase g) regionMapping = Some slug ->
    getRegionDisplay (region r) = Normal (Text (toUpperCase slug)) /\
    toLowerCase (toUpperCase slug) = slug /\
    exists rest,
      getOpGGUrl r = Normal (Some ("https://op.gg/lol/summoners/" ++ slug ++ "/" ++ rest)).
Proof.
  intros r n g slug Hn Nn Hg A.
  assert (Ng : g <> "").
  { intros ->. discriminate A. }
  split; [|split].
  - rewrite Hg, getRegionDisplay_string.
    apply String.eqb_neq in Ng. rewrite Ng.
    unfold tableLookup. rewrite (regionMapping_in_regionMap _ _ A).
    destruct (String.eqb_spec (toUpperCase slug) "") as [E|_]; [|reflexivity].
    apply (proj1 (toUpperCase_empty slug)) in E. subst slug.
    now destruct (regionMapping_values _ _ A).
  - rewrite toLowerCase_toUpperCase. revert A. unfold regionMapping. simpl.
    repeat match goal with
           | |- (if String.eqb ?k ?c then _ else _) = _ -> _ =>
               destruct (String.eqb k c); [intros [= <-]; reflexivity|]
           end.
    discriminate.
  - unfold getOpGGUrl. rewrite Hn, Hg.
    assert (Tn : truthy (JStr n) = true).
    { simpl. apply negb_true_iff. now apply String.eqb_neq. }
    assert (Tg : truthy (JStr g) = true).
    { simpl. apply negb_true_iff. now apply String.eqb_neq. }
    rewrite Tn, Tg. cbn [negb orb callToLowerCase callSplit callToUpperCase bind].
    unfold tableLookup. rewrite A. cbn [memberText].
    destruct (regionMapping_values _ _ A) as [Ns _].
    apply String.eqb_neq in Ns. rewrite Ns.
    destruct (nth_error (split "#" n) 1) as [t|]; cbn [bind].
    + destruct (String.eqb t ""); cbn [bind]; eexists; reflexivity.
    + eexists; reflexivity.
Qed.

Lemma opgg_slug_matches_display_label_witness :
  getRegionDisplay (JStr "EUW1") = Normal (Text (toUpperCase "euw")) /\
  toLowerCase (toUpperCase "euw") = "euw" /\
  exists rest,
    getOpGGUrl (mkRankData (JStr "gold") JUndefined JUndefined (JStr "a#b") (JStr "EUW1") JUndefined)
    = Normal (Some ("https://op.gg/lol/summoners/" ++ "euw" ++ "/" ++ rest)).
Proof.
  assert (N : "a#b" <> "") by discriminate.
  exact (opgg_slug_matches_display_label
           (mkRankData (JStr "gold") JUndefined JUndefined (JStr "a#b") (JStr "EUW1") JUndefined)
           "a#b" "EUW1" "euw" eq_refl N eq_refl eq_refl).
Defined.

(* ================================================================== *)
(** ** The badge projector on every tier *)
(* ================================================================== *)

Lemma truthy_same_case t t' :
  toLowerCase t' = toLowerCase t -> truthy (JStr t') = truthy (JStr t).
Proof.
  intros E. simpl. f_equal.
  destruct t, t'; simpl in *; try reflexivity; discriminate.
Qed.

(** X3.  [getRankBadge] does not depend on the letter case of an ASCII
    tier: two records that differ only in the case of their tier get the same
    badge, label, id and image URL included. *)
Theorem getRankBadge_ignores_tier_case :
  forall (r : EloWardRankData) (t t' : string),
    tier r = JStr t -> all_ascii t = true -> all_ascii t' = true ->
    toLowerCase t' = toLowerCase t ->
    getRankBadge (mkRankData (JStr t') (division r) (leaguePoints r)
                    (summonerName r) (region r) (animate_badge r))
    = getRankBadge r.
Proof.
  intros [ti di lp sn rg an] t t' Ht _ _ E. simpl in Ht. subst ti.
  unfold getRankBadge. cbn [tier division leaguePoints summonerName region animate_badge].
  rewrite (truthy_same_case t t' E).
  cbn [callToLowerCase callToUpperCase bind]. rewrite E.
  apply same_upper_iff_same_lower in E. now rewrite E.
Qed.

Lemma getRankBadge_ignores_tier_case_witness :
  getRankBadge (mkRankData (JStr "GoLd") (division gold_II_45) (leaguePoints gold_II_45)
                  (summonerName gold_II_45) (region gold_II_45) (animate_badge gold_II_45))
  = getRankBadge gold_II_45.
Proof.
  exact (getRankBadge_ignores_tier_case gold_II_45 "gold" "GoLd" eq_refl eq_refl eq_refl
           eq_refl).
Defined.

(** The badge of a record whose tier is a string of the tier list. *)
Lemma getRankBadge_valid_tier rec t :
  tier rec = JStr t -> RANK_TIERS_has (toLowerCase t) = true ->
  string_or_falsy (division rec) ->
  getRankBadge rec
  = Normal (Some {| badge_id := "eloward-" ++ toLowerCase t
                                ++ (if truthy (division rec)
                                    then match division rec with
                                         | JStr d => "-" ++ d
                                         | _ => ""
                                         end
                                    else "");
                    badge_tier := toUpperCase t;
                    badge_division := division rec;
                    badge_imageUrl := getImageUrl (toLowerCase t) (truthy (animate_badge rec));
                    badge_animated := truthy (animate_badge rec);
                    badge_summonerName := summonerName rec;
                    badge_region := region rec;
                    badge_leaguePoints := leaguePoints rec |}).
Proof.
  intros Ht V D. unfold getRankBadge. rewrite Ht.
  assert (Tt : truthy (JStr t) = true).
  { simpl. destruct t; [discriminate V|reflexivity]. }
  rewrite Tt. cbn [negb callToLowerCase callToUpperCase bind]. rewrite V. cbn [negb].
  destruct D as [[d Hd]|F].
  - rewrite Hd. cbn [truthy ToString]. destruct (String.eqb d ""); reflexivity.
  - rewrite F. reflexivity.
Qed.

(** X4.  Response validation and the badge projector agree on the tiers:
    every record that [fetchRankData] accepts from a response body has a
    badge, so the store callbacks write [null] only for "no rank".  The
    label is the tier in upper case, the image is the one of the lower-cased
    tier, animated exactly when [animate_badge] is truthy, and division,
    summoner name, region and league points are passed through. *)
Theorem accepted_record_has_a_badge :
  forall (body : jsval) (rec : EloWardRankData),
    readRank body = Normal (Some rec) ->
    string_or_falsy (division rec) ->
    exists t b,
      tier rec = JStr t /\
      RANK_TIERS_has (toLowerCase t) = true /\
      getRankBadge rec = Normal (Some b) /\
      projection (Some rec) = Some (Some b) /\
      badge_tier b = toUpperCase t /\
      badge_imageUrl b = getImageUrl (toLowerCase t) (truthy (animate_badge rec)) /\
      badge_animated b = truthy (animate_badge rec) /\
      badge_division b = division rec /\
      badge_summonerName b = summonerName rec /\
      badge_region b = region rec /\
      badge_leaguePoints b = leaguePoints rec.
Proof.
  intros body rec R D.
  assert (NN : body <> JNull) by (intros ->; discriminate R).
  assert (NU : body <> JUndefined) by (intros ->; discriminate R).
  rewrite (readRank_cases body NN NU) in R.
  destruct (truthy (member_of body "rank_tier")) eqn:T; cbn [negb] in R; [|discriminate R].
  destruct (member_of body "rank_tier") as [| | | |t| |] eqn:M; try discriminate R.
  destruct (RANK_TIERS_has (toLowerCase t)) eqn:V; [|discriminate R].
  injection R as <-.
  assert (Ht : tier (record_of body) = JStr t) by exact M.
  pose proof (getRankBadge_valid_tier (record_of body) t Ht V D) as G.
  exists t. eexists. split; [exact Ht|]. split; [exact V|].
  split; [exact G|]. split; [unfold projection; now rewrite G|].
  repeat split.
Qed.

Lemma accepted_record_has_a_badge_witness :
  let body := JObj [("rank_tier", JStr "Diamond"); ("rank_division", JStr "IV");
                    ("animate_badge", JBool true)] in
  exists t b,
    tier (record_of body) = JStr t /\
    RANK_TIERS_has (toLowerCase t) = true /\
    getRankBadge (record_of body) = Normal (Some b) /\
    projection (Some (record_of body)) = Some (Some b) /\
    badge_tier b = toUpperCase t /\
    badge_imageUrl b
    = getImageUrl (toLowerCase t) (truthy (animate_badge (record_of body))) /\
    badge_animated b = truthy (animate_badge (record_of body)) /\
    badge_division b = division (record_of body) /\
    badge_summonerName b = summonerName (record_of body) /\
    badge_region b = region (record_of body) /\
    badge_leaguePoints b = leaguePoints (record_of body).
Proof.
  intros body.
  assert (D : string_or_falsy (division (record_of body))) by (left; exists "IV"; reflexivity).
  exact (accepted_record_has_a_badge body (record_of body) eq_refl D).
Defined.

(* ================================================================== *)
(** ** The feature flag *)
(* ================================================================== *)

Lemma disabled_step s e :
  enabled s = false -> is_call e = true -> step s e = s.
Proof.
  intros D C. destruct e; try discriminate C; simpl.
  - unfold fetchRankData. now rewrite D.
  - unfold getOrFetchBadge. now rewrite D.
  - unfold getCachedRankData. now rewrite D.
Qed.

(** X5.  While the feature is off, the three lookup functions do nothing,
    whatever the cache holds: [fetchRankData] resolves with [null],
    [getCachedRankData] returns [undefined], and no sequence of such calls
    changes the state, so nothing is sent, cached, registered or stored. *)
Theorem disabled_calls_do_nothing :
  forall (s : State),
    enabled s = false ->
    (forall u now,
       fetchRankData u now s = (s, Resolved None) /\
       getCachedRankData u now s = (s, None) /\
       getOrFetchBadge u now s = s) /\
    (forall es, forallb is_call es = true -> run s es = s).
Proof.
  intros s D. split.
  - intros u now. unfold fetchRankData, getCachedRankData, getOrFetchBadge.
    now rewrite D.
  - induction es as [|e es IH]; simpl; intros C; [reflexivity|].
    apply andb_true_iff in C. destruct C as [C1 C2].
    rewrite (disabled_step s e D C1). now apply IH.
Qed.

Lemma disabled_calls_do_nothing_witness :
  let s := with_enabled false
             (run (init true)
                [CallFetchRankData "a" 0%Z; FetchSettles 0 (Response 404) 1%Z]) in
  fetchRankData "a" 2%Z s = (s, Resolved None) /\
  run s [CallGetOrFetchBadge "a" 2%Z; CallFetchRankData "b" 3%Z] = s.
Proof.
  intros s.
  destruct (disabled_calls_do_nothing s eq_refl) as [H1 H2].
  split; [exact (proj1 (H1 "a" 2%Z))|].
  exact (H2 [CallGetOrFetchBadge "a" 2%Z; CallFetchRankData "b" 3%Z] eq_refl).
Defined.

Lemma storeBadge_with_enabled b k v s :
  storeBadge k v (with_enabled b s) = with_enabled b (storeBadge k v s).
Proof.
  unfold storeBadge. destruct v as [d|]; [|reflexivity]. now destruct (getRankBadge d).
Qed.

Lemma fire_with_enabled b rid res cbs : forall s,
  fire rid res cbs (with_enabled b s) = with_enabled b (fire rid res cbs s).
Proof.
  induction cbs as [|[r k] cbs IH]; intros s; simpl; [reflexivity|].
  destruct (Nat.eqb r rid); [|apply IH].
  now rewrite storeBadge_with_enabled, IH.
Qed.

Lemma settle_with_enabled b rid key res s :
  settle rid key res (with_enabled b s) = with_enabled b (settle rid key res s).
Proof. unfold settle. simpl. now rewrite <- fire_with_enabled. Qed.

(** X6.  A response is handled the same whether the feature is on or off
    when it arrives: the request closure does not read the flag again, so
    switching the flag while a request is in flight changes neither what is
    cached nor what is stored when it settles. *)
Theorem settling_ignores_the_flag :
  forall (s : State) (e : event) (b : bool),
    is_settle e = true ->
    step (with_enabled b s) e = with_enabled b (step s e).
Proof.
  intros s e b S. destruct e as [| | | |rid o now|rid bd now|]; try discriminate S; simpl.
  - unfold fetchSettles. simpl requests.
    destruct (nth_error (requests s) rid) as [[key [| |v]]|]; try reflexivity.
    destruct o as [|status]; [apply settle_with_enabled|].
    destruct (status =? 404)%Z; [apply (settle_with_enabled b rid key None (cacheSet key None now s))|].
    destruct (negb (ok status)); [apply settle_with_enabled|reflexivity].
  - unfold jsonSettles. simpl requests.
    destruct (nth_error (requests s) rid) as [[key [| |v]]|]; try reflexivity.
    destruct bd as [|body]; [apply settle_with_enabled|].
    destruct (readRank body) as [[rec|]|].
    + apply (settle_with_enabled b rid key (Some rec) (cacheSet key (Some rec) now s)).
    + apply (settle_with_enabled b rid key None (cacheSet key None now s)).
    + apply settle_with_enabled.
Qed.

Lemma settling_ignores_the_flag_witness :
  let s := run (init true) [CallFetchRankData "a" 0%Z] in
  step (with_enabled false s) (FetchSettles 0 (Response 404) 1%Z)
  = with_enabled false (step s (FetchSettles 0 (Response 404) 1%Z)).
Proof.
  intros s.
  exact (settling_ignores_the_flag s (FetchSettles 0 (Response 404) 1%Z) false eq_refl).
Defined.

(* ================================================================== *)
(** ** Peeking at the cache *)
(* ================================================================== *)

(** X7.  [getCachedRankData] is the part of [fetchRankData] that needs no
    network: it returns what [fetchRankData] would resolve with at once and
    [undefined] where [fetchRankData] would wait for a request, it leaves the
    cache as [fetchRankData] leaves it, and it touches neither the request
    registry, nor the requests, nor the badge store, nor the loading flag. *)
Theorem getCachedRankData_is_the_immediate_answer :
  forall (s : State) (u : string) (now : Z),
    enabled s = true -> u <> "" ->
    let s1 := fst (getCachedRankData u now s) in
    snd (getCachedRankData u now s) = immediate (snd (fetchRankData u now s)) /\
    rankCache s1 = rankCache (fst (fetchRankData u now s)) /\
    pendingRequests s1 = pendingRequests s /\
    requests s1 = requests s /\
    userBadges s1 = userBadges s /\
    callbacks s1 = callbacks s /\
    isLoading s1 = isLoading s /\
    enabled s1 = enabled s.
Proof.
  intros s u now En Nu. unfold getCachedRankData, fetchRankData.
  rewrite En. apply String.eqb_neq in Nu. rewrite Nu. cbn [negb orb].
  destruct (LRUCache.get (toLowerCase u) now (rankCache s)) as [c [v|]].
  - cbn. repeat split; exact En.
  - cbn [with_rankCache pendingRequests].
    destruct (OMap.get (toLowerCase u) (pendingRequests s)); cbn; repeat split; exact En.
Qed.

Lemma getCachedRankData_is_the_immediate_answer_witness :
  let s := run (init true)
             [CallFetchRankData "Ann" 0%Z; FetchSettles 0 (Response 404) 1%Z] in
  snd (getCachedRankData "ANN" 2%Z s) = Some None /\
  snd (getCachedRankData "bob" 2%Z s) = None.
Proof.
  intros s. split.
  - exact (proj1 (getCachedRankData_is_the_immediate_answer s "ANN" 2%Z eq_refl
                    ltac:(discriminate))).
  - exact (proj1 (getCachedRankData_is_the_immediate_answer s "bob" 2%Z eq_refl
                    ltac:(discriminate))).
Defined.

(* ================================================================== *)
(** ** Resetting the module *)
(* ================================================================== *)

(** X8.  [clearCache] forgets every cached rank, every registry entry and
    every stored badge, and nothing else: the capacity, the feature flag, the
    loading flag and the requests that are under way stay as they are.
    Directly after it every peek misses, and a resolve for any user (with an
    ASCII username) goes to the network with a new request, whether or not
    one is still in flight. *)
Theorem clearCache_forgets_all_but_the_requests :
  forall (s : State),
    let s' := clearCache s in
    (LRUCache.size (rankCache s') = 0%nat /\
     LRUCache.maxSize (rankCache s') = LRUCache.maxSize (rankCache s) /\
     pendingRequests s' = [] /\ userBadges s' = [] /\
     requests s' = requests s /\ callbacks s' = callbacks s /\
     isLoading s' = isLoading s /\ enabled s' = enabled s) /\
    (forall u now, snd (getCachedRankData u now s') = None) /\
    (forall u now,
       enabled s = true -> u <> "" -> all_ascii u = true ->
       snd (fetchRankData u now s') = Follows (List.length (requests s)) /\
       outbound (fst (fetchRankData u now s'))
       = (outbound s ++ [url_of (toLowerCase u)])%list).
Proof.
  intros s s'. split; [repeat split|]. split.
  - intros u now. unfold getCachedRankData, s', clearCache. simpl.
    now destruct (negb (enabled s) || String.eqb u "").
  - intros u now En Nu _.
    assert (M : snd (LRUCache.get u now (rankCache s')) = None) by reflexivity.
    assert (P : OMap.get (toLowerCase u) (pendingRequests s') = None) by reflexivity.
    rewrite (fetchRankData_issue u now s' En Nu M P). cbn [fst snd].
    split; [reflexivity|]. unfold outbound. cbn [requests].
    unfold s', clearCache. cbn [requests with_userBadges with_pendingRequests with_rankCache].
    now rewrite map_app.
Qed.

Lemma clearCache_forgets_all_but_the_requests_witness :
  let s := run (init true) [CallFetchRankData "Ann" 0%Z] in
  snd (fetchRankData "ann" 1%Z (clearCache s)) = Follows 1 /\
  outbound (fst (fetchRankData "ann" 1%Z (clearCache s)))
  = [url_of "ann"; url_of "ann"].
Proof.
  intros s.
  exact (proj2 (proj2 (clearCache_forgets_all_but_the_requests s)) "ann" 1%Z eq_refl
           ltac:(discriminate) eq_refl).
Defined.

(** X9.  [clearCache] does not cancel a request that is under way: when the
    body of such a request arrives after the reset and is valid, its record
    is cached again under the key of the request, the promise resolves with
    it, and every [getOrFetchBadge] callback that was waiting for the request
    writes the badge to the new store. *)
Theorem request_survives_clearCache :
  forall (s : State) (rid : nat) (key : string) (now : Z) (body : jsval)
         (rec : EloWardRankData),
    nth_error (requests s) rid = Some (mkRequest key AwaitJson) ->
    readRank body = Normal (Some rec) ->
    let s' := jsonSettles rid (Json body) now (clearCache s) in
    OMap.get (toLowerCase key) (LRUCache.cache (rankCache s'))
    = Some {| data := Some rec; timestamp := now |} /\
    resolution (Follows rid) s' = Some (Some rec) /\
    (forall k b,
       In (rid, k) (callbacks s) -> projection (Some rec) = Some b ->
       OMap.get k (userBadges s') = Some b) /\
    (forall u now',
       enabled s = true -> u <> "" -> toLowerCase u = toLowerCase key ->
       (now' - now <= 60 * 60 * 1000)%Z ->
       snd (getCachedRankData u now' s') = Some (Some rec)).
Proof.
  intros s rid key now body rec R V s'.
  assert (R' : nth_error (requests (clearCache s)) rid = Some (mkRequest key AwaitJson))
    by exact R.
  destruct (jsonSettles_positive (clearCache s) rid key now body rec R' V) as [Res Get].
  fold s' in Res, Get.
  split; [exact Get|]. split; [exact Res|]. split.
  - intros k b I Pj. unfold s', jsonSettles. rewrite R', V.
    apply settle_writes; [exact I|exact Pj].
  - intros u now' En Nu E A.
    assert (En' : enabled s' = true).
    { unfold s', jsonSettles. rewrite R', V.
      now destruct (settle_fields rid key (Some rec)
                      (cacheSet key (Some rec) now (clearCache s))) as (-> & _). }
    unfold getCachedRankData. rewrite En'. apply String.eqb_neq in Nu. rewrite Nu.
    cbn [negb orb]. rewrite get_normalized.
    rewrite <- E in Get.
    rewrite (get_fresh u now' (rankCache s') _ Get).
    + reflexivity.
    + rewrite cacheDuration_value. cbn [timestamp]. lia.
Qed.

Lemma request_survives_clearCache_witness :
  let body := JObj [("rank_tier", JStr "gold")] in
  let s := run (init true)
             [CallGetOrFetchBadge "Ann" 0%Z; FetchSettles 0 (Response 200) 1%Z] in
  let s' := jsonSettles 0 (Json body) 5%Z (clearCache s) in
  resolution (Follows 0) s' = Some (Some (record_of body)) /\
  snd (getCachedRankData "ANN" 6%Z s') = Some (Some (record_of body)).
Proof.
  intros body s s'.
  pose proof (request_survives_clearCache s 0 "ann" 5%Z body (record_of body)
                eq_refl eq_refl) as (_ & H2 & _ & H4).
  split; [exact H2|].
  apply H4; [reflexivity|discriminate|reflexivity|lia].
Defined.

(* ================================================================== *)
(** ** Promises settle once *)
(* ================================================================== *)

Lemma fetchRankData_requests_prefix u now s :
  exists more,
    requests (fst (fetchRankData u now s)) = (requests s ++ more)%list /\
    (more = [] \/
     (enabled s = true /\ u <> "" /\ more = [mkRequest (toLowerCase u) AwaitFetch])).
Proof.
  unfold fetchRankData.
  destruct (negb (enabled s) || String.eqb u "") eqn:G.
  { exists []. rewrite app_nil_r. now split; [|left]. }
  apply orb_false_iff in G. destruct G as [En Nu].
  apply negb_false_iff in En. apply String.eqb_neq in Nu.
  destruct (LRUCache.get (toLowerCase u) now (rankCache s)) as [c [v|]].
  { exists []. rewrite app_nil_r. now split; [|left]. }
  cbn [with_rankCache pendingRequests].
  destruct (OMap.get (toLowerCase u) (pendingRequests s)).
  { exists []. rewrite app_nil_r. now split; [|left]. }
  exists [mkRequest (toLowerCase u) AwaitFetch]. split; [reflexivity|]. right. auto.
Qed.

Lemma settled_stays_step s e rid key v :
  nth_error (requests s) rid = Some (mkRequest key (Settled v)) ->
  nth_error (requests (step s e)) rid = Some (mkRequest key (Settled v)).
Proof.
  intros R.
  assert (F : forall u now,
             nth_error (requests (fst (fetchRankData u now s))) rid
             = Some (mkRequest key (Settled v))).
  { intros u now. destruct (fetchRankData_requests_prefix u now s) as (more & -> & _).
    rewrite nth_error_app1; [exact R|]. apply nth_error_Some. now rewrite R. }
  assert (St : forall rid' key' p res s0,
             requests s0 = requests s ->
             nth_error (requests s) rid' = Some (mkRequest key' p) ->
             p <> Settled v ->
             nth_error (requests (settle rid' key' res s0)) rid
             = Some (mkRequest key (Settled v))).
  { intros rid' key' p res s0 E R' Np.
    destruct (settle_fields rid' key' res s0) as (_ & _ & _ & _ & -> & _).
    rewrite E, nth_error_set_phase_other; [exact R|].
    intros ->. rewrite R in R'. injection R' as _ <-. now apply Np. }
  destruct e as [u now|u now|u now| |rid' o now|rid' b now|b]; simpl.
  - apply F.
  - rewrite (proj2 (getOrFetchBadge_registry u now s)). apply F.
  - unfold getCachedRankData.
    destruct (negb (enabled s) || String.eqb u ""); [exact R|].
    now destruct (LRUCache.get (toLowerCase u) now (rankCache s)).
  - exact R.
  - unfold fetchSettles.
    destruct (nth_error (requests s) rid') as [[key' [| |v']]|] eqn:R'; try exact R.
    destruct o as [|status]; [eapply St; eauto; discriminate|].
    destruct (status =? 404)%Z; [eapply St; eauto; discriminate|].
    destruct (negb (ok status)); [eapply St; eauto; discriminate|].
    cbn [requests with_requests]. rewrite nth_error_set_phase_other; [exact R|].
    intros ->. rewrite R in R'. discriminate R'.
  - unfold jsonSettles.
    destruct (nth_error (requests s) rid') as [[key' [| |v']]|] eqn:R'; try exact R.
    destruct b as [|body]; [eapply St; eauto; discriminate|].
    destruct (readRank body) as [[rec|]|]; eapply St; eauto; discriminate.
  - exact R.
Qed.

Lemma resolution_Follows rid s v :
  resolution (Follows rid) s = Some v <->
  exists key, nth_error (requests s) rid = Some (mkRequest key (Settled v)).
Proof.
  unfold resolution, phase_of. split.
  - destruct (nth_error (requests s) rid) as [[key [| |w]]|]; simpl; try discriminate.
    intros [= ->]. now exists key.
  - intros [key ->]. reflexivity.
Qed.

(** X10.  The value of a promise is final.  Once a promise that
    [fetchRankData] returned has resolved, no later call, response, reset or
    settings change alters the value it resolved with, and a second response
    for the same request is ignored. *)
Theorem resolution_is_final :
  forall (s : State) (p : promise) (v : option EloWardRankData),
    resolution p s = Some v ->
    (forall es, resolution p (run s es) = Some v) /\
    (forall rid e, p = Follows rid ->
       (exists o now, e = FetchSettles rid o now) \/
       (exists b now, e = JsonSettles rid b now) ->
       step s e = s).
Proof.
  intros s p v R. split.
  - intros es. revert s R. induction es as [|e es IH]; intros s R; [exact R|].
    simpl. apply IH. destruct p as [w|rid]; [exact R|].
    apply resolution_Follows in R. destruct R as [key R].
    apply resolution_Follows. exists key. now apply settled_stays_step.
  - intros rid e -> E. apply resolution_Follows in R. destruct R as [key R].
    destruct E as [(o & now & ->)|(b & now & ->)]; simpl;
      unfold fetchSettles, jsonSettles; now rewrite R.
Qed.

Lemma resolution_is_final_witness :
  let s := run (init true)
             [CallFetchRankData "ann" 0%Z; FetchSettles 0 (Response 500) 1%Z] in
  resolution (Follows 0) (run s [CallClearCache; CallFetchRankData "ann" 2%Z;
                                 FetchSettles 0 (Response 404) 3%Z])
  = Some None.
Proof.
  intros s.
  exact (proj1 (resolution_is_final s (Follows 0) None eq_refl)
           [CallClearCache; CallFetchRankData "ann" 2%Z;
            FetchSettles 0 (Response 404) 3%Z]).
Defined.

(* ================================================================== *)
(** ** What goes out to the network *)
(* ================================================================== *)

Lemma step_outbound s e :
  outbound (step s e) = outbound s \/
  exists u, may_send e = true /\ username_of e = Some u /\ u <> "" /\
            outbound (step s e) = (outbound s ++ [url_of (toLowerCase u)])%list.
Proof.
  assert (F : forall u now,
             outbound (fst (fetchRankData u now s)) = outbound s \/
             (u <> "" /\
              outbound (fst (fetchRankData u now s))
              = (outbound s ++ [url_of (toLowerCase u)])%list)).
  { intros u now. unfold outbound.
    destruct (fetchRankData_requests_prefix u now s) as (more & -> & [->|(_ & Nu & ->)]).
    - left. now rewrite app_nil_r.
    - right. split; [exact Nu|]. now rewrite map_app. }
  assert (St : forall rid key res s0,
             requests s0 = requests s -> outbound (settle rid key res s0) = outbound s).
  { intros rid key res s0 E. apply outbound_requests.
    destruct (settle_fields rid key res s0) as (_ & _ & _ & _ & -> & _).
    now rewrite keys_set_phase, E. }
  destruct e as [u now|u now|u now| |rid o now|rid b now|b]; simpl.
  - destruct (F u now) as [H|[Nu H]]; [now left|]. right. exists u. now repeat split.
  - unfold outbound. rewrite (proj2 (getOrFetchBadge_registry u now s)).
    destruct (F u now) as [H|[Nu H]]; [now left|]. right. exists u. now repeat split.
  - left. unfold getCachedRankData.
    destruct (negb (enabled s) || String.eqb u ""); [reflexivity|].
    now destruct (LRUCache.get (toLowerCase u) now (rankCache s)).
  - now left.
  - left. unfold fetchSettles.
    destruct (nth_error (requests s) rid) as [[key [| |v]]|]; try reflexivity.
    destruct o as [|status]; [now apply St|].
    destruct (status =? 404)%Z; [now apply St|].
    destruct (negb (ok status)); [now apply St|].
    apply outbound_requests. cbn [requests with_requests]. apply keys_set_phase.
  - left. unfold jsonSettles.
    destruct (nth_error (requests s) rid) as [[key [| |v]]|]; try reflexivity.
    destruct b as [|body]; [now apply St|].
    destruct (readRank body) as [[rec|]|]; now apply St.
  - now left.
Qed.

(** X11.  Requests go out only from [fetchRankData] and [getOrFetchBadge],
    at most one per call, and the log of requests is never rewritten: over
    any sequence of events the URLs requested before stay a prefix, at most as
    many are added as there are such calls, and each added URL belongs to one
    of these calls, made with a non-empty username; when that username is
    ASCII the URL is
    [https://eloward-ranks.unleashai.workers.dev/api/ranks/lol/<name>] with
    the username in lower case. *)
Theorem requests_come_from_calls :
  forall (s : State) (es : list event),
    exists more,
      outbound (run s es) = (outbound s ++ more)%list /\
      (List.length more <= List.length (filter may_send es))%nat /\
      forall url, In url more ->
        exists e u, In e es /\ may_send e = true /\ username_of e = Some u /\
                    u <> "" /\
                    (all_ascii u = true ->
                     url = "https://eloward-ranks.unleashai.workers.dev/api/ranks/lol/"
                           ++ toLowerCase u).
Proof.
  intros s es. revert s. induction es as [|e es IH]; intros s.
  - exists []. simpl. rewrite app_nil_r. repeat split; [lia|]. intros url [].
  - simpl. destruct (IH (step s e)) as (more & E & L & U).
    destruct (step_outbound s e) as [H|(u & M & Un & Nu & H)].
    + exists more. rewrite E, H. split; [reflexivity|]. split.
      * destruct (may_send e); simpl; lia.
      * intros url I. destruct (U url I) as (e' & u' & I' & R).
        exists e', u'. split; [now right|exact R].
    + exists (url_of (toLowerCase u) :: more). rewrite E, H, <- app_assoc.
      split; [reflexivity|]. split.
      * rewrite M. simpl. lia.
      * intros url [<-|I].
        -- exists e, u. split; [now left|]. split; [exact M|]. split; [exact Un|].
           split; [exact Nu|]. intros _. reflexivity.
        -- destruct (U url I) as (e' & u' & I' & R).
           exists e', u'. split; [now right|exact R].
Qed.

Lemma requests_come_from_calls_witness :
  exists more,
    outbound (run (init true) [CallFetchRankData "Ann" 0%Z; CallGetCachedRankData "Bob" 1%Z])
    = (outbound (init true) ++ more)%list /\
    (List.length more <= 1)%nat.
Proof.
  destruct (requests_come_from_calls (init true)
              [CallFetchRankData "Ann" 0%Z; CallGetCachedRankData "Bob" 1%Z])
    as (more & E & L & _).
  exists more. split; [exact E|exact L].
Defined.

(* ================================================================== *)
(** ** The badge handle *)
(* ================================================================== *)

Lemma badgeIsTruthy_badge k b store :
  OMap.get k store = Some (Some b) -> badgeIsTruthy k store = true.
Proof. unfold badgeIsTruthy. now intros ->. Qed.

(** What [useEloWardBadge] does to the state, in terms of the key it
    computes. *)
Lemma useEloWardBadge_effect :
  forall (s : State) (u : string),
    let s1 := fst (useEloWardBadge u s) in
    same_but_badges s s1 /\
    (forall k b, OMap.get k (userBadges s) = Some (Some b) ->
                 OMap.get k (userBadges s1) = Some (Some b)) /\
    (forall k, k <> toLowerCase u ->
               OMap.get k (userBadges s1) = OMap.get k (userBadges s)) /\
    (u <> "" -> ~ In (toLowerCase u) Object_prototype_names ->
     snd (useEloWardBadge u s) = Some (toLowerCase u) /\
     OMap.get (toLowerCase u) (userBadges s1)
     = Some (match OMap.get (toLowerCase u) (userBadges s) with
             | Some (Some b) => Some b
             | _ => None
             end) /\
     useEloWardBadge u s1 = useEloWardBadge u s).
Proof.
  intros s u s1. unfold s1, useEloWardBadge.
  destruct (String.eqb_spec u "") as [->|Nu].
  { cbn [fst snd]. split; [repeat split|]. split; [auto|]. split; [auto|].
    intros N. now contradiction N. }
  destruct (badgeIsTruthy (toLowerCase u) (userBadges s)) eqn:T; cbn [negb fst snd].
  - split; [repeat split|]. split; [auto|]. split; [auto|].
    intros _ NI. split; [reflexivity|]. split.
    + unfold badgeIsTruthy in T.
      destruct (OMap.get (toLowerCase u) (userBadges s)) as [[b|]|]; try discriminate T;
        [reflexivity|].
      exfalso. apply NI. apply existsb_exists in T. destruct T as (x & I & E).
      apply String.eqb_eq in E. now subst x.
    + now rewrite T.
  - split; [repeat split|]. split; [|split].
    + intros k b G. cbn [userBadges with_userBadges].
      destruct (string_dec k (toLowerCase u)) as [->|N].
      * rewrite (badgeIsTruthy_badge _ _ _ G) in T. discriminate T.
      * now rewrite get_set_other.
    + intros k N. cbn [userBadges with_userBadges]. now rewrite get_set_other.
    + intros _ NI. split; [reflexivity|]. cbn [userBadges with_userBadges].
      rewrite get_set_same. split.
      * unfold badgeIsTruthy in T.
        now destruct (OMap.get (toLowerCase u) (userBadges s)) as [[b|]|].
      * unfold badgeIsTruthy at 1. rewrite get_set_same. cbn [negb].
        f_equal. unfold with_userBadges. cbn.
        f_equal. clear T. induction (userBadges s) as [|[k' v'] m IH]; simpl.
        -- now rewrite String.eqb_refl.
        -- destruct (String.eqb_spec (toLowerCase u) k') as [<-|N]; simpl.
           ++ now rewrite String.eqb_refl.
           ++ destruct (String.eqb_spec (toLowerCase u) k'); [contradiction|].
              now rewrite IH.
Qed.

(** X12.  [useEloWardBadge] never replaces a badge: it changes nothing but
    the badge store, and a key that is bound to a badge stays bound to it.
    For an ASCII username it binds at most the lower-cased username, and only
    to [null] and only where the store has no badge for it; if moreover the
    username is not the name of an inherited member of the store object, the
    handle is the lower-cased username, the key is bound afterwards to the
    badge it had or to [null], and asking again changes nothing. *)
Theorem useEloWardBadge_never_replaces_a_badge :
  forall (s : State) (u : string),
    let s1 := fst (useEloWardBadge u s) in
    same_but_badges s s1 /\
    (forall k b, OMap.get k (userBadges s) = Some (Some b) ->
                 OMap.get k (userBadges s1) = Some (Some b)) /\
    (all_ascii u = true ->
     forall k, k <> toLowerCase u ->
               OMap.get k (userBadges s1) = OMap.get k (userBadges s)) /\
    (all_ascii u = true -> u <> "" -> ~ In (toLowerCase u) Object_prototype_names ->
     snd (useEloWardBadge u s) = Some (toLowerCase u) /\
     OMap.get (toLowerCase u) (userBadges s1)
     = Some (match OMap.get (toLowerCase u) (userBadges s) with
             | Some (Some b) => Some b
             | _ => None
             end) /\
     useEloWardBadge u s1 = useEloWardBadge u s).
Proof.
  intros s u s1. destruct (useEloWardBadge_effect s u) as (H1 & H2 & H3 & H4).
  split; [exact H1|]. split; [exact H2|]. split.
  - intros _. exact H3.
  - intros _. exact H4.
Qed.

Lemma useEloWardBadge_never_replaces_a_badge_witness :
  let s := run (init true) [] in
  snd (useEloWardBadge "Ann" s) = Some "ann" /\
  OMap.get "ann" (userBadges (fst (useEloWardBadge "Ann" s))) = Some None.
Proof.
  intros s.
  assert (NI : ~ In (toLowerCase "Ann") Object_prototype_names).
  { intros I. repeat (destruct I as [I|I]; [discriminate I|]). exact I. }
  pose proof (proj2 (proj2 (proj2 (useEloWardBadge_never_replaces_a_badge s "Ann")))
                eq_refl ltac:(discriminate) NI) as (H1 & H2 & _).
  split; [exact H1|exact H2].
Defined.



(* ================================================================== *)
(** ** The shape of the cache *)
(* ================================================================== *)

Lemma Forall_keys_delete (P : string -> Prop) k (m : list (string * CacheEntry)) :
  Forall P (OMap.keys m) -> Forall P (OMap.keys (OMap.delete k m)).
Proof.
  rewrite !Forall_forall. intros H x I. apply H. eapply in_keys_delete; eauto.
Qed.

Lemma Forall_keys_set (P : string -> Prop) k v (m : list (string * CacheEntry)) :
  P k -> Forall P (OMap.keys m) -> Forall P (OMap.keys (OMap.set k v m)).
Proof.
  rewrite !Forall_forall. intros Pk H x I.
  apply in_keys_set in I. destruct I as [->|I]; auto.
Qed.

Lemma get_tidy u now c : tidy c -> tidy (fst (LRUCache.get u now c)).
Proof.
  intros [N L]. unfold LRUCache.get.
  destruct (OMap.get (toLowerCase u) (LRUCache.cache c)) as [entry|]; [|now split].
  destruct (now - timestamp entry >? LRUCache.cacheDuration entry)%Z; split; cbn.
  - now apply NoDup_keys_delete.
  - now apply Forall_keys_delete.
  - now apply NoDup_keys_set, NoDup_keys_delete.
  - apply Forall_keys_set; [apply toLowerCase_idem|now apply Forall_keys_delete].
Qed.

Lemma set_tidy u d now c : tidy c -> tidy (LRUCache.set u d now c).
Proof.
  intros [N L]. unfold LRUCache.set.
  match goal with |- tidy {| LRUCache.cache := OMap.set _ _ ?m; LRUCache.maxSize := _ |} =>
    set (kept := m) end.
  assert (K : NoDup (OMap.keys kept) /\ Forall (fun k => toLowerCase k = k) (OMap.keys kept)).
  { unfold kept.
    destruct ((Z.of_nat (List.length (LRUCache.cache c)) >=? LRUCache.maxSize c)%Z
              && negb (OMap.has (toLowerCase u) (LRUCache.cache c))); [|now split].
    destruct (OMap.firstKey (LRUCache.cache c)) as [fk|]; [|now split].
    destruct (negb (String.eqb fk "")); [|now split].
    split; [now apply NoDup_keys_delete|now apply Forall_keys_delete]. }
  destruct K as [KN KL]. split; cbn.
  - now apply NoDup_keys_set.
  - apply Forall_keys_set; [apply toLowerCase_idem|exact KL].
Qed.

Lemma apply_op_tidy c op : tidy c -> tidy (apply_op c op).
Proof.
  destruct op as [u now|u d now|]; simpl.
  - apply get_tidy.
  - apply set_tidy.
  - intros _. split; constructor.
Qed.

Lemma apply_ops_tidy ops : forall c, tidy c -> tidy (apply_ops c ops).
Proof.
  induction ops as [|op ops IH]; intros c T; [exact T|].
  simpl. apply IH. now apply apply_op_tidy.
Qed.

Lemma apply_ops_app c a b : apply_ops c (a ++ b) = apply_ops (apply_ops c a) b.
Proof. apply fold_left_app. Qed.

(** Every step of the module acts on its cache through [get], [set] and
    [clear]. *)
Lemma step_cache_ops s e :
  exists ops, rankCache (step s e) = apply_ops (rankCache s) ops.
Proof.
  assert (F : forall u now,
             exists ops, rankCache (fst (fetchRankData u now s)) = apply_ops (rankCache s) ops).
  { intros u now. unfold fetchRankData.
    destruct (negb (enabled s) || String.eqb u ""); [now exists []|].
    exists [OpGet (toLowerCase u) now]. simpl.
    destruct (LRUCache.get (toLowerCase u) now (rankCache s)) as [c [v|]]; [reflexivity|].
    cbn [with_rankCache pendingRequests].
    now destruct (OMap.get (toLowerCase u) (pendingRequests s)). }
  destruct e as [u now|u now|u now| |rid o now|rid b now|b]; simpl.
  - apply F.
  - rewrite getOrFetchBadge_rankCache. apply F.
  - unfold getCachedRankData.
    destruct (negb (enabled s) || String.eqb u ""); [now exists []|].
    exists [OpGet (toLowerCase u) now]. simpl.
    now destruct (LRUCache.get (toLowerCase u) now (rankCache s)).
  - now exists [OpClear].
  - unfold fetchSettles.
    destruct (nth_error (requests s) rid) as [[key [| |v]]|]; try now exists [].
    destruct o as [|status]; [exists []; apply settle_rankCache|].
    destruct (status =? 404)%Z.
    { exists [OpSet key None now]. now rewrite settle_rankCache. }
    destruct (negb (ok status)); [exists []; apply settle_rankCache|now exists []].
  - unfold jsonSettles.
    destruct (nth_error (requests s) rid) as [[key [| |v]]|]; try now exists [].
    destruct b as [|body]; [exists []; apply settle_rankCache|].
    destruct (readRank body) as [[rec|]|].
    + exists [OpSet key (Some rec) now]. now rewrite settle_rankCache.
    + exists [OpSet key None now]. now rewrite settle_rankCache.
    + exists []. apply settle_rankCache.
  - now exists [].
Qed.

Lemma run_cache_ops es : forall s,
  exists ops, rankCache (run s es) = apply_ops (rankCache s) ops.
Proof.
  induction es as [|e es IH]; intros s; [now exists []|].
  simpl. destruct (IH (step s e)) as [ops2 E2]. destruct (step_cache_ops s e) as [ops1 E1].
  exists (ops1 ++ ops2)%list. now rewrite E2, E1, apply_ops_app.
Qed.

Lemma filter_key_length (x : string) (m : list (string * CacheEntry)) :
  NoDup (OMap.keys m) ->
  (List.length (filter (fun kv => String.eqb (fst kv) x) m) <= 1)%nat.
Proof.
  induction m as [|[k v] m IH]; simpl; intros N; [lia|].
  inversion N as [|? ? NI N']; subst.
  destruct (String.eqb_spec k x) as [->|Ne]; [|now apply IH].
  simpl. assert (Z : filter (fun kv => String.eqb (fst kv) x) m = []).
  { clear -NI. induction m as [|[k' v'] m IH]; simpl; [reflexivity|].
    destruct (String.eqb_spec k' x) as [->|Ne].
    - exfalso. apply NI. now left.
    - apply IH. intros I. apply NI. now right. }
  rewrite Z. simpl. lia.
Qed.

Lemma tidy_one_entry u c : tidy c -> (List.length (entries_of u c) <= 1)%nat.
Proof.
  intros [N L]. unfold entries_of.
  rewrite (filter_ext_in _ (fun kv => String.eqb (fst kv) (toLowerCase u))).
  - now apply filter_key_length.
  - intros [k v] I. simpl. rewrite Forall_forall in L.
    rewrite (L k); [reflexivity|]. unfold OMap.keys. now apply (in_map fst _ (k, v)).
Qed.

(** X14.  The cache holds at most one entry per user, whatever the letter
    case of the ASCII usernames it is called with: after any sequence of
    [get], [set] and [clear] with ASCII usernames on a new cache, and in
    every state the module can reach by calls with ASCII usernames, the keys
    are in lower case and pairwise distinct, and at most one of them is the
    lower-case form of a given ASCII username. *)
Theorem one_entry_per_user :
  (forall (cap : Z) (ops : list cache_op) (u : string),
     ascii_ops ops = true -> all_ascii u = true ->
     let c := apply_ops (LRUCache.new cap) ops in
     tidy c /\ (List.length (entries_of u c) <= 1)%nat) /\
  (forall (en : bool) (es : list event) (u : string),
     ascii_calls es = true -> all_ascii u = true ->
     let c := rankCache (run (init en) es) in
     tidy c /\ (List.length (entries_of u c) <= 1)%nat).
Proof.
  assert (T0 : forall cap, tidy (LRUCache.new cap)) by (intros cap; split; constructor).
  split.
  - intros cap ops u _ _ c.
    assert (T : tidy c) by (apply apply_ops_tidy, T0).
    split; [exact T|now apply tidy_one_entry].
  - intros en es u _ _ c.
    assert (T : tidy c).
    { unfold c. destruct (run_cache_ops es (init en)) as [ops ->].
      apply apply_ops_tidy, T0. }
    split; [exact T|now apply tidy_one_entry].
Qed.

Lemma one_entry_per_user_witness :
  let c := apply_ops (LRUCache.new 2) [OpSet "Ann" None 0%Z; OpSet "ANN" None 1%Z] in
  (List.length (entries_of "ann" c) <= 1)%nat /\
  (List.length (entries_of "ann"
                  (rankCache (run (init true)
                                [CallFetchRankData "Ann" 0%Z;
                                 FetchSettles 0 (Response 404) 1%Z]))) <= 1)%nat.
Proof.
  intros c. split.
  - exact (proj2 (proj1 one_entry_per_user 2%Z
                    [OpSet "Ann" None 0%Z; OpSet "ANN" None 1%Z] "ann" eq_refl eq_refl)).
  - exact (proj2 (proj2 one_entry_per_user true
                    [CallFetchRankData "Ann" 0%Z; FetchSettles 0 (Response 404) 1%Z]
                    "ann" eq_refl eq_refl)).
Defined.

(** X15.  [set] on a key that is already cached replaces the entry where it
    stands: nothing is evicted, the other entries and the order of the keys
    stay as they are, so the write does not count as a use.  An entry that is
    first in line and is rewritten is still the one that the next insertion
    of a new key into the full cache evicts. *)
Theorem set_on_cached_key_keeps_its_place :
  forall (c : LRUCache.t) (u : string) (d : option EloWardRankData) (now : Z),
    OMap.get (toLowerCase u) (LRUCache.cache c) <> None ->
    let c' := LRUCache.set u d now c in
    OMap.keys (LRUCache.cache c') = OMap.keys (LRUCache.cache c) /\
    OMap.get (toLowerCase u) (LRUCache.cache c') = Some {| data := d; timestamp := now |} /\
    (forall k, k <> toLowerCase u ->
               OMap.get k (LRUCache.cache c') = OMap.get k (LRUCache.cache c)) /\
    (forall w d' now',
       u <> "" ->
       OMap.firstKey (LRUCache.cache c) = Some (toLowerCase u) ->
       (Z.of_nat (LRUCache.size c) >= LRUCache.maxSize c)%Z ->
       OMap.get (toLowerCase w) (LRUCache.cache c) = None ->
       OMap.get (toLowerCase u) (LRUCache.cache (LRUCache.set w d' now' c')) = None).
Proof.
  intros c u d now P c'.
  assert (E : LRUCache.cache c' = OMap.set (toLowerCase u) {| data := d; timestamp := now |}
                                    (LRUCache.cache c)) by now apply set_present.
  split; [rewrite E; now apply keys_set_old|].
  split; [rewrite E; apply get_set_same|].
  split; [intros k N; rewrite E; now apply get_set_other|].
  intros w d' now' Nu FK Full NW.
  assert (Nk : toLowerCase u <> "") by (intros Z; now apply (proj1 (toLowerCase_empty u)) in Z).
  assert (Nwu : toLowerCase w <> toLowerCase u) by (intros Z; rewrite Z in NW; contradiction).
  assert (FK' : OMap.firstKey (LRUCache.cache c') = Some (toLowerCase u)).
  { rewrite E. destruct (LRUCache.cache c) as [|[k v] m]; [discriminate FK|].
    simpl in FK. injection FK as ->. simpl. now rewrite String.eqb_refl. }
  assert (Sz : LRUCache.size c' = LRUCache.size c).
  { unfold LRUCache.size. rewrite E. now apply length_set_old. }
  assert (NW' : OMap.get (toLowerCase w) (LRUCache.cache c') = None).
  { rewrite E, get_set_other; auto. }
  unfold LRUCache.set at 1. cbn [LRUCache.cache]. unfold OMap.has. rewrite NW', FK'.
  fold (LRUCache.size c'). rewrite Sz.
  assert (G : (Z.of_nat (LRUCache.size c) >=? LRUCache.maxSize c')%Z = true).
  { unfold c', LRUCache.set. cbn [LRUCache.maxSize]. apply Z.geb_le. lia. }
  rewrite G. cbn [andb negb].
  destruct (String.eqb_spec (toLowerCase u) "") as [Z|_]; [contradiction|]. cbn [negb].
  rewrite get_set_other; [apply get_delete_same|auto].
Qed.

Lemma set_on_cached_key_keeps_its_place_witness :
  let c := apply_ops (LRUCache.new 2) [OpSet "a" None 0%Z; OpSet "b" None 1%Z] in
  OMap.keys (LRUCache.cache (LRUCache.set "A" None 2%Z c)) = ["a"; "b"] /\
  OMap.get "a" (LRUCache.cache (LRUCache.set "c" None 3%Z (LRUCache.set "A" None 2%Z c)))
  = None.
Proof.
  intros c.
  pose proof (set_on_cached_key_keeps_its_place c "A" None 2%Z ltac:(discriminate))
    as (H1 & _ & _ & H4).
  split; [exact H1|].
  exact (H4 "c" None 3%Z ltac:(discriminate) eq_refl ltac:(vm_compute; discriminate) eq_refl).
Defined.

Lemma get_entry_or_gone u now c k :
  OMap.get k (LRUCache.cache (fst (LRUCache.get u now c))) = OMap.get k (LRUCache.cache c) \/
  OMap.get k (LRUCache.cache (fst (LRUCache.get u now c))) = None.
Proof.
  unfold LRUCache.get.
  destruct (OMap.get (toLowerCase u) (LRUCache.cache c)) as [entry|] eqn:G; [|now left].
  destruct (now - timestamp entry >? LRUCache.cacheDuration entry)%Z; cbn.
  - destruct (string_dec k (toLowerCase u)) as [->|N].
    + right. apply get_delete_same.
    + left. now apply get_delete_other.
  - left. destruct (string_dec k (toLowerCase u)) as [->|N].
    + now rewrite get_set_same.
    + rewrite get_set_other by exact N. now apply get_delete_other.
Qed.

Lemma get_size_le u now c :
  (LRUCache.size (fst (LRUCache.get u now c)) <= LRUCache.size c)%nat.
Proof.
  unfold LRUCache.get, LRUCache.size.
  destruct (OMap.get (toLowerCase u) (LRUCache.cache c)) as [entry|] eqn:G; [|cbn; lia].
  destruct (now - timestamp entry >? LRUCache.cacheDuration entry)%Z; cbn.
  - apply length_delete_le.
  - rewrite length_set_new by apply get_delete_same.
    apply length_delete_present. now rewrite G.
Qed.

(** X16.  Reading does not renew an entry.  Over any sequence of [get]
    calls, for any users and at any times, an entry either stays exactly as
    it was written, timestamp included, or is gone, and the cache does not
    grow; so a [get] after the entry's TTL has passed misses, however often
    the entry was hit in between. *)
Theorem reads_do_not_renew :
  forall (c : LRUCache.t) (ops : list cache_op) (k : string) (entry : CacheEntry),
    forallb is_get ops = true ->
    OMap.get k (LRUCache.cache c) = Some entry ->
    let c' := apply_ops c ops in
    (OMap.get k (LRUCache.cache c') = Some entry \/ OMap.get k (LRUCache.cache c') = None) /\
    (LRUCache.size c' <= LRUCache.size c)%nat /\
    (forall u now,
       toLowerCase u = k ->
       (LRUCache.cacheDuration entry < now - timestamp entry)%Z ->
       snd (LRUCache.get u now c') = None).
Proof.
  intros c ops k entry G E c'.
  assert (H : (OMap.get k (LRUCache.cache c') = Some entry \/
               OMap.get k (LRUCache.cache c') = None) /\
              (LRUCache.size c' <= LRUCache.size c)%nat).
  { unfold c'. clear c'. revert c G E.
    induction ops as [|op ops IH]; intros c G E; [split; [now left|cbn; lia]|].
    simpl in G. apply andb_true_iff in G. destruct G as [G1 G2].
    destruct op as [u now| |]; try discriminate G1. simpl.
    pose proof (get_size_le u now c) as S1.
    destruct (get_entry_or_gone u now c k) as [Same|Gone].
    - rewrite E in Same. destruct (IH _ G2 Same) as [A B]. split; [exact A|lia].
    - split.
      + right. clear -Gone G2. revert Gone. generalize (fst (LRUCache.get u now c)).
        induction ops as [|op ops IH]; intros c0 Gone; [exact Gone|].
        simpl in G2. apply andb_true_iff in G2. destruct G2 as [G1 G2].
        destruct op as [u' now'| |]; try discriminate G1. simpl. apply IH; [exact G2|].
        destruct (get_entry_or_gone u' now' c0 k) as [S|S]; [now rewrite S|exact S].
      + clear -S1 G2. revert S1. generalize (fst (LRUCache.get u now c)).
        induction ops as [|op ops IH]; intros c0 S1; [exact S1|].
        simpl in G2. apply andb_true_iff in G2. destruct G2 as [G1 G2].
        destruct op as [u' now'| |]; try discriminate G1. simpl. apply IH; [exact G2|].
        pose proof (get_size_le u' now' c0). lia. }
  destruct H as [H1 H2]. split; [exact H1|]. split; [exact H2|].
  intros u now <- Old. destruct H1 as [H1|H1].
  - now rewrite (get_expired u now c' entry H1 Old).
  - unfold LRUCache.get. now rewrite H1.
Qed.

Lemma reads_do_not_renew_witness :
  let c := LRUCache.set "ann" None 0%Z (LRUCache.new 5) in
  snd (LRUCache.get "Ann" 900001%Z
         (apply_ops c [OpGet "ann" 10%Z; OpGet "ANN" 900000%Z; OpGet "bob" 900000%Z]))
  = None.
Proof.
  intros c.
  exact (proj2 (proj2 (reads_do_not_renew c
                         [OpGet "ann" 10%Z; OpGet "ANN" 900000%Z; OpGet "bob" 900000%Z]
                         "ann" {| data := None; timestamp := 0%Z |} eq_refl eq_refl))
           "Ann" 900001%Z eq_refl ltac:(vm_compute; reflexivity)).
Defined.

(* ================================================================== *)
(** ** The loading flag *)
(* ================================================================== *)

(** X17.  [isLoading] is a flag, not a count of the requests in flight: the
    [finally] block of any request that ends without a body clears it, also
    while requests for other users are still waiting, and these stay in
    flight. *)
Theorem isLoading_is_cleared_by_any_request :
  forall (s : State) (rid other : nat) (key key' : string) (o : fetch_outcome) (now : Z),
    nth_error (requests s) rid = Some (mkRequest key AwaitFetch) ->
    o = FetchRejected \/ (exists status, o = Response status /\ ok status = false) ->
    in_flight_as s key' other -> other <> rid ->
    let s' := fetchSettles rid o now s in
    isLoading s' = false /\ in_flight_as s' key' other.
Proof.
  intros s rid other key key' o now R O (r & Rr & Kr & Ur) Ne s'.
  assert (E : exists s0, requests s0 = requests s /\ s' = settle rid key None s0).
  { unfold s', fetchSettles. rewrite R.
    destruct O as [->|(status & -> & Ok)]; [now exists s|].
    destruct (status =? 404)%Z; [now exists (cacheSet key None now s)|].
    rewrite Ok. now exists s. }
  destruct E as (s0 & E0 & ->).
  destruct (settle_fields rid key None s0) as (_ & L & _ & _ & Rq & _).
  split; [exact L|]. exists r. rewrite Rq, E0.
  rewrite nth_error_set_phase_other by exact Ne. auto.
Qed.

Lemma isLoading_is_cleared_by_any_request_witness :
  let s := run (init true) [CallFetchRankData "ann" 0%Z; CallFetchRankData "bob" 0%Z] in
  let s' := fetchSettles 0 FetchRejected 1%Z s in
  isLoading s = true /\ isLoading s' = false /\ in_flight_as s' "bob" 1.
Proof.
  intros s s'. split; [reflexivity|].
  assert (F : in_flight_as s "bob" 1).
  { exists (mkRequest "bob" AwaitFetch). repeat split. }
  exact (isLoading_is_cleared_by_any_request s 0 1 "ann" "bob" FetchRejected 1%Z
           eq_refl (or_introl eq_refl) F ltac:(discriminate)).
Defined.

(* ================================================================== *)
(** ** Splitting and joining text *)
(* ================================================================== *)

Lemma split_nonempty sep s : split sep s <> [].
Proof.
  destruct s as [|c r]; simpl; [discriminate|].
  destruct (Ascii.eqb c sep); [discriminate|].
  destruct (split sep r); discriminate.
Qed.

Lemma split_no_sep sep s : has_char sep s = false -> split sep s = [s].
Proof.
  induction s as [|c r IH]; simpl; intros H; [reflexivity|].
  apply orb_false_iff in H. destruct H as [H1 H2].
  rewrite H1, (IH H2). reflexivity.
Qed.

Lemma split_cons sep p r :
  has_char sep p = false -> split sep (p ++ String sep r) = p :: split sep r.
Proof.
  induction p as [|c p IH]; simpl; intros H.
  - now rewrite Ascii.eqb_refl.
  - apply orb_false_iff in H. destruct H as [H1 H2].
    rewrite H1, (IH H2). reflexivity.
Qed.

Lemma split_prefix sep p s :
  has_char sep p = false ->
  split sep (p ++ s)
  = match split sep s with
    | hd :: tl => (p ++ hd) :: tl
    | [] => [p]
    end.
Proof.
  induction p as [|c p IH]; simpl; intros H.
  - destruct (split sep s) eqn:E; [now apply split_nonempty in E|reflexivity].
  - apply orb_false_iff in H. destruct H as [H1 H2].
    rewrite H1, (IH H2). now destruct (split sep s).
Qed.

Lemma split_snoc sep base file :
  has_char sep file = false ->
  split sep (base ++ String sep file) = (split sep base ++ [file])%list.
Proof.
  intros H. induction base as [|c r IH]; simpl.
  - now rewrite Ascii.eqb_refl, (split_no_sep sep file H).
  - destruct (Ascii.eqb c sep); rewrite IH; [reflexivity|].
    destruct (split sep r) eqn:E; [now apply split_nonempty in E|reflexivity].
Qed.

Lemma join_split sep s : Array_join (String sep "") (split sep s) = s.
Proof.
  induction s as [|c r IH]; [reflexivity|]. simpl.
  destruct (Ascii.eqb_spec c sep) as [->|N].
  - change (Array_join (String sep "") ("" :: split sep r))
      with (match split sep r with
            | [] => ""
            | _ => "" ++ String sep "" ++ Array_join (String sep "") (split sep r)
            end).
    destruct (split sep r) eqn:E; [now apply split_nonempty in E|].
    simpl. simpl in IH. now rewrite IH.
  - destruct (split sep r) as [|p ps] eqn:E; [now apply split_nonempty in E|].
    simpl in IH |- *. destruct ps; [now rewrite <- IH|].
    simpl. now rewrite <- IH.
Qed.

Lemma firstn_snoc {A} (l : list A) x :
  firstn (List.length (l ++ [x]) - 1) (l ++ [x]) = l.
Proof.
  rewrite length_app. simpl. replace (List.length l + 1 - 1)%nat with (List.length l) by lia.
  rewrite firstn_app, firstn_all, Nat.sub_diag. simpl. apply app_nil_r.
Qed.

Lemma stripPrefix_app p x : stripPrefix p (p ++ x) = Some x.
Proof. induction p as [|c p IH]; simpl; [now destruct x|]. now rewrite Ascii.eqb_refl. Qed.

Lemma String_remove_first_prefix p x : String_remove_first p (p ++ x) = x.
Proof.
  destruct (p ++ x) eqn:E; simpl; rewrite <- E, stripPrefix_app; reflexivity.
Qed.

Lemma String_slice_app p x : String_slice (String.length p) (p ++ x) = x.
Proof. induction p as [|c p IH]; simpl; [reflexivity|exact IH]. Qed.

(** The text before the last separator. *)
Lemma base_of_path sep base file :
  has_char sep file = false ->
  let sp := split sep (base ++ String sep file) in
  Array_join (String sep "") (firstn (List.length sp - 1) sp) = base.
Proof.
  intros H sp. unfold sp. rewrite (split_snoc sep base file H), firstn_snoc.
  apply join_split.
Qed.

(* ================================================================== *)
(** ** Badge and cheer images *)
(* ================================================================== *)

(** X18.  The image host of a Twitch badge is its [image1x] URL without the
    first six characters (the scheme [https:]) and without the last path
    segment: for [image1x = scheme ++ base ++ "/" ++ file], with a scheme of
    six characters and no slash in [file], the host URL is [base], so
    [base ++ "/" ++ file] is the address of the image again; with no slash
    after the scheme the host URL is empty. *)
Theorem convertTwitchBadge_host_is_the_image_directory :
  forall (d : TwTypeBadge) (scheme rest : string),
    String.length scheme = 6%nat -> all_ascii scheme = true ->
    tw_image1x d = scheme ++ rest ->
    let url := host_url (bd_host (cosmetic_data (convertTwitchBadge d))) in
    (forall base file,
       rest = base ++ "/" ++ file -> has_char "/" file = false -> url = base) /\
    (has_char "/" rest = false -> url = "").
Proof.
  intros d scheme rest L _ E url. unfold url, convertTwitchBadge. cbn [host_url bd_host cosmetic_data].
  rewrite E, <- L, String_slice_app. split.
  - intros base file -> H. now apply (base_of_path "/" base file).
  - intros H. now rewrite (split_no_sep "/" rest H).
Qed.

Lemma convertTwitchBadge_host_is_the_image_directory_witness :
  host_url (bd_host (cosmetic_data (convertTwitchBadge
     (mkTwBadge "https://static-cdn.jtvnw.net/badges/v1/5d9f2208/1" "subscriber" "3" "Sub"))))
  = "//static-cdn.jtvnw.net/badges/v1/5d9f2208".
Proof.
  exact (proj1 (convertTwitchBadge_host_is_the_image_directory
                  (mkTwBadge "https://static-cdn.jtvnw.net/badges/v1/5d9f2208/1"
                     "subscriber" "3" "Sub")
                  "https:" "//static-cdn.jtvnw.net/badges/v1/5d9f2208/1" eq_refl eq_refl
                  eq_refl)
           "//static-cdn.jtvnw.net/badges/v1/5d9f2208" "1" eq_refl eq_refl).
Defined.

Lemma join_init_prefix sep p s :
  has_char sep p = false ->
  Array_join (String sep "") (Array_init (split sep (p ++ s)))
  = match split sep s with
    | _ :: _ :: _ => p ++ Array_join (String sep "") (Array_init (split sep s))
    | _ => ""
    end.
Proof.
  intros H. rewrite (split_prefix sep p s H). unfold Array_init.
  destruct (split sep s) as [|hd tl] eqn:E; [now apply split_nonempty in E|].
  destruct tl as [|x tl]; [reflexivity|].
  cbn [List.length]. rewrite !Nat.sub_succ, !Nat.sub_0_r. cbn [firstn].
  destruct tl as [|y tl]; cbn [firstn List.length Array_join].
  - reflexivity.
  - apply append_assoc3.
Qed.

(** X19.  For an image address that starts with [https:], the cheer emote
    converter and the Twitch badge converter compute the same host URL: the
    address without the scheme and without its last path segment, and the
    empty text when no slash follows the scheme.  A cheer part without
    images gets the empty host URL. *)
Theorem cheer_and_badge_hosts_agree :
  forall (c : CheerContent) (d : TwTypeBadge) (rest : string),
    cheer_images c = Some ("https:" ++ rest) ->
    tw_image1x d = "https:" ++ rest ->
    host_url (emote_host (convertCheerEmote c))
    = host_url (bd_host (cosmetic_data (convertTwitchBadge d))) /\
    host_url (emote_host (convertCheerEmote
                (mkCheer (cheer_emoteID c) (cheer_alt c) (cheer_cheerAmount c) None))) = "".
Proof.
  intros c d rest Ec Ed. split; [|reflexivity].
  unfold convertCheerEmote, convertTwitchBadge.
  cbn [host_url emote_host bd_host cosmetic_data]. rewrite Ec, Ed.
  change (String_slice 6 ("https:" ++ rest)) with rest.
  rewrite (join_init_prefix "/" "https:" rest eq_refl).
  fold (Array_init (split "/" rest)).
  destruct (split "/" rest) as [|hd [|x tl]] eqn:E.
  - now apply split_nonempty in E.
  - reflexivity.
  - apply String_remove_first_prefix.
Qed.

Lemma cheer_and_badge_hosts_agree_witness :
  host_url (emote_host (convertCheerEmote
     (mkCheer None "Cheer" (Some 100%Z) (Some "https://cdn.example/cheer/dark/100/1.gif"))))
  = host_url (bd_host (cosmetic_data (convertTwitchBadge
     (mkTwBadge "https://cdn.example/cheer/dark/100/1.gif" "bits" "100" "cheer 100")))).
Proof.
  exact (proj1 (cheer_and_badge_hosts_agree
                  (mkCheer None "Cheer" (Some 100%Z)
                     (Some "https://cdn.example/cheer/dark/100/1.gif"))
                  (mkTwBadge "https://cdn.example/cheer/dark/100/1.gif" "bits" "100"
                     "cheer 100")
                  "//cdn.example/cheer/dark/100/1.gif" eq_refl eq_refl)).
Defined.

(* ================================================================== *)
(** ** FrankerFaceZ badges *)
(* ================================================================== *)





(* ================================================================== *)
(** ** Decimal numerals *)
(* ================================================================== *)

Lemma pow10_succ (n : nat) : (10 ^ Z.of_nat (S n) = 10 * 10 ^ Z.of_nat n)%Z.
Proof. rewrite Nat2Z.inj_succ, Z.pow_succ_r; lia. Qed.

Lemma pow10_pos (n : nat) : (0 < 10 ^ Z.of_nat n)%Z.
Proof. apply Z.pow_pos_nonneg; lia. Qed.

Lemma of_uint_acc_value l : forall p,
  (Z.pos (Pos.of_uint_acc l p)
   = Z.pos p * 10 ^ Z.of_nat (Decimal.nb_digits l) + Z.of_N (Pos.of_uint l))%Z.
Proof.
  induction l as [|l IH|l IH|l IH|l IH|l IH|l IH|l IH|l IH|l IH|l IH]; intros p;
    cbn [Pos.of_uint_acc Pos.of_uint Decimal.nb_digits];
    try (rewrite pow10_succ, IH; try rewrite (IH 1%positive); try rewrite (IH 2%positive);
         try rewrite (IH 3%positive); try rewrite (IH 4%positive);
         try rewrite (IH 5%positive); try rewrite (IH 6%positive);
         try rewrite (IH 7%positive); try rewrite (IH 8%positive);
         try rewrite (IH 9%positive);
         rewrite ?N2Z.inj_pos, ?IH; lia).
  simpl. lia.
Qed.

Lemma of_uint_bound d : (0 <= Z.of_N (Pos.of_uint d) < 10 ^ Z.of_nat (Decimal.nb_digits d))%Z.
Proof.
  induction d as [|l IH|l IH|l IH|l IH|l IH|l IH|l IH|l IH|l IH|l IH];
    cbn [Pos.of_uint Decimal.nb_digits];
    try (rewrite pow10_succ, ?N2Z.inj_pos, ?of_uint_acc_value; lia).
  simpl. lia.
Qed.

Lemma digit_cases c :
  is_digit c = true ->
  In c ["0"; "1"; "2"; "3"; "4"; "5"; "6"; "7"; "8"; "9"]%char.
Proof.
  intros D.
  assert (E : exists n, (48 <= n <= 57)%nat /\ c = ascii_of_nat n).
  { unfold is_digit in D. apply andb_true_iff in D. destruct D as [D1 D2].
    apply Nat.leb_le in D1, D2. exists (nat_of_ascii c).
    split; [lia|now rewrite ascii_nat_embedding]. }
  destruct E as (n & B & ->).
  assert (C : (n = 48 \/ n = 49 \/ n = 50 \/ n = 51 \/ n = 52 \/ n = 53 \/ n = 54 \/
               n = 55 \/ n = 56 \/ n = 57)%nat) by lia.
  repeat (destruct C as [->|C]; [simpl; tauto|]). subst n. simpl. tauto.
Qed.

Ltac each_digit D :=
  apply digit_cases in D; simpl in D;
  repeat (destruct D as [<-|D]; [try reflexivity|]); try contradiction.

Lemma trimStart_digit s : starts_with_digit s = true -> trimStart s = s.
Proof.
  destruct s as [|c1 r1]; [discriminate|]. cbn [starts_with_digit]. intros D.
  each_digit D; cbn [trimStart]; (destruct r1 as [|c2 [|c3 r3]]; reflexivity).
Qed.

Lemma readSign_digit s : starts_with_digit s = true -> readSign s = (false, s).
Proof.
  destruct s as [|c r]; [discriminate|]. cbn [starts_with_digit]. intros D. each_digit D.
Qed.

Lemma prefix_Infinity_digit s : starts_with_digit s = true -> String.prefix "Infinity" s = false.
Proof.
  destruct s as [|c r]; [discriminate|]. cbn [starts_with_digit]. intros D. each_digit D.
Qed.

Lemma prefix_0x_digits s :
  all_digits s = true -> String.prefix "0x" s = false /\ String.prefix "0X" s = false.
Proof.
  destruct s as [|c1 [|c2 r]]; cbn [all_digits]; intros D.
  - now split.
  - rewrite andb_true_r in D. each_digit D; now split.
  - apply andb_true_iff in D. destruct D as [D1 D].
    apply andb_true_iff in D. destruct D as [D2 _].
    each_digit D1; try (now split). each_digit D2; now split.
Qed.

Lemma has_char_digits c s : is_digit c = false -> all_digits s = true -> has_char c s = false.
Proof.
  intros N. induction s as [|c' r IH]; simpl; intros D; [reflexivity|].
  apply andb_true_iff in D. destruct D as [D1 D2]. rewrite (IH D2), orb_false_r.
  destruct (Ascii.eqb_spec c' c) as [->|]; [congruence|reflexivity].
Qed.

Lemma readDigits_stop s acc n :
  starts_with_digit s = false -> readDigits 10 s acc n = (acc, n, s).
Proof.
  destruct s as [|c r]; [reflexivity|]. simpl. intros D. unfold digitValue. rewrite D.
  destruct (is_lower c) eqn:L.
  - unfold is_lower in L. apply andb_true_iff in L. destruct L as [L1 _].
    apply Nat.leb_le in L1.
    destruct (Z.ltb_spec (Z.of_nat (nat_of_ascii c) - 87) 10); [lia|reflexivity].
  - destruct (is_upper c) eqn:U; [|reflexivity].
    unfold is_upper in U. apply andb_true_iff in U. destruct U as [U1 _].
    apply Nat.leb_le in U1.
    destruct (Z.ltb_spec (Z.of_nat (nat_of_ascii c) - 55) 10); [lia|reflexivity].
Qed.

Lemma readDigits_uint d : forall rest acc n,
  starts_with_digit rest = false ->
  readDigits 10 (NilEmpty.string_of_uint d ++ rest) acc n
  = ((acc * 10 ^ Z.of_nat (Decimal.nb_digits d) + Z.of_N (Pos.of_uint d))%Z,
     (n + Decimal.nb_digits d)%nat, rest).
Proof.
  induction d as [|l IH|l IH|l IH|l IH|l IH|l IH|l IH|l IH|l IH|l IH]; intros rest acc n S.
  1: { cbn [NilEmpty.string_of_uint append Decimal.nb_digits Pos.of_uint].
       rewrite (readDigits_stop rest acc n S). f_equal. f_equal; simpl; lia. }
  all: cbn [NilEmpty.string_of_uint append Decimal.nb_digits Pos.of_uint].
  all: cbn [readDigits].
  all: match goal with
       | |- context [digitValue ?c] =>
           let v := eval vm_compute in (digitValue c) in change (digitValue c) with v
       end.
  all: cbv iota beta.
  all: match goal with
       | |- context [(?d <? 10)%Z] => change (d <? 10)%Z with true
       end.
  all: cbv iota.
  all: rewrite (IH rest _ _ S), pow10_succ, ?N2Z.inj_pos, ?of_uint_acc_value.
  all: f_equal.
  all: f_equal; lia.
Qed.

Lemma string_of_uint_digits d :
  all_digits (NilEmpty.string_of_uint d) = true /\
  String.length (NilEmpty.string_of_uint d) = Decimal.nb_digits d.
Proof.
  induction d as [|l [A B]|l [A B]|l [A B]|l [A B]|l [A B]|l [A B]|l [A B]|l [A B]
                  |l [A B]|l [A B]];
    cbn [NilEmpty.string_of_uint all_digits String.length Decimal.nb_digits];
    try (rewrite A, B; split; reflexivity).
  now split.
Qed.

(** The decimal numeral of an integer that is not negative. *)
Lemma NumberToString_uint z :
  (0 <= z)%Z ->
  exists d, NumberToString z = NilEmpty.string_of_uint d /\
            Z.of_N (Pos.of_uint d) = z /\
            (1 <= Decimal.nb_digits d)%nat /\
            (z <> 0%Z -> Decimal.nzhead d = d).
Proof.
  intros P. destruct z as [|p|p]; [| |lia].
  - exists (Decimal.D0 Decimal.Nil). repeat split; [constructor|]. intros N. now contradiction N.
  - exists (Pos.to_uint p). unfold NumberToString. cbn [Z.to_int NilZero.string_of_int].
    pose proof (DecimalPos.Unsigned.to_uint_nonnil p) as NN.
    split; [|split; [|split]].
    + unfold NilZero.string_of_uint. destruct (Pos.to_uint p); try reflexivity. contradiction.
    + now rewrite DecimalPos.Unsigned.of_to.
    + destruct (Pos.to_uint p); [contradiction|simpl; lia ..].
    + intros _. pose proof (DecimalZ.to_of (Decimal.Pos (Pos.to_uint p))) as T.
      assert (V : Z.of_int (Decimal.Pos (Pos.to_uint p)) = Z.pos p).
      { simpl. unfold Z.of_uint. now rewrite DecimalPos.Unsigned.of_to. }
      rewrite V in T. cbn [Z.to_int Decimal.norm] in T. injection T as T.
      pose proof (DecimalPos.Unsigned.to_uint_nonzero p) as NZ.
      assert (U : Decimal.unorm (Pos.to_uint p) = Pos.to_uint p) by (symmetry; exact T).
      unfold Decimal.unorm in U.
      destruct (Decimal.nzhead (Pos.to_uint p)) eqn:H0;
        [exfalso; apply NZ; now rewrite <- U|exact U ..].
Qed.

Lemma NumberToString_reads z : (0 <= z)%Z -> reads_as (NumberToString z) z.
Proof.
  intros P. destruct (NumberToString_uint z P) as (d & E & V & L & _).
  destruct (string_of_uint_digits d) as [A Len]. rewrite E.
  split; [exact A|]. split; [|split].
  - destruct d; try reflexivity. simpl in L. lia.
  - rewrite Len, <- V. apply of_uint_bound.
  - intros rest acc n S. rewrite Len, <- V. now apply readDigits_uint.
Qed.

Lemma NumberToString_length_bounds m :
  (0 < m)%Z ->
  (10 ^ (Z.of_nat (String.length (NumberToString m)) - 1) <= m
   < 10 ^ Z.of_nat (String.length (NumberToString m)))%Z.
Proof.
  intros P. destruct (NumberToString_uint m ltac:(lia)) as (d & E & V & L & H).
  destruct (string_of_uint_digits d) as [_ Len]. rewrite E, Len.
  split; [|rewrite <- V; apply of_uint_bound].
  specialize (H ltac:(lia)).
  destruct d as [|l|l|l|l|l|l|l|l|l|l]; cbn [Decimal.nb_digits] in *;
    try (rewrite <- V; cbn [Pos.of_uint]; rewrite N2Z.inj_pos, of_uint_acc_value;
         replace (Z.of_nat (S (Decimal.nb_digits l)) - 1)%Z
           with (Z.of_nat (Decimal.nb_digits l)) by lia;
         pose proof (of_uint_bound l); pose proof (pow10_pos (Decimal.nb_digits l)); nia).
  - lia.
  - exfalso. cbn [Decimal.nzhead] in H.
    pose proof (DecimalFacts.nb_digits_nzhead l) as B. rewrite H in B.
    cbn [Decimal.nb_digits] in B. lia.
Qed.

Lemma NumberToString_times_ten m :
  (0 < m)%Z ->
  String.length (NumberToString (10 * m)) = S (String.length (NumberToString m)).
Proof.
  intros P.
  pose proof (NumberToString_length_bounds m P) as [L1 U1].
  pose proof (NumberToString_length_bounds (10 * m) ltac:(lia)) as [L2 U2].
  pose proof (proj1 (proj2 (NumberToString_reads m ltac:(lia)))) as S1.
  pose proof (proj1 (proj2 (NumberToString_reads (10 * m) ltac:(lia)))) as S2.
  set (k := String.length (NumberToString m)) in *.
  set (k' := String.length (NumberToString (10 * m))) in *.
  assert (K : (1 <= k)%nat) by (unfold k; destruct (NumberToString m); [discriminate S1|simpl; lia]).
  assert (K' : (1 <= k')%nat)
    by (unfold k'; destruct (NumberToString (10 * m)); [discriminate S2|simpl; lia]).
  destruct (Nat.lt_trichotomy k' (S k)) as [Lt|[Eq|Gt]]; [|exact Eq|]; exfalso.
  - assert (Z.of_nat k' <= Z.of_nat k)%Z by lia.
    assert (10 ^ Z.of_nat k' <= 10 ^ Z.of_nat k)%Z by (apply Z.pow_le_mono_r; lia).
    replace (Z.of_nat k) with (Z.succ (Z.of_nat k - 1)) in H0 by lia.
    rewrite Z.pow_succ_r in H0 by lia. lia.
  - assert (Z.of_nat k + 1 <= Z.of_nat k' - 1)%Z by lia.
    assert (10 ^ (Z.of_nat k + 1) <= 10 ^ (Z.of_nat k' - 1))%Z by (apply Z.pow_le_mono_r; lia).
    rewrite Z.pow_add_r in H0 by lia. lia.
Qed.

Lemma reads_as_alone s v acc n :
  reads_as s v ->
  readDigits 10 s acc n
  = ((acc * 10 ^ Z.of_nat (String.length s) + v)%Z, (n + String.length s)%nat, "").
Proof.
  intros (_ & _ & _ & R). rewrite <- (append_empty_r s) at 1. now apply R.
Qed.

Lemma reads_as_length s v : reads_as s v -> (1 <= String.length s)%nat.
Proof. intros (_ & S & _). destruct s; [discriminate S|simpl; lia]. Qed.

Lemma starts_with_digit_app s rest :
  starts_with_digit s = true -> starts_with_digit (s ++ rest) = true.
Proof. destruct s; [discriminate|trivial]. Qed.

Lemma parseInt_reads s v radix :
  reads_as s v -> radix = 10%Z \/ radix = 0%Z -> parseInt s radix = Some v.
Proof.
  intros R Rx. pose proof (reads_as_length s v R) as L.
  pose proof (reads_as_alone s v 0 0 R) as RD.
  destruct R as (A & S & _ & _).
  destruct (prefix_0x_digits s A) as [P1 P2].
  unfold parseInt. rewrite (trimStart_digit s S), (readSign_digit s S).
  rewrite P1, P2. cbn [orb]. rewrite andb_false_r.
  destruct Rx as [->| ->]; cbn; rewrite RD;
    destruct (Nat.eqb_spec (0 + String.length s) 0); try lia; f_equal; lia.
Qed.

Lemma parseFloat_reads s v : reads_as s v -> parseFloat s = Finite v 0.
Proof.
  intros R. pose proof (reads_as_length s v R) as L.
  pose proof (reads_as_alone s v 0 0 R) as RD.
  destruct R as (A & S & _ & _).
  unfold parseFloat.
  rewrite (trimStart_digit s S), (readSign_digit s S), (prefix_Infinity_digit s S), RD.
  cbv iota beta.
  destruct (Nat.eqb_spec (0 + String.length s + 0) 0); [lia|]. cbn [readExponent].
  f_equal; lia.
Qed.

Lemma parseFloat_fraction s v t w :
  reads_as s v -> reads_as t w ->
  parseFloat (s ++ "." ++ t)
  = Finite (v * 10 ^ Z.of_nat (String.length t) + w) (- Z.of_nat (String.length t)).
Proof.
  intros R T. pose proof (reads_as_length s v R) as L.
  pose proof (reads_as_alone t w v 0 T) as RT.
  destruct R as (A & S & _ & RD).
  pose proof (starts_with_digit_app s ("." ++ t) S) as S'.
  unfold parseFloat.
  rewrite (trimStart_digit _ S'), (readSign_digit _ S'), (prefix_Infinity_digit _ S').
  rewrite (RD ("." ++ t) 0%Z 0%nat eq_refl).
  replace (0 * 10 ^ Z.of_nat (String.length s) + v)%Z with v by lia.
  cbn [append]. cbv iota beta. rewrite Ascii.eqb_refl, RT. cbv iota beta.
  destruct (Nat.eqb_spec (0 + String.length s + (0 + String.length t)) 0); [lia|].
  cbn [readExponent]. f_equal; lia.
Qed.

Lemma reads_as_no_dot s v : reads_as s v -> has_char "." s = false.
Proof. intros (A & _). now apply has_char_digits. Qed.

Lemma reduce_from_NaN ps : forall i, reduce_from i None ps = None.
Proof. induction ps as [|p ps IH]; intros i; [reflexivity|apply IH]. Qed.

Lemma reduce_from_any_NaN ps : forall i con, In None ps -> reduce_from i con ps = None.
Proof.
  induction ps as [|p ps IH]; intros i con I; [contradiction|].
  destruct I as [->|I]; simpl.
  - destruct con; simpl; apply reduce_from_NaN.
  - now apply IH.
Qed.

Lemma parseFloat_NaN rest : parseFloat ("NaN" ++ rest) = NaN.
Proof. reflexivity. Qed.

(** The parts of a version text written from its components. *)
Lemma split_dotted a rest :
  (0 <= a)%Z ->
  split "." (NumberToString a ++ String "." rest) = NumberToString a :: split "." rest.
Proof.
  intros P. apply split_cons, (reads_as_no_dot _ a), NumberToString_reads, P.
Qed.

Lemma split_dotted_last a :
  (0 <= a)%Z -> split "." (NumberToString a) = [NumberToString a].
Proof.
  intros P. apply split_no_sep, (reads_as_no_dot _ a), NumberToString_reads, P.
Qed.

(* ================================================================== *)
(** ** Version numbers *)
(* ================================================================== *)

Lemma pow100 :
  (100 ^ (2 - Z.of_nat 0) = 10000 /\ 100 ^ (2 - Z.of_nat 1) = 100 /\
   100 ^ (2 - Z.of_nat 2) = 1)%Z.
Proof. repeat split. Qed.

Lemma parseInt_NumberToString z :
  (0 <= z)%Z ->
  parseInt (NumberToString z) 10 = Some z /\ parseInt (NumberToString z) 0 = Some z.
Proof.
  intros P. split; apply parseInt_reads; auto using NumberToString_reads.
Qed.

Lemma parseFloat_NumberToString z :
  (0 <= z)%Z -> parseFloat (NumberToString z) = Finite z 0.
Proof. intros P. apply parseFloat_reads, NumberToString_reads, P. Qed.

Lemma parseFloat_NumberToString_fraction z m :
  (0 <= z)%Z -> (0 <= m)%Z ->
  parseFloat (NumberToString z ++ "." ++ NumberToString m)
  = Finite (z * 10 ^ Z.of_nat (String.length (NumberToString m)) + m)
           (- Z.of_nat (String.length (NumberToString m))).
Proof. intros P Q. apply parseFloat_fraction; now apply NumberToString_reads. Qed.

Ltac read_components :=
  unfold semanticVersionToNumber, dotted; cbn [map Array_join]; cbn [append];
  repeat (rewrite split_dotted by assumption);
  rewrite split_dotted_last by assumption;
  cbn [firstn map List.length Nat.ltb Nat.leb nth];
  rewrite ?(fun z P => proj1 (parseInt_NumberToString z P)) by assumption;
  rewrite ?(fun z P => proj2 (parseInt_NumberToString z P)) by assumption;
  cbn [reduce_from num_add num_mul Number_toString];
  destruct pow100 as (P0 & P1 & P2); rewrite ?P0, ?P1, ?P2; clear P0 P1 P2.

Lemma semver_three a b c :
  (0 <= a)%Z -> (0 <= b)%Z -> (0 <= c)%Z ->
  semanticVersionToNumber (dotted [a; b; c]) = Finite (a * 10000 + b * 100 + c) 0.
Proof.
  intros A B C. read_components.
  rewrite parseFloat_NumberToString by lia. f_equal; lia.
Qed.

Lemma semver_two a b :
  (0 <= a)%Z -> (0 <= b)%Z ->
  semanticVersionToNumber (dotted [a; b]) = Finite (a * 10000 + b * 100) 0.
Proof.
  intros A B. read_components.
  rewrite parseFloat_NumberToString by lia. f_equal; lia.
Qed.

Lemma semver_one a :
  (0 <= a)%Z -> semanticVersionToNumber (dotted [a]) = Finite (a * 10000) 0.
Proof.
  intros A. read_components.
  rewrite parseFloat_NumberToString by lia. f_equal; lia.
Qed.

Lemma semver_four a b c m :
  (0 <= a)%Z -> (0 <= b)%Z -> (0 <= c)%Z -> (0 <= m)%Z ->
  semanticVersionToNumber (dotted [a; b; c; m])
  = Finite ((a * 10000 + b * 100 + c) * 10 ^ Z.of_nat (String.length (NumberToString m)) + m)
           (- Z.of_nat (String.length (NumberToString m))).
Proof.
  intros A B C M. read_components.
  change (String "." (NumberToString m)) with ("." ++ NumberToString m).
  rewrite parseFloat_NumberToString_fraction by lia.
  f_equal; f_equal; lia.
Qed.

(** X21.  [semanticVersionToNumber] weighs the first three components of a
    version by 10000, 100 and 1: for components that are not negative,
    [a.b.c] gives [a * 10000 + b * 100 + c], and a component that is left out
    counts as zero.  If one of the first three parts does not start with a
    number, the result is [NaN]. *)
Theorem semanticVersionToNumber_weighs_components :
  (forall a b c : Z,
     (0 <= a)%Z -> (0 <= b)%Z -> (0 <= c)%Z -> (a * 10000 + b * 100 + c < 2 ^ 53)%Z ->
     semanticVersionToNumber (dotted [a; b; c]) = Finite (a * 10000 + b * 100 + c) 0 /\
     semanticVersionToNumber (dotted [a; b]) = semanticVersionToNumber (dotted [a; b; 0%Z]) /\
     semanticVersionToNumber (dotted [a]) = semanticVersionToNumber (dotted [a; 0%Z; 0%Z])) /\
  (forall (ver p : string),
     In p (firstn 3 (split "." ver)) -> parseInt p 10 = None ->
     semanticVersionToNumber ver = NaN).
Proof.
  split.
  - intros a b c A B C _. split; [now apply semver_three|]. split.
    + rewrite semver_two, semver_three by lia. f_equal. lia.
    + rewrite semver_one, semver_three by lia. f_equal. lia.
  - intros ver p I N. unfold semanticVersionToNumber.
    rewrite (reduce_from_any_NaN _ 0 (Some 0%Z)).
    + cbn [Number_toString]. destruct (3 <? List.length (split "." ver))%nat.
      * apply parseFloat_NaN.
      * reflexivity.
    + rewrite <- N. now apply (in_map (fun p => parseInt p 10)).
Qed.

Lemma semanticVersionToNumber_weighs_components_witness :
  semanticVersionToNumber (dotted [3; 0; 10]%Z) = Finite 30010 0.
Proof.
  exact (proj1 (proj1 semanticVersionToNumber_weighs_components 3 0 10
                  ltac:(lia) ltac:(lia) ltac:(lia) ltac:(lia))%Z).
Defined.

Lemma same_value_integers x y : same_value (Finite x 0) (Finite y 0) <-> x = y.
Proof. unfold same_value. cbn. lia. Qed.

Lemma less_than_integers x y : less_than (Finite x 0) (Finite y 0) <-> (x < y)%Z.
Proof. unfold less_than. cbn. lia. Qed.

(** X22.  The number of a three-part version orders versions as their
    components do, as long as minor and patch stay below 100: then a version
    is smaller exactly when it comes first component by component, and two
    versions get the same number only if they are the same.  A minor or
    patch of 100 or more spills into the next component: [a.(b+100).c] gets
    the number of [(a+1).b.c]. *)
Theorem semanticVersionToNumber_orders_two_digit_components :
  (forall a b c a' b' c' : Z,
     (0 <= a < 2 ^ 31)%Z -> (0 <= b < 100)%Z -> (0 <= c < 100)%Z ->
     (0 <= a' < 2 ^ 31)%Z -> (0 <= b' < 100)%Z -> (0 <= c' < 100)%Z ->
     let x := semanticVersionToNumber (dotted [a; b; c]) in
     let y := semanticVersionToNumber (dotted [a'; b'; c']) in
     (less_than x y <-> (a < a' \/ (a = a' /\ (b < b' \/ (b = b' /\ c < c'))))%Z) /\
     (same_value x y <-> a = a' /\ b = b' /\ c = c')) /\
  (forall a b c : Z,
     (0 <= a < 2 ^ 31)%Z -> (0 <= b < 2 ^ 31)%Z -> (0 <= c < 2 ^ 31)%Z ->
     semanticVersionToNumber (dotted [a; b + 100; c])%Z
     = semanticVersionToNumber (dotted [a + 1; b; c])%Z /\
     semanticVersionToNumber (dotted [a; b; c + 100])%Z
     = semanticVersionToNumber (dotted [a; b + 1; c])%Z).
Proof.
  split.
  - intros a b c a' b' c' A B C A' B' C' x y. unfold x, y.
    rewrite !semver_three by lia.
    rewrite less_than_integers, same_value_integers. lia.
  - intros a b c A B C. rewrite !semver_three by lia. split; f_equal; lia.
Qed.

Lemma semanticVersionToNumber_orders_two_digit_components_witness :
  less_than (semanticVersionToNumber (dotted [3; 0; 99]%Z))
            (semanticVersionToNumber (dotted [3; 1; 0]%Z)) /\
  semanticVersionToNumber (dotted [3; 0 + 100; 0]%Z)
  = semanticVersionToNumber (dotted [3 + 1; 0; 0]%Z).
Proof.
  split.
  - apply (proj1 (proj1 semanticVersionToNumber_orders_two_digit_components 3 0 99 3 1 0
                    ltac:(lia) ltac:(lia) ltac:(lia) ltac:(lia) ltac:(lia) ltac:(lia))%Z).
    lia.
  - exact (proj1 (proj2 semanticVersionToNumber_orders_two_digit_components 3 0 0
                    ltac:(lia) ltac:(lia) ltac:(lia))%Z).
Defined.

(** X23.  A fourth component is read as the digits after a decimal point:
    for a major and a build number below 100000, [a.b.c.m] gets the double
    nearest to [a * 10000 + b * 100 + c + m / 10^k], with [k] the number of
    digits of [m].  That decimal has at most 14 significant digits, so the
    number is not below the number of [a.b.c] and is below the next whole
    number.  A build [0] does not tell a version from the three-part one, a
    build [m] is not told from the build [10 * m], and build [10] counts as
    smaller than build [9]. *)
Theorem semanticVersionToNumber_build_is_a_fraction :
  forall a b c m : Z,
    (0 <= a < 10 ^ 5)%Z -> (0 <= b < 100)%Z -> (0 <= c < 100)%Z -> (0 <= m < 10 ^ 5)%Z ->
    let core := (a * 10000 + b * 100 + c)%Z in
    let k := Z.of_nat (String.length (NumberToString m)) in
    let x := semanticVersionToNumber (dotted [a; b; c; m]) in
    x = Finite (core * 10 ^ k + m) (- k) /\
    (0 <= m < 10 ^ k)%Z /\
    (core * 10 ^ k + m < 10 ^ 14)%Z /\
    ~ less_than x (semanticVersionToNumber (dotted [a; b; c])) /\
    less_than x (Finite (core + 1) 0) /\
    same_value (semanticVersionToNumber (dotted [a; b; c; 0%Z]))
               (semanticVersionToNumber (dotted [a; b; c])) /\
    ((0 < m)%Z ->
     same_value (semanticVersionToNumber (dotted [a; b; c; (10 * m)%Z]))
                (semanticVersionToNumber (dotted [a; b; c; m]))) /\
    less_than (semanticVersionToNumber (dotted [a; b; c; 10%Z]))
              (semanticVersionToNumber (dotted [a; b; c; 9%Z])).
Proof.
  intros a b c m A B C M core k x.
  assert (Mk : (0 <= m < 10 ^ k)%Z) by (apply (NumberToString_reads m); lia).
  assert (K5 : (1 <= k <= 5)%Z).
  { pose proof (reads_as_length _ _ (NumberToString_reads m ltac:(lia))) as L.
    split; [unfold k; lia|].
    destruct (Z.eq_dec m 0) as [->|Nz]; [unfold k; simpl; lia|].
    destruct (NumberToString_length_bounds m ltac:(lia)) as [Lo _]. fold k in Lo.
    destruct (Z_le_gt_dec k 5) as [Le|Gt]; [exact Le|exfalso].
    assert (10 ^ 5 <= 10 ^ (k - 1))%Z by (apply Z.pow_le_mono_r; lia). lia. }
  assert (P5 : (0 < 10 ^ k <= 10 ^ 5)%Z).
  { split; [apply Z.pow_pos_nonneg; lia|apply Z.pow_le_mono_r; lia]. }
  assert (Ex : x = Finite (core * 10 ^ k + m) (- k)) by (apply semver_four; lia).
  split; [exact Ex|].
  split; [exact Mk|].
  split; [unfold core; change (10 ^ 5)%Z with 100000%Z in *;
          change (10 ^ 14)%Z with 100000000000000%Z; nia|].
  split; [|split].
  { rewrite Ex, semver_three by lia. fold core. unfold less_than.
    rewrite Z.min_l by lia.
    replace (- k - - k)%Z with 0%Z by lia. replace (0 - - k)%Z with k by lia.
    rewrite Z.pow_0_r. lia. }
  { rewrite Ex. unfold less_than. rewrite Z.min_l by lia.
    replace (- k - - k)%Z with 0%Z by lia. replace (0 - - k)%Z with k by lia.
    rewrite Z.pow_0_r. lia. }
  clear Ex x.
  split; [|split].
  - rewrite semver_four, semver_three by lia. fold core.
    change (String.length (NumberToString 0)) with 1%nat.
    unfold same_value. cbn. lia.
  - intros P. rewrite !semver_four by lia. fold core.
    rewrite (NumberToString_times_ten m P), Nat2Z.inj_succ. fold k.
    assert (K : (0 <= k)%Z) by (unfold k; lia). clearbody k core.
    unfold same_value. rewrite Z.min_l by lia.
    replace (- Z.succ k - - Z.succ k)%Z with 0%Z by lia.
    replace (- k - - Z.succ k)%Z with 1%Z by lia.
    rewrite Z.pow_succ_r by lia. rewrite Z.pow_0_r, Z.pow_1_r. ring.
  - rewrite !semver_four by lia. fold core.
    change (String.length (NumberToString 10)) with 2%nat.
    change (String.length (NumberToString 9)) with 1%nat.
    unfold less_than. cbn. lia.
Qed.

Lemma semanticVersionToNumber_build_is_a_fraction_witness :
  semanticVersionToNumber (dotted [3; 0; 10; 1000]%Z) = Finite 300101000 (-4) /\
  same_value (semanticVersionToNumber (dotted [3; 0; 10; (10 * 1000)%Z]%Z))
             (semanticVersionToNumber (dotted [3; 0; 10; 1000]%Z)).
Proof.
  pose proof (semanticVersionToNumber_build_is_a_fraction 3 0 10 1000
                ltac:(lia) ltac:(lia) ltac:(lia) ltac:(lia))%Z
    as (H1 & _ & _ & _ & _ & _ & H4 & _).
  split; [exact H1|]. apply H4. lia.
Defined.

Lemma parseInt_reads_prefix s v rest :
  reads_as s v -> starts_with_digit rest = false -> parseInt (s ++ rest) 10 = Some v.
Proof.
  intros R N. pose proof (reads_as_length s v R) as L.
  destruct R as (A & S & _ & RD).
  pose proof (starts_with_digit_app s rest S) as S'.
  unfold parseInt. rewrite (trimStart_digit _ S'), (readSign_digit _ S').
  cbn. rewrite (RD rest 0%Z 0%nat N).
  destruct (Nat.eqb_spec (0 + String.length s) 0); [lia|]. f_equal; lia.
Qed.

Lemma has_char_app c s t : has_char c (s ++ t) = has_char c s || has_char c t.
Proof. induction s as [|x s IH]; simpl; [reflexivity|]. now rewrite IH, orb_assoc. Qed.

(** X24.  Text after the third component is ignored: a three-part version
    followed by a suffix that does not start with a digit and holds no dot,
    such as a pre-release tag, gets the number of the version without the
    suffix. *)
Theorem semanticVersionToNumber_ignores_a_suffix :
  forall (a b c : Z) (suffix : string),
    (0 <= a)%Z -> (0 <= b)%Z -> (0 <= c)%Z -> (a * 10000 + b * 100 + c < 2 ^ 53)%Z ->
    starts_with_digit suffix = false -> has_char "." suffix = false ->
    semanticVersionToNumber (dotted [a; b; c] ++ suffix)
    = semanticVersionToNumber (dotted [a; b; c]).
Proof.
  intros a b c suffix A B C _ N D. rewrite (semver_three a b c A B C).
  unfold semanticVersionToNumber, dotted. cbn [map Array_join].
  rewrite !append_assoc3. cbn [append].
  rewrite !split_dotted by assumption.
  rewrite split_no_sep.
  - cbn [firstn map List.length Nat.ltb Nat.leb nth].
    rewrite !(fun z P => proj1 (parseInt_NumberToString z P)) by assumption.
    rewrite (parseInt_reads_prefix _ c suffix (NumberToString_reads c C) N).
    cbn [reduce_from num_add num_mul Number_toString].
    destruct pow100 as (P0 & P1 & P2); rewrite ?P0, ?P1, ?P2.
    rewrite parseFloat_NumberToString by lia. f_equal; lia.
  - rewrite has_char_app, D, orb_false_r.
    apply (reads_as_no_dot _ c), NumberToString_reads, C.
Qed.

Lemma semanticVersionToNumber_ignores_a_suffix_witness :
  semanticVersionToNumber (dotted [3; 0; 10]%Z ++ "-beta")
  = semanticVersionToNumber (dotted [3; 0; 10]%Z).
Proof.
  exact (semanticVersionToNumber_ignores_a_suffix 3 0 10 "-beta"
           ltac:(lia) ltac:(lia) ltac:(lia) ltac:(lia) eq_refl eq_refl)%Z.
Defined.

Lemma colon_split p : forall p' v v',
  has_char ":" p = false -> has_char ":" p' = false ->
  p ++ ":" ++ v = p' ++ ":" ++ v' -> p = p' /\ v = v'.
Proof.
  induction p as [|c p IH]; intros [|c' p'] v v' H H' E; simpl in *.
  - injection E as ->. now split.
  - injection E as <- _. apply orb_false_iff in H'. destruct H' as [H' _]. discriminate H'.
  - injection E as -> _. apply orb_false_iff in H. destruct H as [H _]. discriminate H.
  - injection E as -> E. apply orb_false_iff in H, H'.
    destruct (IH p' v v' (proj2 H) (proj2 H') E) as [-> ->]. now split.
Qed.

(** X25.  The id of a converted Twitch badge, [setID:version], names the
    badge: as long as set ids hold no colon, two badges get the same id only
    if they have the same set id and the same version. *)
Theorem convertTwitchBadge_id_names_the_badge :
  forall (d d' : TwTypeBadge),
    has_char ":" (tw_setID d) = false -> has_char ":" (tw_setID d') = false ->
    cosmetic_id (convertTwitchBadge d) = cosmetic_id (convertTwitchBadge d') ->
    tw_setID d = tw_setID d' /\ tw_version d = tw_version d'.
Proof.
  intros d d' H H' E. unfold convertTwitchBadge in E. cbn [cosmetic_id] in E.
  now apply colon_split.
Qed.

Lemma convertTwitchBadge_id_names_the_badge_witness :
  tw_setID (mkTwBadge "https://a/b/1" "subscriber" "3" "Sub")
  = tw_setID (mkTwBadge "https://a/c/1" "subscriber" "3" "Subscriber") /\
  tw_version (mkTwBadge "https://a/b/1" "subscriber" "3" "Sub")
  = tw_version (mkTwBadge "https://a/c/1" "subscriber" "3" "Subscriber").
Proof.
  exact (convertTwitchBadge_id_names_the_badge
           (mkTwBadge "https://a/b/1" "subscriber" "3" "Sub")
           (mkTwBadge "https://a/c/1" "subscriber" "3" "Subscriber")
           eq_refl eq_refl eq_refl).
Defined.
